(** * SHA-256/384/512 of azure-security-keyvault-common: the hash wrappers of sha.cpp

    sha.cpp holds two implementations of the incremental hash interface
    [Azure::Core::Cryptography::Hash], one chosen at build time:

    - [SHAWithOpenSSL] (POSIX), over OpenSSL's EVP message digest contexts;
    - [SHAWithBCrypt] (Windows), over the CNG primitives of bcrypt.h, with the
      helper [AlgorithmProviderInstance].

    The cryptographic libraries are not part of the repository.  Both wrappers
    are embedded over a record of the primitives they call ([EVP_API],
    [BCrypt_API]) acting on an abstract library state, so every statement
    about the wrappers holds for whichever library is linked.  What a library
    is expected to do on a well-formed call sequence is written down once, as
    a contract ([EVP_contract], [BCrypt_contract]); a reference library built
    on the FIPS 180-4 digests ([evp_ref], [bcrypt_ref]) shows the contracts
    can be met and fixes the published test vectors. *)

From Stdlib Require Import NArith ZArith List String Lia.
From Stdlib.Strings Require Import Byte.
From stdpp Require Import base tactics option list gmap strings.
Import ListNotations.

Local Open Scope N_scope.

(** ** Exceptions, object state and the library state

    A method of a C++ object runs over three things: the members of the
    object ([this]), the state of the linked library ([world]) and, as a
    ghost record, the primitive calls made so far ([calls]).  A method
    either returns a value or throws; in both cases the state it leaves
    behind is kept. *)

Inductive exception :=
| runtime_error (what : string).

Record machine (O W C : Type) := Machine {
  this : O;
  world : W;
  calls : list C
}.
Arguments Machine {O W C} _ _ _.
Arguments this {O W C} _.
Arguments world {O W C} _.
Arguments calls {O W C} _.

Definition M (S A : Type) : Type := S -> (exception + A) * S.

Definition ret {S A} (a : A) : M S A := fun s => (inr a, s).

Definition bind {S A B} (m : M S A) (k : A -> M S B) : M S B :=
  fun s => match m s with
           | (inl e, s') => (inl e, s')
           | (inr a, s') => k a s'
           end.

Definition throw {S A} (e : exception) : M S A := fun s => (inl e, s).

#[global] Instance M_ret {S} : MRet (M S) := @ret S.
#[global] Instance M_bind {S} : MBind (M S) := fun A B k m => bind m k.

(** Reading and writing the members of the object. *)
Definition member {O W C A} (f : O -> A) : M (machine O W C) A :=
  fun s => (inr (f (this s)), s).

Definition assign {O W C} (f : O -> O) : M (machine O W C) unit :=
  fun s => (inr tt, Machine (f (this s)) (world s) (calls s)).

(** One call of a library primitive: the primitive acts on the library
    state, and the call is appended to the record of calls. *)
Definition invoke {O W C A} (prim : W -> A * W) (event : A -> C) : M (machine O W C) A :=
  fun s => let '(a, w) := prim (world s) in
           (inr a, Machine (this s) w (calls s ++ [event a])).

(** The lifetime of an object that was created with [new] and is later
    deleted: the destructor runs once the client code is done (also when that
    code throws), but never for an object whose constructor threw, since such
    an object was never constructed. *)
Definition lifetime {S A} (ctor dtor : M S unit) (body : M S A) : M S A :=
  fun s => match ctor s with
           | (inl e, s') => (inl e, s')
           | (inr _, s') => let '(r, s'') := body s' in (r, snd (dtor s''))
           end.

(** A local variable of class type inside a method of another object: it is
    constructed on entry; when its constructor throws, the exception leaves the
    enclosing method and no destructor runs; otherwise its destructor runs
    when the scope is left, by normal return or by an exception of [body]. *)
Definition local_object {O L W C A} (uninit : L)
    (ctor dtor : M (machine L W C) unit)
    (body : L -> M (machine O W C) A) : M (machine O W C) A :=
  fun s => match ctor (Machine uninit (world s) (calls s)) with
           | (inl e, sl) => (inl e, Machine (this s) (world sl) (calls sl))
           | (inr _, sl) =>
               let '(r, s') := body (this sl) (Machine (this s) (world sl) (calls sl)) in
               let sl' := snd (dtor (Machine (this sl) (world s') (calls s'))) in
               (r, Machine (this s') (world sl') (calls sl'))
           end.

(** [raised r]: the call ended in an exception. *)
Definition raised {A} (r : exception + A) : Prop :=
  match r with inl _ => True | inr _ => False end.

(** Writing [written] at the start of the buffer [buf]; a write never goes
    past the end of the buffer. *)
Definition poke (written buf : list byte) : list byte :=
  take (length buf) written ++ drop (length written) buf.

(** Pointers and handles; [NULL] is address 0. *)
Definition ptr := N.
Definition NULL : ptr := 0.

(** The three public hash classes [SHA256], [SHA384] and [SHA512]. *)
Inductive HashClass := SHA256_class | SHA384_class | SHA512_class.

(** The digest length each class stands for, in bytes. *)
Definition digest_length (c : HashClass) : nat :=
  match c with SHA256_class => 32 | SHA384_class => 48 | SHA512_class => 64 end%nat.

(** ** The POSIX build: [SHAWithOpenSSL] over OpenSSL's EVP interface *)

Module SHASize.
(** [enum class SHASize] *)
Inductive t := SHA256 | SHA384 | SHA512.
End SHASize.

(** The digest descriptors returned by [EVP_sha256()], [EVP_sha384()] and
    [EVP_sha512()]. *)
Inductive EVP_MD := EVP_sha256 | EVP_sha384 | EVP_sha512.

(** OpenSSL's constants [EVP_MAX_MD_SIZE] and [EVP_MD_size], from evp.h. *)
Definition EVP_MAX_MD_SIZE : nat := 64.

Definition EVP_MD_size (md : EVP_MD) : nat :=
  match md with EVP_sha256 => 32 | EVP_sha384 => 48 | EVP_sha512 => 64 end%nat.

(** The EVP primitives sha.cpp calls, as functions on the state [W] of the
    library.  [EVP_DigestUpdate ctx d cnt] is given the buffer and the byte
    count; [EVP_DigestFinal ctx] returns its status, the bytes it wrote to
    [md] and the value it stored in [*s]. *)
Record EVP_API (W : Type) := {
  EVP_MD_CTX_new : W -> ptr * W;
  EVP_DigestInit_ex : ptr -> EVP_MD -> W -> Z * W;
  EVP_DigestUpdate : ptr -> list byte -> N -> W -> Z * W;
  EVP_DigestFinal : ptr -> W -> (Z * list byte * N) * W;
  EVP_MD_CTX_free : ptr -> W -> W
}.
Arguments EVP_MD_CTX_new {W} _ _.
Arguments EVP_DigestInit_ex {W} _ _ _ _.
Arguments EVP_DigestUpdate {W} _ _ _ _ _.
Arguments EVP_DigestFinal {W} _ _ _.
Arguments EVP_MD_CTX_free {W} _ _ _.

(** The record of EVP calls: arguments, then what the call returned. *)
Inductive EVP_call :=
| Call_EVP_MD_CTX_new (ret : ptr)
| Call_EVP_DigestInit_ex (ctx : ptr) (type : EVP_MD) (ret : Z)
| Call_EVP_DigestUpdate (ctx : ptr) (d : list byte) (cnt : N) (ret : Z)
| Call_EVP_DigestFinal (ctx : ptr) (ret : Z)
| Call_EVP_MD_CTX_free (ctx : ptr).

Module Posix.
Section SHAWithOpenSSL.
Context {W : Type} (evp : EVP_API W).

(** The contents of storage that was declared but not yet written
    ([unsigned char finalHash[EVP_MAX_MD_SIZE]]): any bytes. *)
Variable indeterminate : nat -> byte.

(** [class SHAWithOpenSSL]: its one member. *)
Record SHAWithOpenSSL := { m_context : ptr }.

Definition St : Type := machine SHAWithOpenSSL W EVP_call.

(** [void OnAppend(const uint8_t* data, std::size_t length)] *)
Definition OnAppend (data : list byte) : M St unit :=
  ctx ← member m_context;
  let length := N.of_nat (length data) in
  status ← invoke (EVP_DigestUpdate evp ctx data length) (Call_EVP_DigestUpdate ctx data length);
  if decide (1%Z ≠ status)
  then throw (runtime_error "Crypto error while updating SHA256.")
  else mret tt.

(** [std::vector<uint8_t> OnFinal(const uint8_t* data, std::size_t length)] *)
Definition OnFinal (data : list byte) : M St (list byte) :=
  OnAppend data;;
  ctx ← member m_context;
  '(status, md, size) ← invoke (EVP_DigestFinal evp ctx)
                               (fun r => Call_EVP_DigestFinal ctx (fst (fst r)));
  let finalHash := poke md (map indeterminate (seq 0 EVP_MAX_MD_SIZE)) in
  if decide (1%Z ≠ status)
  then throw (runtime_error "Crypto error while computing SHA256.")
  else mret (take (N.to_nat size) finalHash).

(** [EVP_DigestInit_ex(m_context, type, NULL)] with its check, as each case
    of the constructor's switch has it. *)
Definition init_digest (type : EVP_MD) (what : string) : M St unit :=
  ctx ← member m_context;
  status ← invoke (EVP_DigestInit_ex evp ctx type) (Call_EVP_DigestInit_ex ctx type);
  if decide (1%Z ≠ status) then throw (runtime_error what) else mret tt.

(** [SHAWithOpenSSL(SHASize size)].  The [default:] case of the switch is
    unreachable: [SHASize.t] has no fourth value. *)
Definition SHAWithOpenSSL_ctor (size : SHASize.t) : M St unit :=
  p ← invoke (EVP_MD_CTX_new evp) Call_EVP_MD_CTX_new;
  assign (fun _ => {| m_context := p |});;
  if decide (p = NULL)
  then throw (runtime_error "Crypto error while creating EVP context.")
  else match size with
       | SHASize.SHA256 => init_digest EVP_sha256 "Crypto error while init SHA256."
       | SHASize.SHA384 => init_digest EVP_sha384 "Crypto error while init SHA384."
       | SHASize.SHA512 => init_digest EVP_sha512 "Crypto error while init SHA512."
       end.

(** [~SHAWithOpenSSL() { EVP_MD_CTX_free(m_context); }] *)
Definition SHAWithOpenSSL_dtor : M St unit :=
  ctx ← member m_context;
  invoke (fun w => (tt, EVP_MD_CTX_free evp ctx w)) (fun _ => Call_EVP_MD_CTX_free ctx).

(** The constructors [SHA256::SHA256()], [SHA384::SHA384()] and
    [SHA512::SHA512()]: each makes one [SHAWithOpenSSL]. *)
Definition SHA256 : M St unit := SHAWithOpenSSL_ctor SHASize.SHA256.
Definition SHA384 : M St unit := SHAWithOpenSSL_ctor SHASize.SHA384.
Definition SHA512 : M St unit := SHAWithOpenSSL_ctor SHASize.SHA512.

(** *** How a caller uses an instance *)

Definition construct (c : HashClass) : M St unit :=
  match c with
  | SHA256_class => SHA256
  | SHA384_class => SHA384
  | SHA512_class => SHA512
  end.

(** A run of [append] calls, stopped by the first exception. *)
Fixpoint appends (chunks : list (list byte)) : M St unit :=
  match chunks with
  | [] => mret tt
  | chunk :: rest => OnAppend chunk;; appends rest
  end.

(** One complete use: construct, append each chunk, finalize with a last
    chunk, destroy. *)
Definition compute (c : HashClass) (chunks : list (list byte)) (last : list byte)
  : M St (list byte) :=
  lifetime (construct c) SHAWithOpenSSL_dtor (appends chunks;; OnFinal last).

(** The machine before an instance exists: [m_context] is not yet set. *)
Definition boot (w : W) (log : list EVP_call) : St :=
  Machine {| m_context := NULL |} w log.

(** A state an instance reaches by construction followed by appends. *)
Definition reachable (s : St) : Prop :=
  exists c chunks w log, (construct c;; appends chunks) (boot w log) = (inr tt, s).

End SHAWithOpenSSL.
End Posix.

(** ** The Windows build: [SHAWithBCrypt] over CNG (bcrypt.h) *)

(** Names and types of windows.h and bcrypt.h: wide strings for algorithm and
    property identifiers, [NTSTATUS] as a signed 32-bit value for which
    [BCRYPT_SUCCESS] tests non-negativity, [ULONG] and [DWORD] as unsigned
    32-bit values. *)
Definition LPCWSTR := string.
Definition NTSTATUS := Z.
Definition BCRYPT_ALG_HANDLE := ptr.
Definition BCRYPT_HASH_HANDLE := ptr.

Definition BCRYPT_SHA256_ALGORITHM : LPCWSTR := "SHA256".
Definition BCRYPT_SHA384_ALGORITHM : LPCWSTR := "SHA384".
Definition BCRYPT_SHA512_ALGORITHM : LPCWSTR := "SHA512".
Definition BCRYPT_OBJECT_LENGTH : LPCWSTR := "ObjectLength".
Definition BCRYPT_HASH_LENGTH : LPCWSTR := "HashDigestLength".

Definition BCRYPT_SUCCESS (status : NTSTATUS) : bool := (0 <=? status)%Z.

(** [static_cast<ULONG>(n)] of a [std::size_t]: the low 32 bits. *)
Definition ULONG_cast (n : N) : N := n mod 2 ^ 32.

(** The CNG primitives sha.cpp calls.  [BCryptGetProperty] returns the
    [DWORD] behind [pbOutput] after the call; [BCryptHashData h d cb] is
    given the buffer and [cbInput]; [BCryptFinishHash h cb] is given
    [cbOutput] and returns the bytes it wrote to [pbOutput]. *)
Record BCrypt_API (W : Type) := {
  BCryptOpenAlgorithmProvider : LPCWSTR -> W -> (NTSTATUS * BCRYPT_ALG_HANDLE) * W;
  BCryptGetProperty : BCRYPT_ALG_HANDLE -> LPCWSTR -> W -> (NTSTATUS * N) * W;
  BCryptCreateHash : BCRYPT_ALG_HANDLE -> N -> W -> (NTSTATUS * BCRYPT_HASH_HANDLE) * W;
  BCryptHashData : BCRYPT_HASH_HANDLE -> list byte -> N -> W -> NTSTATUS * W;
  BCryptFinishHash : BCRYPT_HASH_HANDLE -> N -> W -> (NTSTATUS * list byte) * W;
  BCryptDestroyHash : BCRYPT_HASH_HANDLE -> W -> W;
  BCryptCloseAlgorithmProvider : BCRYPT_ALG_HANDLE -> W -> W
}.
Arguments BCryptOpenAlgorithmProvider {W} _ _ _.
Arguments BCryptGetProperty {W} _ _ _ _.
Arguments BCryptCreateHash {W} _ _ _ _.
Arguments BCryptHashData {W} _ _ _ _ _.
Arguments BCryptFinishHash {W} _ _ _ _.
Arguments BCryptDestroyHash {W} _ _ _.
Arguments BCryptCloseAlgorithmProvider {W} _ _ _.

Inductive BCrypt_call :=
| Call_BCryptOpenAlgorithmProvider (pszAlgId : LPCWSTR) (hAlgorithm : BCRYPT_ALG_HANDLE) (ret : NTSTATUS)
| Call_BCryptGetProperty (hObject : BCRYPT_ALG_HANDLE) (pszProperty : LPCWSTR) (value : N) (ret : NTSTATUS)
| Call_BCryptCreateHash (hAlgorithm : BCRYPT_ALG_HANDLE) (cbHashObject : N) (hHash : BCRYPT_HASH_HANDLE) (ret : NTSTATUS)
| Call_BCryptHashData (hHash : BCRYPT_HASH_HANDLE) (pbInput : list byte) (cbInput : N) (ret : NTSTATUS)
| Call_BCryptFinishHash (hHash : BCRYPT_HASH_HANDLE) (cbOutput : N) (ret : NTSTATUS)
| Call_BCryptDestroyHash (hHash : BCRYPT_HASH_HANDLE)
| Call_BCryptCloseAlgorithmProvider (hAlgorithm : BCRYPT_ALG_HANDLE).

Module Windows.
Section SHAWithBCrypt.
Context {W : Type} (bcrypt : BCrypt_API W).

(** [struct AlgorithmProviderInstance] *)
Record AlgorithmProviderInstance := {
  Handle : BCRYPT_ALG_HANDLE;
  ContextSize : N;
  HashLength : N
}.

Definition ProviderSt : Type := machine AlgorithmProviderInstance W BCrypt_call.

(** [AlgorithmProviderInstance(LPCWSTR hashAlgorithm)] *)
Definition AlgorithmProviderInstance_ctor (hashAlgorithm : LPCWSTR) : M ProviderSt unit :=
  '(status, h) ← invoke (BCryptOpenAlgorithmProvider bcrypt hashAlgorithm)
                        (fun r => Call_BCryptOpenAlgorithmProvider hashAlgorithm (snd r) (fst r));
  assign (fun o => {| Handle := h; ContextSize := ContextSize o; HashLength := HashLength o |});;
  if negb (BCRYPT_SUCCESS status)
  then throw (runtime_error "BCryptOpenAlgorithmProvider failed")
  else
    '(status, objectLength) ← invoke (BCryptGetProperty bcrypt h BCRYPT_OBJECT_LENGTH)
                                     (fun r => Call_BCryptGetProperty h BCRYPT_OBJECT_LENGTH (snd r) (fst r));
    if negb (BCRYPT_SUCCESS status)
    then throw (runtime_error "BCryptGetProperty failed")
    else
      assign (fun o => {| Handle := Handle o; ContextSize := objectLength; HashLength := HashLength o |});;
      '(status, hashLength) ← invoke (BCryptGetProperty bcrypt h BCRYPT_HASH_LENGTH)
                                     (fun r => Call_BCryptGetProperty h BCRYPT_HASH_LENGTH (snd r) (fst r));
      if negb (BCRYPT_SUCCESS status)
      then throw (runtime_error "BCryptGetProperty failed")
      else
        assign (fun o => {| Handle := Handle o; ContextSize := ContextSize o; HashLength := hashLength |}).

(** [~AlgorithmProviderInstance() { BCryptCloseAlgorithmProvider(Handle, 0); }] *)
Definition AlgorithmProviderInstance_dtor : M ProviderSt unit :=
  h ← member Handle;
  invoke (fun w => (tt, BCryptCloseAlgorithmProvider bcrypt h w))
         (fun _ => Call_BCryptCloseAlgorithmProvider h).

(** [class SHAWithBCrypt]: its members, and their default initializers. *)
Record SHAWithBCrypt := {
  m_buffer : list byte;
  m_hashHandle : BCRYPT_HASH_HANDLE;
  m_hashLength : N
}.

Definition SHAWithBCrypt_members : SHAWithBCrypt :=
  {| m_buffer := []; m_hashHandle := NULL; m_hashLength := 0 |}.

Definition St : Type := machine SHAWithBCrypt W BCrypt_call.

(** [void OnAppend(const uint8_t* data, std::size_t length)] *)
Definition OnAppend (data : list byte) : M St unit :=
  h ← member m_hashHandle;
  let length := N.of_nat (length data) in
  status ← invoke (BCryptHashData bcrypt h data (ULONG_cast length))
                  (Call_BCryptHashData h data (ULONG_cast length));
  if negb (BCRYPT_SUCCESS status)
  then throw (runtime_error "BCryptHashData failed")
  else mret tt.

(** [std::vector<uint8_t> OnFinal(const uint8_t* data, std::size_t length)] *)
Definition OnFinal (data : list byte) : M St (list byte) :=
  OnAppend data;;
  n ← member m_hashLength;
  h ← member m_hashHandle;
  let hash := repeat x00 (N.to_nat n) in
  let cbOutput := ULONG_cast (N.of_nat (length hash)) in
  '(status, out) ← invoke (BCryptFinishHash bcrypt h cbOutput)
                          (fun r => Call_BCryptFinishHash h cbOutput (fst r));
  let hash := poke out hash in
  if negb (BCRYPT_SUCCESS status)
  then throw (runtime_error "BCryptFinishHash failed")
  else mret hash.

(** [SHAWithBCrypt(LPCWSTR hashAlgorithm)]; [algorithmProvider] is a local
    of the constructor. *)
Definition SHAWithBCrypt_ctor (hashAlgorithm : LPCWSTR) : M St unit :=
  local_object {| Handle := NULL; ContextSize := 0; HashLength := 0 |}
    (AlgorithmProviderInstance_ctor hashAlgorithm) AlgorithmProviderInstance_dtor
    (fun algorithmProvider =>
       assign (fun o => {| m_buffer := repeat x00 (N.to_nat (ContextSize algorithmProvider));
                           m_hashHandle := m_hashHandle o;
                           m_hashLength := m_hashLength o |});;
       assign (fun o => {| m_buffer := m_buffer o;
                           m_hashHandle := m_hashHandle o;
                           m_hashLength := HashLength algorithmProvider |});;
       buffer ← member m_buffer;
       let cbHashObject := ULONG_cast (N.of_nat (length buffer)) in
       '(status, h) ← invoke (BCryptCreateHash bcrypt (Handle algorithmProvider) cbHashObject)
                             (fun r => Call_BCryptCreateHash (Handle algorithmProvider) cbHashObject
                                         (snd r) (fst r));
       assign (fun o => {| m_buffer := m_buffer o;
                           m_hashHandle := h;
                           m_hashLength := m_hashLength o |});;
       if negb (BCRYPT_SUCCESS status)
       then throw (runtime_error "BCryptCreateHash failed")
       else mret tt).

(** [~SHAWithBCrypt() { BCryptDestroyHash(m_hashHandle); }] *)
Definition SHAWithBCrypt_dtor : M St unit :=
  h ← member m_hashHandle;
  invoke (fun w => (tt, BCryptDestroyHash bcrypt h w)) (fun _ => Call_BCryptDestroyHash h).

(** The constructors [SHA256::SHA256()], [SHA384::SHA384()] and
    [SHA512::SHA512()]: each makes one [SHAWithBCrypt]. *)
Definition SHA256 : M St unit := SHAWithBCrypt_ctor BCRYPT_SHA256_ALGORITHM.
Definition SHA384 : M St unit := SHAWithBCrypt_ctor BCRYPT_SHA384_ALGORITHM.
Definition SHA512 : M St unit := SHAWithBCrypt_ctor BCRYPT_SHA512_ALGORITHM.

(** *** How a caller uses an instance *)

Definition algorithm (c : HashClass) : LPCWSTR :=
  match c with
  | SHA256_class => BCRYPT_SHA256_ALGORITHM
  | SHA384_class => BCRYPT_SHA384_ALGORITHM
  | SHA512_class => BCRYPT_SHA512_ALGORITHM
  end.

Definition construct (c : HashClass) : M St unit :=
  match c with
  | SHA256_class => SHA256
  | SHA384_class => SHA384
  | SHA512_class => SHA512
  end.

Fixpoint appends (chunks : list (list byte)) : M St unit :=
  match chunks with
  | [] => mret tt
  | chunk :: rest => OnAppend chunk;; appends rest
  end.

Definition compute (c : HashClass) (chunks : list (list byte)) (last : list byte)
  : M St (list byte) :=
  lifetime (construct c) SHAWithBCrypt_dtor (appends chunks;; OnFinal last).

Definition boot (w : W) (log : list BCrypt_call) : St :=
  Machine SHAWithBCrypt_members w log.

Definition reachable (s : St) : Prop :=
  exists c chunks w log, (construct c;; appends chunks) (boot w log) = (inr tt, s).

End SHAWithBCrypt.
End Windows.

(** ** Resources, read off the record of calls *)

(** What a call does to the resources the library hands out. *)
Inductive effect (R : Type) :=
| Acquire (r : R)
| Release (r : R)
| Neutral.
Arguments Acquire {R} _.
Arguments Release {R} _.
Arguments Neutral {R}.

Definition acquired {R C} (eff : C -> effect R) (log : list C) : list R :=
  omap (fun c => match eff c with Acquire r => Some r | _ => None end) log.

Definition released {R C} (eff : C -> effect R) (log : list C) : list R :=
  omap (fun c => match eff c with Release r => Some r | _ => None end) log.

(** How often [r] was released. *)
Definition times_released {R C} `{EqDecision R} (eff : C -> effect R) (r : R) (log : list C) : nat :=
  length (filter (fun x => x = r) (released eff log)).

(** Every resource that was acquired was released exactly once. *)
Definition released_once {R C} `{EqDecision R} (eff : C -> effect R) (log : list C) : Prop :=
  forall r, r ∈ acquired eff log -> times_released eff r log = 1%nat.

(** The resources that were acquired and never released. *)
Definition leaked {R C} `{EqDecision R} (eff : C -> effect R) (log : list C) : list R :=
  list_difference (acquired eff log) (released eff log).

(** A computation is quiet when it leaves the members of the object alone
    and the calls it adds neither acquire nor release anything. *)
Definition quiet {O W C R A} (eff : C -> effect R) (m : M (machine O W C) A) : Prop :=
  forall s, exists ext,
    calls (snd (m s)) = calls s ++ ext
    /\ acquired eff ext = [] /\ released eff ext = []
    /\ this (snd (m s)) = this s.

(** A digest context is acquired by a call of [EVP_MD_CTX_new] that returns
    a context, and released by [EVP_MD_CTX_free]. *)
Definition EVP_effect (c : EVP_call) : effect ptr :=
  match c with
  | Call_EVP_MD_CTX_new p => if decide (p = NULL) then Neutral else Acquire p
  | Call_EVP_MD_CTX_free p => Release p
  | _ => Neutral
  end.

Inductive BCrypt_resource :=
| Provider (h : BCRYPT_ALG_HANDLE)
| HashObject (h : BCRYPT_HASH_HANDLE).

#[global] Instance BCrypt_resource_eq_dec : EqDecision BCrypt_resource.
Proof. solve_decision. Defined.

(** An algorithm provider or a hash object is acquired by a successful
    open or create call, and released by the matching close or destroy. *)
Definition BCrypt_effect (c : BCrypt_call) : effect BCrypt_resource :=
  match c with
  | Call_BCryptOpenAlgorithmProvider _ h status =>
      if BCRYPT_SUCCESS status then Acquire (Provider h) else Neutral
  | Call_BCryptCreateHash _ _ h status =>
      if BCRYPT_SUCCESS status then Acquire (HashObject h) else Neutral
  | Call_BCryptCloseAlgorithmProvider h => Release (Provider h)
  | Call_BCryptDestroyHash h => Release (HashObject h)
  | _ => Neutral
  end.

(** The value the latest successful query of [BCRYPT_HASH_LENGTH] returned. *)
Definition hash_length_query (log : list BCrypt_call) : option N :=
  last (omap (fun c => match c with
                       | Call_BCryptGetProperty _ prop value status =>
                           if decide (prop = BCRYPT_HASH_LENGTH)
                           then (if BCRYPT_SUCCESS status then Some value else None)
                           else None
                       | _ => None
                       end) log).

(** ** What the libraries are expected to do

    The contracts describe the primitives on the call sequences their
    documentation covers: create, initialise, update any number of times,
    finish.  [holds w p v] reads: in library state [w] the object behind [p]
    is in the abstract state [v].  A context that is digesting has an
    algorithm and the bytes it was fed so far; the digest it will produce is
    [digest] of these.  On such sequences every call succeeds (running out
    of memory is outside the contract).  Nothing is said about a context
    that has produced its digest. *)

Inductive EVP_view :=
| Ctx_new
| Ctx_digesting (md : EVP_MD) (msg : list byte).

Record EVP_contract {W} (evp : EVP_API W)
    (holds : W -> ptr -> EVP_view -> Prop)
    (digest : EVP_MD -> list byte -> list byte) : Prop := {
  evp_new : forall w, exists p w',
      EVP_MD_CTX_new evp w = (p, w') /\ p <> NULL /\ holds w' p Ctx_new;
  evp_init : forall w p md, holds w p Ctx_new -> exists w',
      EVP_DigestInit_ex evp p md w = (1%Z, w') /\ holds w' p (Ctx_digesting md []);
  evp_update : forall w p md msg d, holds w p (Ctx_digesting md msg) -> exists w',
      EVP_DigestUpdate evp p d (N.of_nat (length d)) w = (1%Z, w')
      /\ holds w' p (Ctx_digesting md (msg ++ d));
  evp_final : forall w p md msg, holds w p (Ctx_digesting md msg) -> exists w',
      EVP_DigestFinal evp p w = ((1%Z, digest md msg, N.of_nat (EVP_MD_size md)), w');
  evp_digest_size : forall md msg, length (digest md msg) = EVP_MD_size md
}.

Inductive BCrypt_view :=
| Provider_open (alg : LPCWSTR)
| Hash_hashing (alg : LPCWSTR) (msg : list byte).

(** The three algorithm identifiers sha.cpp opens a provider for. *)
Definition sha2_algorithms : list LPCWSTR :=
  [BCRYPT_SHA256_ALGORITHM; BCRYPT_SHA384_ALGORITHM; BCRYPT_SHA512_ALGORITHM].

Record BCrypt_contract {W} (bcrypt : BCrypt_API W)
    (holds : W -> ptr -> BCrypt_view -> Prop)
    (digest : LPCWSTR -> list byte -> list byte)
    (object_length hash_length : LPCWSTR -> N) : Prop := {
  bcrypt_open : forall w alg, alg ∈ sha2_algorithms -> exists h w',
      BCryptOpenAlgorithmProvider bcrypt alg w = ((0%Z, h), w')
      /\ holds w' h (Provider_open alg);
  bcrypt_object_length : forall w h alg, holds w h (Provider_open alg) ->
      BCryptGetProperty bcrypt h BCRYPT_OBJECT_LENGTH w = ((0%Z, object_length alg), w);
  bcrypt_hash_length : forall w h alg, holds w h (Provider_open alg) ->
      BCryptGetProperty bcrypt h BCRYPT_HASH_LENGTH w = ((0%Z, hash_length alg), w);
  bcrypt_create : forall w h alg cb,
      holds w h (Provider_open alg) -> object_length alg <= cb -> exists hh w',
      BCryptCreateHash bcrypt h cb w = ((0%Z, hh), w')
      /\ holds w' hh (Hash_hashing alg []);
  bcrypt_close : forall w h hh alg msg, holds w hh (Hash_hashing alg msg) ->
      holds (BCryptCloseAlgorithmProvider bcrypt h w) hh (Hash_hashing alg msg);
  bcrypt_hash_data : forall w hh alg msg d cb,
      holds w hh (Hash_hashing alg msg) -> cb <= N.of_nat (length d) -> exists w',
      BCryptHashData bcrypt hh d cb w = (0%Z, w')
      /\ holds w' hh (Hash_hashing alg (msg ++ take (N.to_nat cb) d));
  bcrypt_finish : forall w hh alg msg, holds w hh (Hash_hashing alg msg) -> exists w',
      BCryptFinishHash bcrypt hh (hash_length alg) w = ((0%Z, digest alg msg), w');
  bcrypt_digest_length : forall alg msg,
      length (digest alg msg) = N.to_nat (hash_length alg);
  bcrypt_dword : forall alg, object_length alg < 2 ^ 32 /\ hash_length alg < 2 ^ 32;
  bcrypt_sha2_lengths : forall c,
      hash_length (Windows.algorithm c) = N.of_nat (digest_length c)
}.

(** ** The digests themselves *)

Module SHA2.

(** Modelled from the spec: the hash algorithms SHA-256, SHA-384 and SHA-512,
    which the spec leaves to the linked cryptographic library (it treats the
    compression functions as supplied by that library, and asks for the
    well-known standard digests).  They are written here after FIPS 180-4,
    as a streaming computation: a chaining value, the bytes of the block that
    is not yet full, and the number of bytes taken in. *)
Record family := {
  wbits : N;
  K : list N;
  Sigma0 : N * N * N;
  Sigma1 : N * N * N;
  sigma0 : N * N * N;
  sigma1 : N * N * N
}.

(** The constants, as FIPS 180-4 defines them: the first bits of the
    fractional parts of the square roots and of the cube roots of the first
    prime numbers. *)
Fixpoint primes_from (fuel : nat) (n : N) (found : list N) : list N :=
  match fuel with
  | O => found
  | S fuel' =>
      primes_from fuel' (n + 1)
        (if forallb (fun p => negb (n mod p =? 0)) found then found ++ [n] else found)
  end.

(** The primes up to 409: the first eighty. *)
Definition primes : list N := Eval vm_compute in primes_from 408 2 [].

(** The integer [k]-th root of [n], found bit by bit from bit [bit] down. *)
Fixpoint iroot (k n : N) (bit : nat) (acc : N) : N :=
  let try := acc + 2 ^ N.of_nat bit in
  let acc' := if try ^ k <=? n then try else acc in
  match bit with
  | O => acc'
  | S bit' => iroot k n bit' acc'
  end.

(** The first [w] bits of the fractional part of the [k]-th root of [p]. *)
Definition frac_root (k w : N) (p : N) : N :=
  iroot k (p * 2 ^ (k * w)) (N.to_nat w + 8) 0 mod 2 ^ w.

Definition K256 : list N := Eval vm_compute in map (frac_root 3 32) (firstn 64 primes).
Definition K512 : list N := Eval vm_compute in map (frac_root 3 64) (firstn 80 primes).

(** The 32-bit family (SHA-256) and the 64-bit family (SHA-384, SHA-512):
    round constants, and the rotation and shift amounts of the four sigma
    functions. *)
Definition word32 : family :=
  {| wbits := 32; K := K256;
     Sigma0 := (2, 13, 22); Sigma1 := (6, 11, 25);
     sigma0 := (7, 18, 3); sigma1 := (17, 19, 10) |}.

Definition word64 : family :=
  {| wbits := 64; K := K512;
     Sigma0 := (28, 34, 39); Sigma1 := (14, 18, 41);
     sigma0 := (1, 8, 7); sigma1 := (19, 61, 6) |}.

(** The eight working variables. *)
Inductive regs := Regs (a b c d e f g h : N).

Section Family.
Variable fam : family.

Definition wrap (x : N) : N := x mod 2 ^ wbits fam.
Definition wbytes : nat := N.to_nat (wbits fam / 8).
Definition block_bytes : nat := (16 * wbytes)%nat.

Definition rotr (n x : N) : N :=
  N.lor (N.shiftr x n) (wrap (N.shiftl x (wbits fam - n))).

Definition Ch (x y z : N) : N :=
  N.lxor (N.land x y) (N.land (N.lxor x (N.ones (wbits fam))) z).

Definition Maj (x y z : N) : N :=
  N.lxor (N.lxor (N.land x y) (N.land x z)) (N.land y z).

Definition big_sigma (r : N * N * N) (x : N) : N :=
  let '(r1, r2, r3) := r in N.lxor (N.lxor (rotr r1 x) (rotr r2 x)) (rotr r3 x).

Definition small_sigma (r : N * N * N) (x : N) : N :=
  let '(r1, r2, s) := r in N.lxor (N.lxor (rotr r1 x) (rotr r2 x)) (N.shiftr x s).

Definition round (st : regs) (k wt : N) : regs :=
  let '(Regs a b c d e f g h) := st in
  let T1 := wrap (h + big_sigma (Sigma1 fam) e + Ch e f g + k + wt) in
  let T2 := wrap (big_sigma (Sigma0 fam) a + Maj a b c) in
  Regs (wrap (T1 + T2)) a b c (wrap (d + T1)) e f g.

(** The message schedule, kept as a window of the last sixteen words. *)
Definition schedule (win : list N) : N :=
  wrap (small_sigma (sigma1 fam) (nth 14 win 0) + nth 9 win 0
        + small_sigma (sigma0 fam) (nth 1 win 0) + nth 0 win 0).

Fixpoint rounds (ks : list N) (win : list N) (st : regs) : regs :=
  match ks with
  | [] => st
  | k :: ks' => rounds ks' (tl win ++ [schedule win]) (round st k (nth 0 win 0))
  end.

Definition be_word (bs : list byte) : N :=
  fold_left (fun acc b => acc * 256 + Byte.to_N b) bs 0.

Definition byte_of_N (n : N) : byte :=
  match Byte.of_N n with Some b => b | None => x00 end.

Definition be_bytes (n : nat) (x : N) : list byte :=
  map (fun i => byte_of_N ((x / 2 ^ (8 * N.of_nat (n - 1 - i))) mod 256)) (seq 0 n).

Definition block_words (block : list byte) : list N :=
  map (fun i => be_word (firstn wbytes (skipn (i * wbytes) block))) (seq 0 16).

Definition add_regs (x y : regs) : regs :=
  let '(Regs a b c d e f g h) := x in
  let '(Regs a' b' c' d' e' f' g' h') := y in
  Regs (wrap (a + a')) (wrap (b + b')) (wrap (c + c')) (wrap (d + d'))
       (wrap (e + e')) (wrap (f + f')) (wrap (g + g')) (wrap (h + h')).

Definition compress (H : regs) (block : list byte) : regs :=
  add_regs H (rounds (K fam) (block_words block) H).

Record ctx := { chain : regs; pending : list byte; total : N }.

(** Taking in one byte: a block is compressed as soon as it is full. *)
Definition push (c : ctx) (b : byte) : ctx :=
  let buf := pending c ++ [b] in
  if Nat.eqb (length buf) block_bytes
  then {| chain := compress (chain c) buf; pending := []; total := total c + 1 |}
  else {| chain := chain c; pending := buf; total := total c + 1 |}.

Definition update (c : ctx) (data : list byte) : ctx := fold_left push data c.

(** The padding of a message of [len] bytes: the byte 0x80, zero bytes up
    to the length field, and the length in bits over two words. *)
Definition padding (len : N) : list byte :=
  let bs := N.of_nat block_bytes in
  let lenw := N.of_nat (2 * wbytes) in
  let zeros := (bs - (len + 1 + lenw) mod bs) mod bs in
  x80 :: repeat x00 (N.to_nat zeros) ++ be_bytes (2 * wbytes) (8 * len).

Definition regs_bytes (r : regs) : list byte :=
  let '(Regs a b c d e f g h) := r in
  be_bytes wbytes a ++ be_bytes wbytes b ++ be_bytes wbytes c ++ be_bytes wbytes d
  ++ be_bytes wbytes e ++ be_bytes wbytes f ++ be_bytes wbytes g ++ be_bytes wbytes h.

Definition finish (out : nat) (c : ctx) : list byte :=
  firstn out (regs_bytes (chain (update c (padding (total c))))).

End Family.

Definition regs_of (l : list N) : regs :=
  Regs (nth 0 l 0) (nth 1 l 0) (nth 2 l 0) (nth 3 l 0)
       (nth 4 l 0) (nth 5 l 0) (nth 6 l 0) (nth 7 l 0).

(** The initial chaining values: square roots of the first eight primes
    (SHA-256, SHA-512) and of the ninth to sixteenth (SHA-384). *)
Definition IV256 : regs :=
  Eval vm_compute in regs_of (map (frac_root 2 32) (firstn 8 primes)).

Definition IV384 : regs :=
  Eval vm_compute in regs_of (map (frac_root 2 64) (firstn 8 (skipn 8 primes))).

Definition IV512 : regs :=
  Eval vm_compute in regs_of (map (frac_root 2 64) (firstn 8 primes)).

Definition words (c : HashClass) : family :=
  match c with SHA256_class => word32 | _ => word64 end.

Definition IV (c : HashClass) : regs :=
  match c with SHA256_class => IV256 | SHA384_class => IV384 | SHA512_class => IV512 end.

Definition init (c : HashClass) : ctx :=
  {| chain := IV c; pending := []; total := 0 |}.

Definition absorb (c : HashClass) (x : ctx) (data : list byte) : ctx :=
  update (words c) x data.

Definition output (c : HashClass) (x : ctx) : list byte :=
  finish (words c) (digest_length c) x.

(** The digest of a whole message. *)
Definition hash (c : HashClass) (msg : list byte) : list byte :=
  output c (absorb c (init c) msg).

End SHA2.

(** ** Reference libraries

    Heaps of digest contexts and of CNG objects that run the digests of
    [SHA2].  They meet the contracts above, so the statements made under a
    contract are not empty, and they fix the published digests. *)

Definition class_of_md (md : EVP_MD) : HashClass :=
  match md with
  | EVP_sha256 => SHA256_class
  | EVP_sha384 => SHA384_class
  | EVP_sha512 => SHA512_class
  end.

Inductive md_ctx :=
| md_new
| md_digesting (c : HashClass) (x : SHA2.ctx).

Definition evp_fresh (w : gmap N md_ctx) : ptr := fresh ({[NULL]} ∪ dom w).

(** A context is cleaned up by [EVP_DigestFinal], which leaves it with no
    digest set up.  [EVP_DigestUpdate] of zero bytes returns 1 before it
    looks at the context; a context that has no digest set up refuses every
    other [EVP_DigestUpdate], and [EVP_DigestFinal]. *)
Definition evp_ref : EVP_API (gmap N md_ctx) :=
  {| EVP_MD_CTX_new w := let p := evp_fresh w in (p, <[p := md_new]> w);
     EVP_DigestInit_ex p md w :=
       match w !! p with
       | Some _ => (1%Z, <[p := md_digesting (class_of_md md) (SHA2.init (class_of_md md))]> w)
       | None => (0%Z, w)
       end;
     EVP_DigestUpdate p d cnt w :=
       if decide (cnt = 0) then (1%Z, w)
       else match w !! p with
            | Some (md_digesting c x) =>
                (1%Z, <[p := md_digesting c (SHA2.absorb c x (take (N.to_nat cnt) d))]> w)
            | _ => (0%Z, w)
            end;
     EVP_DigestFinal p w :=
       match w !! p with
       | Some (md_digesting c x) =>
           ((1%Z, SHA2.output c x, N.of_nat (digest_length c)), <[p := md_new]> w)
       | _ => ((0%Z, [], 0), w)
       end;
     EVP_MD_CTX_free p w := delete p w |}.

Definition evp_holds (w : gmap N md_ctx) (p : ptr) (v : EVP_view) : Prop :=
  match v with
  | Ctx_new => w !! p = Some md_new
  | Ctx_digesting md msg =>
      w !! p = Some (md_digesting (class_of_md md)
                       (SHA2.absorb (class_of_md md) (SHA2.init (class_of_md md)) msg))
  end.

Definition evp_digest (md : EVP_MD) (msg : list byte) : list byte :=
  SHA2.hash (class_of_md md) msg.

(** A library in which no digest can be set up: [EVP_DigestInit_ex] reports
    failure, everything else is as in [evp_ref]. *)
Definition evp_no_digest : EVP_API (gmap N md_ctx) :=
  {| EVP_MD_CTX_new := EVP_MD_CTX_new evp_ref;
     EVP_DigestInit_ex p md w := (0%Z, w);
     EVP_DigestUpdate := EVP_DigestUpdate evp_ref;
     EVP_DigestFinal := EVP_DigestFinal evp_ref;
     EVP_MD_CTX_free := EVP_MD_CTX_free evp_ref |}.

(** [NTSTATUS] values from their 32-bit patterns. *)
Definition NTSTATUS_of_bits (x : Z) : NTSTATUS :=
  if (x <? 2 ^ 31)%Z then x else (x - 2 ^ 32)%Z.

Definition STATUS_SUCCESS : NTSTATUS := 0%Z.
Definition STATUS_INVALID_HANDLE : NTSTATUS := NTSTATUS_of_bits 0xC0000008.
Definition STATUS_INVALID_PARAMETER : NTSTATUS := NTSTATUS_of_bits 0xC000000D.
Definition STATUS_BUFFER_TOO_SMALL : NTSTATUS := NTSTATUS_of_bits 0xC0000023.
Definition STATUS_NOT_SUPPORTED : NTSTATUS := NTSTATUS_of_bits 0xC00000BB.
Definition STATUS_NOT_FOUND : NTSTATUS := NTSTATUS_of_bits 0xC0000225.

Definition class_of_alg (alg : LPCWSTR) : option HashClass :=
  if decide (alg = BCRYPT_SHA256_ALGORITHM) then Some SHA256_class
  else if decide (alg = BCRYPT_SHA384_ALGORITHM) then Some SHA384_class
  else if decide (alg = BCRYPT_SHA512_ALGORITHM) then Some SHA512_class
  else None.

Inductive hash_object :=
| hash_hashing (c : HashClass) (x : SHA2.ctx)
| hash_finished.

Record bcrypt_world := {
  providers : gmap N HashClass;
  hash_objects : gmap N hash_object
}.

Definition bcrypt_fresh (w : bcrypt_world) : ptr :=
  fresh ({[NULL]} ∪ dom (providers w) ∪ dom (hash_objects w)).

(** The size of a hash object of the reference library: the chaining value,
    one block and the length counter. *)
Definition ref_object_length (c : HashClass) : N :=
  N.of_nat (10 * SHA2.wbytes (SHA2.words c) + SHA2.block_bytes (SHA2.words c)).

(** A hash object that has produced its digest accepts nothing but
    [BCryptDestroyHash]. *)
Definition bcrypt_ref : BCrypt_API bcrypt_world :=
  {| BCryptOpenAlgorithmProvider alg w :=
       match class_of_alg alg with
       | Some c =>
           let h := bcrypt_fresh w in
           ((STATUS_SUCCESS, h),
            {| providers := <[h := c]> (providers w); hash_objects := hash_objects w |})
       | None => ((STATUS_NOT_FOUND, NULL), w)
       end;
     BCryptGetProperty h prop w :=
       match providers w !! h with
       | Some c =>
           if decide (prop = BCRYPT_OBJECT_LENGTH) then ((STATUS_SUCCESS, ref_object_length c), w)
           else if decide (prop = BCRYPT_HASH_LENGTH)
                then ((STATUS_SUCCESS, N.of_nat (digest_length c)), w)
                else ((STATUS_NOT_SUPPORTED, 0), w)
       | None => ((STATUS_INVALID_HANDLE, 0), w)
       end;
     BCryptCreateHash h cb w :=
       match providers w !! h with
       | Some c =>
           if ref_object_length c <=? cb
           then let hh := bcrypt_fresh w in
                ((STATUS_SUCCESS, hh),
                 {| providers := providers w;
                    hash_objects := <[hh := hash_hashing c (SHA2.init c)]> (hash_objects w) |})
           else ((STATUS_BUFFER_TOO_SMALL, NULL), w)
       | None => ((STATUS_INVALID_HANDLE, NULL), w)
       end;
     BCryptHashData hh d cb w :=
       match hash_objects w !! hh with
       | Some (hash_hashing c x) =>
           (STATUS_SUCCESS,
            {| providers := providers w;
               hash_objects :=
                 <[hh := hash_hashing c (SHA2.absorb c x (take (N.to_nat cb) d))]> (hash_objects w) |})
       | _ => (STATUS_INVALID_HANDLE, w)
       end;
     BCryptFinishHash hh cb w :=
       match hash_objects w !! hh with
       | Some (hash_hashing c x) =>
           if cb =? N.of_nat (digest_length c)
           then ((STATUS_SUCCESS, SHA2.output c x),
                 {| providers := providers w;
                    hash_objects := <[hh := hash_finished]> (hash_objects w) |})
           else ((STATUS_INVALID_PARAMETER, []), w)
       | _ => ((STATUS_INVALID_HANDLE, []), w)
       end;
     BCryptDestroyHash hh w :=
       {| providers := providers w; hash_objects := delete hh (hash_objects w) |};
     BCryptCloseAlgorithmProvider h w :=
       {| providers := delete h (providers w); hash_objects := hash_objects w |} |}.

Definition bcrypt_holds (w : bcrypt_world) (h : ptr) (v : BCrypt_view) : Prop :=
  match v with
  | Provider_open alg =>
      exists c, class_of_alg alg = Some c /\ providers w !! h = Some c
  | Hash_hashing alg msg =>
      exists c, class_of_alg alg = Some c
                /\ hash_objects w !! h = Some (hash_hashing c (SHA2.absorb c (SHA2.init c) msg))
  end.

Definition bcrypt_digest (alg : LPCWSTR) (msg : list byte) : list byte :=
  match class_of_alg alg with Some c => SHA2.hash c msg | None => [] end.

Definition bcrypt_object_length_of (alg : LPCWSTR) : N :=
  match class_of_alg alg with Some c => ref_object_length c | None => 0 end.

Definition bcrypt_hash_length_of (alg : LPCWSTR) : N :=
  match class_of_alg alg with Some c => N.of_nat (digest_length c) | None => 0 end.

(** A library whose providers answer no property query:
    [BCryptGetProperty] reports [STATUS_NOT_SUPPORTED]. *)
Definition bcrypt_no_property : BCrypt_API bcrypt_world :=
  {| BCryptOpenAlgorithmProvider := BCryptOpenAlgorithmProvider bcrypt_ref;
     BCryptGetProperty h prop w := ((STATUS_NOT_SUPPORTED, 0), w);
     BCryptCreateHash := BCryptCreateHash bcrypt_ref;
     BCryptHashData := BCryptHashData bcrypt_ref;
     BCryptFinishHash := BCryptFinishHash bcrypt_ref;
     BCryptDestroyHash := BCryptDestroyHash bcrypt_ref;
     BCryptCloseAlgorithmProvider := BCryptCloseAlgorithmProvider bcrypt_ref |}.

(** A library that cannot make a hash object: [BCryptCreateHash] reports
    failure, everything else is as in [bcrypt_ref]. *)
Definition bcrypt_no_hash_object : BCrypt_API bcrypt_world :=
  {| BCryptOpenAlgorithmProvider := BCryptOpenAlgorithmProvider bcrypt_ref;
     BCryptGetProperty := BCryptGetProperty bcrypt_ref;
     BCryptCreateHash h cb w := ((STATUS_INVALID_PARAMETER, NULL), w);
     BCryptHashData := BCryptHashData bcrypt_ref;
     BCryptFinishHash := BCryptFinishHash bcrypt_ref;
     BCryptDestroyHash := BCryptDestroyHash bcrypt_ref;
     BCryptCloseAlgorithmProvider := BCryptCloseAlgorithmProvider bcrypt_ref |}.

(** The empty heaps, and an uninitialised stack buffer full of 0xAA. *)
Definition evp_empty : gmap N md_ctx := ∅.
Definition bcrypt_empty : bcrypt_world := {| providers := ∅; hash_objects := ∅ |}.
Definition stack_aa : nat -> byte := fun _ => xaa.

(** The digest descriptor each class initialises its context with, and the
    bytes of a chunk that [BCryptHashData] is told to read. *)
Definition md_of (c : HashClass) : EVP_MD :=
  match c with
  | SHA256_class => EVP_sha256
  | SHA384_class => EVP_sha384
  | SHA512_class => EVP_sha512
  end.

Definition ULONG_prefix (d : list byte) : list byte :=
  take (N.to_nat (ULONG_cast (N.of_nat (length d)))) d.

(** Sample inputs: the message "abc", and the state of a SHA-256 instance of
    each reference library after [append("abc")]. *)
Definition abc : list byte := ["a"%byte; "b"%byte; "c"%byte].

Definition posix_after_abc : Posix.St :=
  snd ((Posix.construct evp_ref SHA256_class;; Posix.appends evp_ref [abc])
         (Posix.boot evp_empty [])).

Definition windows_after_abc : Windows.St :=
  snd ((Windows.construct bcrypt_ref SHA256_class;; Windows.appends bcrypt_ref [abc])
         (Windows.boot bcrypt_empty [])).

(** The published test vectors: the digests of the empty input (for SHA-256,
    e3b0c442 98fc1c14 9afbf4c8 996fb924 27ae41e4 649b934c a495991b 7852b855)
    and of "abc". *)
Definition sha256_of_empty : list byte :=
  [ xe3; xb0; xc4; x42; x98; xfc; x1c; x14; x9a; xfb; xf4; xc8; x99; x6f; xb9; x24;
    x27; xae; x41; xe4; x64; x9b; x93; x4c; xa4; x95; x99; x1b; x78; x52; xb8; x55 ].

Definition sha256_of_abc : list byte :=
  [ xba; x78; x16; xbf; x8f; x01; xcf; xea; x41; x41; x40; xde; x5d; xae; x22; x23;
    xb0; x03; x61; xa3; x96; x17; x7a; x9c; xb4; x10; xff; x61; xf2; x00; x15; xad ].

Definition sha384_of_empty : list byte :=
  [ x38; xb0; x60; xa7; x51; xac; x96; x38; x4c; xd9; x32; x7e; xb1; xb1; xe3; x6a;
    x21; xfd; xb7; x11; x14; xbe; x07; x43; x4c; x0c; xc7; xbf; x63; xf6; xe1; xda;
    x27; x4e; xde; xbf; xe7; x6f; x65; xfb; xd5; x1a; xd2; xf1; x48; x98; xb9; x5b ].

Definition sha384_of_abc : list byte :=
  [ xcb; x00; x75; x3f; x45; xa3; x5e; x8b; xb5; xa0; x3d; x69; x9a; xc6; x50; x07;
    x27; x2c; x32; xab; x0e; xde; xd1; x63; x1a; x8b; x60; x5a; x43; xff; x5b; xed;
    x80; x86; x07; x2b; xa1; xe7; xcc; x23; x58; xba; xec; xa1; x34; xc8; x25; xa7 ].

Definition sha512_of_empty : list byte :=
  [ xcf; x83; xe1; x35; x7e; xef; xb8; xbd; xf1; x54; x28; x50; xd6; x6d; x80; x07;
    xd6; x20; xe4; x05; x0b; x57; x15; xdc; x83; xf4; xa9; x21; xd3; x6c; xe9; xce;
    x47; xd0; xd1; x3c; x5d; x85; xf2; xb0; xff; x83; x18; xd2; x87; x7e; xec; x2f;
    x63; xb9; x31; xbd; x47; x41; x7a; x81; xa5; x38; x32; x7a; xf9; x27; xda; x3e ].

Definition sha512_of_abc : list byte :=
  [ xdd; xaf; x35; xa1; x93; x61; x7a; xba; xcc; x41; x73; x49; xae; x20; x41; x31;
    x12; xe6; xfa; x4e; x89; xa9; x7e; xa2; x0a; x9e; xee; xe6; x4b; x55; xd3; x9a;
    x21; x92; x99; x2a; x27; x4f; xc1; xa8; x36; xba; x3c; x23; xa3; xfe; xeb; xbd;
    x45; x4d; x44; x23; x64; x3c; xe8; x0e; x2a; x9a; xc9; x4f; xa5; x4c; xa4; x9f ].

(** The two-block messages of the published examples: 56 bytes for SHA-256,
    112 bytes for SHA-384 and SHA-512, and their digests. *)
Definition message_448 : list byte :=
  list_byte_of_string "abcdbcdecdefdefgefghfghighijhijkijkljklmklmnlmnomnopnopq".

Definition message_896 : list byte :=
  list_byte_of_string
    "abcdefghbcdefghicdefghijdefghijkefghijklfghijklmghijklmnhijklmnoijklmnopjklmnopqklmnopqrlmnopqrsmnopqrstnopqrstu".

Definition sha256_of_message_448 : list byte :=
  [ x24; x8d; x6a; x61; xd2; x06; x38; xb8; xe5; xc0; x26; x93; x0c; x3e; x60; x39;
    xa3; x3c; xe4; x59; x64; xff; x21; x67; xf6; xec; xed; xd4; x19; xdb; x06; xc1 ].

Definition sha384_of_message_896 : list byte :=
  [ x09; x33; x0c; x33; xf7; x11; x47; xe8; x3d; x19; x2f; xc7; x82; xcd; x1b; x47;
    x53; x11; x1b; x17; x3b; x3b; x05; xd2; x2f; xa0; x80; x86; xe3; xb0; xf7; x12;
    xfc; xc7; xc7; x1a; x55; x7e; x2d; xb9; x66; xc3; xe9; xfa; x91; x74; x60; x39 ].

Definition sha512_of_message_896 : list byte :=
  [ x8e; x95; x9b; x75; xda; xe3; x13; xda; x8c; xf4; xf7; x28; x14; xfc; x14; x3f;
    x8f; x77; x79; xc6; xeb; x9f; x7f; xa1; x72; x99; xae; xad; xb6; x88; x90; x18;
    x50; x1d; x28; x9e; x49; x00; xf7; xe4; x33; x1b; x99; xde; xc4; xb5; x43; x3a;
    xc7; xd3; x29; xee; xb6; xdd; x26; x54; x5e; x96; xe5; x5b; x87; x4b; xe9; x09 ].

Definition digest_of_empty (c : HashClass) : list byte :=
  match c with
  | SHA256_class => sha256_of_empty
  | SHA384_class => sha384_of_empty
  | SHA512_class => sha512_of_empty
  end.

Definition digest_of_abc (c : HashClass) : list byte :=
  match c with
  | SHA256_class => sha256_of_abc
  | SHA384_class => sha384_of_abc
  | SHA512_class => sha512_of_abc
  end.

(** A chunk of 2^32 bytes, as one buffer and in two parts. *)
Definition zeros (n : N) : list byte := repeat x00 (N.to_nat n).
Definition four_GiB_head : list byte := zeros (2 ^ 32 - 1).
Definition four_GiB_tail : list byte := [x00].

(** ** Further libraries and notions

    Libraries that fail at the first step of a construction, or at the query
    of the hash length. *)

(** A library out of memory: [EVP_MD_CTX_new] returns [NULL]. *)
Definition evp_no_memory : EVP_API (gmap N md_ctx) :=
  {| EVP_MD_CTX_new w := (NULL, w);
     EVP_DigestInit_ex := EVP_DigestInit_ex evp_ref;
     EVP_DigestUpdate := EVP_DigestUpdate evp_ref;
     EVP_DigestFinal := EVP_DigestFinal evp_ref;
     EVP_MD_CTX_free := EVP_MD_CTX_free evp_ref |}.

(** A library without providers: [BCryptOpenAlgorithmProvider] reports
    [STATUS_NOT_FOUND]. *)
Definition bcrypt_no_provider : BCrypt_API bcrypt_world :=
  {| BCryptOpenAlgorithmProvider alg w := ((STATUS_NOT_FOUND, NULL), w);
     BCryptGetProperty := BCryptGetProperty bcrypt_ref;
     BCryptCreateHash := BCryptCreateHash bcrypt_ref;
     BCryptHashData := BCryptHashData bcrypt_ref;
     BCryptFinishHash := BCryptFinishHash bcrypt_ref;
     BCryptDestroyHash := BCryptDestroyHash bcrypt_ref;
     BCryptCloseAlgorithmProvider := BCryptCloseAlgorithmProvider bcrypt_ref |}.

(** A library whose providers answer the object length but not the hash
    length. *)
Definition bcrypt_no_hash_length : BCrypt_API bcrypt_world :=
  {| BCryptOpenAlgorithmProvider := BCryptOpenAlgorithmProvider bcrypt_ref;
     BCryptGetProperty h prop w :=
       if decide (prop = BCRYPT_HASH_LENGTH) then ((STATUS_NOT_SUPPORTED, 0), w)
       else BCryptGetProperty bcrypt_ref h prop w;
     BCryptCreateHash := BCryptCreateHash bcrypt_ref;
     BCryptHashData := BCryptHashData bcrypt_ref;
     BCryptFinishHash := BCryptFinishHash bcrypt_ref;
     BCryptDestroyHash := BCryptDestroyHash bcrypt_ref;
     BCryptCloseAlgorithmProvider := BCryptCloseAlgorithmProvider bcrypt_ref |}.

(** A library that reports success for [EVP_DigestFinal] without writing a
    digest: it stores 8 in [*s] and leaves [md] untouched. *)
Definition evp_writes_nothing : EVP_API (gmap N md_ctx) :=
  {| EVP_MD_CTX_new := EVP_MD_CTX_new evp_ref;
     EVP_DigestInit_ex := EVP_DigestInit_ex evp_ref;
     EVP_DigestUpdate := EVP_DigestUpdate evp_ref;
     EVP_DigestFinal p w := ((1%Z, [], 8), w);
     EVP_MD_CTX_free := EVP_MD_CTX_free evp_ref |}.

(** The calls [EVP_DigestUpdate(ctx, d, |d|)] and [BCryptHashData(h, d,
    (ULONG)|d|)] as [OnAppend] makes them, with the status they returned. *)
Definition update_call (ctx : ptr) (d : list byte) (status : Z) : EVP_call :=
  Call_EVP_DigestUpdate ctx d (N.of_nat (length d)) status.

Definition hash_data_call (h : BCRYPT_HASH_HANDLE) (d : list byte) (status : NTSTATUS)
  : BCrypt_call :=
  Call_BCryptHashData h d (ULONG_cast (N.of_nat (length d))) status.

(** The text of the exception each class throws when its digest cannot be
    initialised. *)
Definition init_error (c : HashClass) : exception :=
  match c with
  | SHA256_class => runtime_error "Crypto error while init SHA256."
  | SHA384_class => runtime_error "Crypto error while init SHA384."
  | SHA512_class => runtime_error "Crypto error while init SHA512."
  end.

(** What a library owes to the contexts a call is not made on: they stay in
    the state they are in, and [EVP_MD_CTX_new] never hands out a context
    that is in use. *)
Record EVP_frame {W} (evp : EVP_API W) (holds : W -> ptr -> EVP_view -> Prop) : Prop := {
  frame_new : forall w p w' q v,
      EVP_MD_CTX_new evp w = (p, w') -> holds w q v -> q <> p /\ holds w' q v;
  frame_init : forall w p md q v,
      q <> p -> holds w q v -> holds (snd (EVP_DigestInit_ex evp p md w)) q v;
  frame_update : forall w p d cnt q v,
      q <> p -> holds w q v -> holds (snd (EVP_DigestUpdate evp p d cnt w)) q v;
  frame_final : forall w p q v,
      q <> p -> holds w q v -> holds (snd (EVP_DigestFinal evp p w)) q v;
  frame_free : forall w p q v,
      q <> p -> holds w q v -> holds (EVP_MD_CTX_free evp p w) q v
}.

(** A [BCryptHashData] call on [h] for the chunk [d] that the library
    accepted. *)
Definition accepted (h : BCRYPT_HASH_HANDLE) (d : list byte) (call : BCrypt_call) : Prop :=
  exists st, (0 <= st)%Z /\ call = hash_data_call h d st.

(** The buffer sizes announced to [BCryptCreateHash], in the order of the
    calls. *)
Definition hash_object_sizes (log : list BCrypt_call) : list N :=
  omap (fun call => match call with
                    | Call_BCryptCreateHash _ cbHashObject _ _ => Some cbHashObject
                    | _ => None
                    end) log.

(** What a CNG library owes to the hash objects a call is not made on: they
    stay in the state they are in, and [BCryptCreateHash] never hands out a
    hash object that is in use. *)
Record BCrypt_frame {W} (bcrypt : BCrypt_API W)
    (holds : W -> ptr -> BCrypt_view -> Prop) : Prop := {
  frame_open : forall w alg' q alg msg,
      holds w q (Hash_hashing alg msg) ->
      holds (snd (BCryptOpenAlgorithmProvider bcrypt alg' w)) q (Hash_hashing alg msg);
  frame_property : forall w h prop q alg msg,
      holds w q (Hash_hashing alg msg) ->
      holds (snd (BCryptGetProperty bcrypt h prop w)) q (Hash_hashing alg msg);
  frame_create : forall w h cb st hh w' q alg msg,
      BCryptCreateHash bcrypt h cb w = ((st, hh), w') ->
      holds w q (Hash_hashing alg msg) ->
      holds w' q (Hash_hashing alg msg) /\ ((0 <= st)%Z -> q <> hh);
  frame_hash_data : forall w hh d cb q alg msg,
      q <> hh -> holds w q (Hash_hashing alg msg) ->
      holds (snd (BCryptHashData bcrypt hh d cb w)) q (Hash_hashing alg msg);
  frame_finish : forall w hh cb q alg msg,
      q <> hh -> holds w q (Hash_hashing alg msg) ->
      holds (snd (BCryptFinishHash bcrypt hh cb w)) q (Hash_hashing alg msg);
  frame_destroy : forall w hh q alg msg,
      q <> hh -> holds w q (Hash_hashing alg msg) ->
      holds (BCryptDestroyHash bcrypt hh w) q (Hash_hashing alg msg);
  frame_close : forall w h q alg msg,
      holds w q (Hash_hashing alg msg) ->
      holds (BCryptCloseAlgorithmProvider bcrypt h w) q (Hash_hashing alg msg)
}.

(** ** After finalize

    What the libraries say about a context that has produced its digest.
    OpenSSL's [EVP_DigestFinal] cleans the context up: no digest is set up in
    it any more, a further [EVP_DigestFinal] on it fails, and an update,
    accepted or not, leaves it so.  With CNG, a hash object on which
    [BCryptFinishHash] has succeeded cannot be used again except to destroy
    it.  [spent w p] reads: in library state [w] the object behind [p] has
    produced its digest. *)
Record EVP_spent {W} (evp : EVP_API W)
    (holds : W -> ptr -> EVP_view -> Prop) (spent : W -> ptr -> Prop) : Prop := {
  spent_by_final : forall w p md msg,
      holds w p (Ctx_digesting md msg) -> spent (snd (EVP_DigestFinal evp p w)) p;
  spent_update : forall w p d cnt,
      spent w p -> spent (snd (EVP_DigestUpdate evp p d cnt w)) p;
  spent_final : forall w p,
      spent w p ->
      fst (fst (fst (EVP_DigestFinal evp p w))) <> 1%Z
      /\ spent (snd (EVP_DigestFinal evp p w)) p
}.

Record BCrypt_spent {W} (bcrypt : BCrypt_API W)
    (holds : W -> ptr -> BCrypt_view -> Prop) (spent : W -> ptr -> Prop) : Prop := {
  spent_by_finish : forall w hh cb alg msg,
      holds w hh (Hash_hashing alg msg) ->
      (0 <= fst (fst (BCryptFinishHash bcrypt hh cb w)))%Z ->
      spent (snd (BCryptFinishHash bcrypt hh cb w)) hh;
  spent_hash_data : forall w hh d cb,
      spent w hh -> spent (snd (BCryptHashData bcrypt hh d cb w)) hh;
  spent_finish : forall w hh cb,
      spent w hh ->
      (fst (fst (BCryptFinishHash bcrypt hh cb w)) < 0)%Z
      /\ spent (snd (BCryptFinishHash bcrypt hh cb w)) hh
}.

Definition evp_spent (w : gmap N md_ctx) (p : ptr) : Prop := w !! p = Some md_new.

Definition bcrypt_spent (w : bcrypt_world) (hh : ptr) : Prop :=
  hash_objects w !! hh = Some hash_finished.

(** The calls a caller may go on to make on an instance, and the state they
    leave: the caller may catch what a call throws and call again. *)
Inductive method :=
| append (data : list byte)
| finalize (data : list byte).

Definition Posix_later {W} (evp : EVP_API W) (indet : nat -> byte)
    (ms : list method) (s : Posix.St) : Posix.St :=
  foldl (fun s m => match m with
                    | append d => snd (Posix.OnAppend evp d s)
                    | finalize d => snd (Posix.OnFinal evp indet d s)
                    end) s ms.

Definition Windows_later {W} (bcrypt : BCrypt_API W)
    (ms : list method) (s : Windows.St) : Windows.St :=
  foldl (fun s m => match m with
                    | append d => snd (Windows.OnAppend bcrypt d s)
                    | finalize d => snd (Windows.OnFinal bcrypt d s)
                    end) s ms.

(** A library whose [BCryptFinishHash] reports success after it wrote only
    the first four bytes of the digest. *)
Definition bcrypt_short_write : BCrypt_API bcrypt_world :=
  {| BCryptOpenAlgorithmProvider := BCryptOpenAlgorithmProvider bcrypt_ref;
     BCryptGetProperty := BCryptGetProperty bcrypt_ref;
     BCryptCreateHash := BCryptCreateHash bcrypt_ref;
     BCryptHashData := BCryptHashData bcrypt_ref;
     BCryptFinishHash hh cb w :=
       let '((status, out), w') := BCryptFinishHash bcrypt_ref hh cb w in
       ((status, take 4 out), w');
     BCryptDestroyHash := BCryptDestroyHash bcrypt_ref;
     BCryptCloseAlgorithmProvider := BCryptCloseAlgorithmProvider bcrypt_ref |}.

(** * Proofs *)

(** ** Sequencing *)

Lemma bind_inr {S A B} (m : M S A) (k : A -> M S B) s a s' :
  m s = (inr a, s') -> (m ≫= k) s = k a s'.
Proof. intros H. unfold mbind, M_bind, bind. now rewrite H. Qed.

Lemma bind_inl {S A B} (m : M S A) (k : A -> M S B) s e s' :
  m s = (inl e, s') -> (m ≫= k) s = (inl e, s').
Proof. intros H. unfold mbind, M_bind, bind. now rewrite H. Qed.

Lemma bind_assoc {S A B C} (m : M S A) (k : A -> M S B) (k' : B -> M S C) s :
  ((m ≫= k) ≫= k') s = (m ≫= (fun a => k a ≫= k')) s.
Proof.
  unfold mbind, M_bind, bind. destruct (m s) as [[e|a] s1]; reflexivity.
Qed.

Lemma length_poke written buf : length (poke written buf) = length buf.
Proof.
  unfold poke. rewrite length_app, length_take, length_drop. lia.
Qed.

Lemma poke_fits written buf :
  (length written <= length buf)%nat ->
  take (length written) (poke written buf) = written.
Proof.
  intros H. unfold poke.
  rewrite (take_ge written (length buf)) by lia.
  now rewrite take_app_length.
Qed.

Lemma poke_exact written buf :
  length written = length buf -> poke written buf = written.
Proof.
  intros H. unfold poke.
  rewrite take_ge by lia. rewrite drop_ge by lia. apply app_nil_r.
Qed.

(** ** The wrappers over an arbitrary library *)

Section PosixAnyLibrary.
Context {W : Type} (evp : EVP_API W) (indet : nat -> byte).

Local Abbreviation update_of s data :=
  (EVP_DigestUpdate evp (Posix.m_context (this s)) data (N.of_nat (length data)) (world s)).

(** [OnAppend] is one call of [EVP_DigestUpdate] and a test of its status. *)
Lemma Posix_OnAppend_unfold (s : Posix.St) data :
  Posix.OnAppend evp data s =
  (if decide (1%Z ≠ fst (update_of s data))
   then inl (runtime_error "Crypto error while updating SHA256.")
   else inr tt,
   Machine (this s) (snd (update_of s data))
     (calls s ++ [Call_EVP_DigestUpdate (Posix.m_context (this s)) data
                    (N.of_nat (length data)) (fst (update_of s data))])).
Proof.
  unfold Posix.OnAppend, mbind, M_bind, bind, member, invoke, throw, mret, M_ret, ret.
  cbn. destruct (update_of s data) as [st w]. cbn.
  destruct (decide (1%Z ≠ st)); reflexivity.
Qed.

Lemma Posix_OnAppend_this (s : Posix.St) data :
  this (snd (Posix.OnAppend evp data s)) = this s.
Proof. now rewrite Posix_OnAppend_unfold. Qed.

(** [OnFinal] when its [OnAppend] went through. *)
Lemma Posix_OnFinal_unfold (s s1 : Posix.St) data :
  Posix.OnAppend evp data s = (inr tt, s1) ->
  Posix.OnFinal evp indet data s =
  let f := EVP_DigestFinal evp (Posix.m_context (this s1)) (world s1) in
  (if decide (1%Z ≠ fst (fst (fst f)))
   then inl (runtime_error "Crypto error while computing SHA256.")
   else inr (take (N.to_nat (snd (fst f)))
               (poke (snd (fst (fst f))) (map indet (seq 0 EVP_MAX_MD_SIZE)))),
   Machine (this s1) (snd f)
     (calls s1 ++ [Call_EVP_DigestFinal (Posix.m_context (this s1)) (fst (fst (fst f)))])).
Proof.
  intros H. unfold Posix.OnFinal. rewrite (bind_inr _ _ _ _ _ H).
  unfold mbind, M_bind, bind, member, invoke, throw, mret, M_ret, ret. cbn.
  destruct (EVP_DigestFinal evp (Posix.m_context (this s1)) (world s1)) as [[[st md] size] w].
  cbn. destruct (decide (1%Z ≠ st)); reflexivity.
Qed.

Lemma Posix_OnFinal_inl (s s1 : Posix.St) data e :
  Posix.OnAppend evp data s = (inl e, s1) ->
  Posix.OnFinal evp indet data s = (inl e, s1).
Proof. intros H. unfold Posix.OnFinal. now rewrite (bind_inl _ _ _ _ _ H). Qed.

End PosixAnyLibrary.

Section WindowsAnyLibrary.
Context {W : Type} (bcrypt : BCrypt_API W).

Local Abbreviation hash_data_of s data :=
  (BCryptHashData bcrypt (Windows.m_hashHandle (this s)) data
     (ULONG_cast (N.of_nat (length data))) (world s)).

Local Abbreviation finish_of s :=
  (BCryptFinishHash bcrypt (Windows.m_hashHandle (this s))
     (ULONG_cast (N.of_nat (length (repeat x00 (N.to_nat (Windows.m_hashLength (this s)))))))
     (world s)).

(** [OnAppend] is one call of [BCryptHashData] and a test of its status. *)
Lemma Windows_OnAppend_unfold (s : Windows.St) data :
  Windows.OnAppend bcrypt data s =
  (if negb (BCRYPT_SUCCESS (fst (hash_data_of s data)))
   then inl (runtime_error "BCryptHashData failed")
   else inr tt,
   Machine (this s) (snd (hash_data_of s data))
     (calls s ++ [Call_BCryptHashData (Windows.m_hashHandle (this s)) data
                    (ULONG_cast (N.of_nat (length data))) (fst (hash_data_of s data))])).
Proof.
  unfold Windows.OnAppend, mbind, M_bind, bind, member, invoke, throw, mret, M_ret, ret.
  cbn. destruct (hash_data_of s data) as [st w]. cbn.
  destruct (BCRYPT_SUCCESS st); reflexivity.
Qed.

Lemma Windows_OnAppend_this (s : Windows.St) data :
  this (snd (Windows.OnAppend bcrypt data s)) = this s.
Proof. now rewrite Windows_OnAppend_unfold. Qed.

(** [OnFinal] when its [OnAppend] went through. *)
Lemma Windows_OnFinal_unfold (s s1 : Windows.St) data :
  Windows.OnAppend bcrypt data s = (inr tt, s1) ->
  Windows.OnFinal bcrypt data s =
  (if negb (BCRYPT_SUCCESS (fst (fst (finish_of s1))))
   then inl (runtime_error "BCryptFinishHash failed")
   else inr (poke (snd (fst (finish_of s1)))
               (repeat x00 (N.to_nat (Windows.m_hashLength (this s1))))),
   Machine (this s1) (snd (finish_of s1))
     (calls s1 ++ [Call_BCryptFinishHash (Windows.m_hashHandle (this s1))
                     (ULONG_cast (N.of_nat (length (repeat x00
                        (N.to_nat (Windows.m_hashLength (this s1)))))))
                     (fst (fst (finish_of s1)))])).
Proof.
  intros H. unfold Windows.OnFinal. rewrite (bind_inr _ _ _ _ _ H).
  unfold mbind, M_bind, bind, member, invoke, throw, mret, M_ret, ret. cbn.
  destruct (finish_of s1) as [[st out] w].
  cbn. destruct (BCRYPT_SUCCESS st); reflexivity.
Qed.

Lemma Windows_OnFinal_inl (s s1 : Windows.St) data e :
  Windows.OnAppend bcrypt data s = (inl e, s1) ->
  Windows.OnFinal bcrypt data s = (inl e, s1).
Proof. intros H. unfold Windows.OnFinal. now rewrite (bind_inl _ _ _ _ _ H). Qed.

End WindowsAnyLibrary.

Lemma BCRYPT_SUCCESS_false status :
  negb (BCRYPT_SUCCESS status) = true <-> (status < 0)%Z.
Proof. unfold BCRYPT_SUCCESS. rewrite negb_true_iff, Z.leb_gt. reflexivity. Qed.

(** [OnFinal], case by case on the status of the update. *)
Lemma Posix_OnFinal_cases {W} (evp : EVP_API W) indet (s : Posix.St) data :
  let ctx := Posix.m_context (this s) in
  let u := EVP_DigestUpdate evp ctx data (N.of_nat (length data)) (world s) in
  let f := EVP_DigestFinal evp ctx (snd u) in
  let update := Call_EVP_DigestUpdate ctx data (N.of_nat (length data)) (fst u) in
  (fst u <> 1%Z ->
   Posix.OnFinal evp indet data s =
   (inl (runtime_error "Crypto error while updating SHA256."),
    Machine (this s) (snd u) (calls s ++ [update])))
  /\ (fst u = 1%Z ->
      Posix.OnFinal evp indet data s =
      (if decide (1%Z ≠ fst (fst (fst f)))
       then inl (runtime_error "Crypto error while computing SHA256.")
       else inr (take (N.to_nat (snd (fst f)))
                   (poke (snd (fst (fst f))) (map indet (seq 0 EVP_MAX_MD_SIZE)))),
       Machine (this s) (snd f)
         (calls s ++ [update; Call_EVP_DigestFinal ctx (fst (fst (fst f)))]))).
Proof.
  intros ctx u f update. pose proof (Posix_OnAppend_unfold evp s data) as HA.
  fold ctx in HA. fold u in HA. fold update in HA. split; intros Hu.
  - revert HA. destruct (decide (1%Z ≠ fst u)) as [n|n]; intros HA;
      [|exfalso; apply n; congruence].
    now rewrite (Posix_OnFinal_inl _ _ _ _ _ _ HA).
  - revert HA. destruct (decide (1%Z ≠ fst u)) as [n|n]; intros HA; [congruence|].
    rewrite (Posix_OnFinal_unfold _ _ _ _ _ HA). cbn.
    fold ctx. fold f. now rewrite <- app_assoc.
Qed.

Lemma Windows_OnFinal_cases {W} (bcrypt : BCrypt_API W) (s : Windows.St) data :
  let h := Windows.m_hashHandle (this s) in
  let cb := ULONG_cast (N.of_nat (length data)) in
  let u := BCryptHashData bcrypt h data cb (world s) in
  let hash := repeat x00 (N.to_nat (Windows.m_hashLength (this s))) in
  let cbOutput := ULONG_cast (N.of_nat (length hash)) in
  let f := BCryptFinishHash bcrypt h cbOutput (snd u) in
  let update := Call_BCryptHashData h data cb (fst u) in
  ((fst u < 0)%Z ->
   Windows.OnFinal bcrypt data s =
   (inl (runtime_error "BCryptHashData failed"),
    Machine (this s) (snd u) (calls s ++ [update])))
  /\ ((0 <= fst u)%Z ->
      Windows.OnFinal bcrypt data s =
      (if negb (BCRYPT_SUCCESS (fst (fst f)))
       then inl (runtime_error "BCryptFinishHash failed")
       else inr (poke (snd (fst f)) hash),
       Machine (this s) (snd f)
         (calls s ++ [update; Call_BCryptFinishHash h cbOutput (fst (fst f))]))).
Proof.
  intros h cb u hash cbOutput f update.
  pose proof (Windows_OnAppend_unfold bcrypt s data) as HA.
  fold h in HA. fold cb in HA. fold u in HA. fold update in HA. split; intros Hu.
  - apply BCRYPT_SUCCESS_false in Hu. rewrite Hu in HA.
    now rewrite (Windows_OnFinal_inl _ _ _ _ _ HA).
  - assert (negb (BCRYPT_SUCCESS (fst u)) = false) as E.
    { unfold BCRYPT_SUCCESS. apply negb_false_iff, Z.leb_le, Hu. }
    rewrite E in HA. rewrite (Windows_OnFinal_unfold _ _ _ _ HA). cbn.
    fold h. fold hash. fold cbOutput. fold f. now rewrite <- app_assoc.
Qed.

(** ** C5: errors *)

(** C5.  An [OnAppend] or [OnFinal] call raises its error (a
    [std::runtime_error]) exactly when a primitive it calls reports failure:
    [OnAppend] when [EVP_DigestUpdate] does not return 1 (when
    [BCryptHashData] returns a negative status); [OnFinal] when that happens
    for its own append, or when then [EVP_DigestFinal] does not return 1
    ([BCryptFinishHash] returns a negative status).  Nothing is
    retried and a failure ends the call at once: the record of calls grows by
    the one failing call, or by one update and one final.  A call that raises
    returns no digest (its result is the exception alone). *)
Theorem C5_errors_follow_primitive_status {W1 W2} (evp : EVP_API W1) (bcrypt : BCrypt_API W2) :
  (forall (s : Posix.St) data,
     let r := Posix.OnAppend evp data s in
     let u := EVP_DigestUpdate evp (Posix.m_context (this s)) data (N.of_nat (length data)) (world s) in
     (raised (fst r) <-> fst u <> 1%Z)
     /\ world (snd r) = snd u
     /\ calls (snd r) = calls s ++ [Call_EVP_DigestUpdate (Posix.m_context (this s)) data
                                      (N.of_nat (length data)) (fst u)])
  /\ (forall indet (s : Posix.St) data,
     let r := Posix.OnFinal evp indet data s in
     let ctx := Posix.m_context (this s) in
     let u := EVP_DigestUpdate evp ctx data (N.of_nat (length data)) (world s) in
     let f := EVP_DigestFinal evp ctx (snd u) in
     let update := Call_EVP_DigestUpdate ctx data (N.of_nat (length data)) (fst u) in
     (raised (fst r) <-> fst u <> 1%Z \/ fst (fst (fst f)) <> 1%Z)
     /\ (fst u <> 1%Z -> world (snd r) = snd u /\ calls (snd r) = calls s ++ [update])
     /\ (fst u = 1%Z -> world (snd r) = snd f
                       /\ calls (snd r) = calls s ++ [update; Call_EVP_DigestFinal ctx (fst (fst (fst f)))]))
  /\ (forall (s : Windows.St) data,
     let r := Windows.OnAppend bcrypt data s in
     let cb := ULONG_cast (N.of_nat (length data)) in
     let u := BCryptHashData bcrypt (Windows.m_hashHandle (this s)) data cb (world s) in
     (raised (fst r) <-> (fst u < 0)%Z)
     /\ world (snd r) = snd u
     /\ calls (snd r) = calls s ++ [Call_BCryptHashData (Windows.m_hashHandle (this s)) data cb (fst u)])
  /\ (forall (s : Windows.St) data,
     let r := Windows.OnFinal bcrypt data s in
     let h := Windows.m_hashHandle (this s) in
     let cb := ULONG_cast (N.of_nat (length data)) in
     let u := BCryptHashData bcrypt h data cb (world s) in
     let cbOutput := ULONG_cast (N.of_nat (length (repeat x00 (N.to_nat (Windows.m_hashLength (this s)))))) in
     let f := BCryptFinishHash bcrypt h cbOutput (snd u) in
     let update := Call_BCryptHashData h data cb (fst u) in
     (raised (fst r) <-> (fst u < 0)%Z \/ (fst (fst f) < 0)%Z)
     /\ ((fst u < 0)%Z -> world (snd r) = snd u /\ calls (snd r) = calls s ++ [update])
     /\ ((0 <= fst u)%Z -> world (snd r) = snd f
                          /\ calls (snd r) = calls s ++ [update; Call_BCryptFinishHash h cbOutput (fst (fst f))])).
Proof.
  split; [|split; [|split]].
  - intros s data r u. subst r u. rewrite Posix_OnAppend_unfold. cbn.
    destruct (decide (1%Z ≠ _)) as [n|n]; cbn; [|apply dec_stable in n]; intuition congruence.
  - intros indet s data r ctx u f update.
    destruct (Posix_OnFinal_cases evp indet s data) as [Hbad Hgood].
    fold ctx in Hbad, Hgood. fold u in Hbad, Hgood. fold f in Hgood.
    fold update in Hbad, Hgood.
    destruct (decide (fst u = 1%Z)) as [Hu|Hu].
    + specialize (Hgood Hu). subst r. rewrite Hgood.
      destruct (decide (1%Z ≠ fst (fst (fst f)))) as [n|n]; cbn;
        [|apply dec_stable in n]; intuition congruence.
    + specialize (Hbad Hu). subst r. rewrite Hbad. cbn. intuition congruence.
  - intros s data r cb u. subst r. rewrite Windows_OnAppend_unfold. cbn.
    fold cb. fold u. destruct (negb (BCRYPT_SUCCESS (fst u))) eqn:E; cbn.
    + apply BCRYPT_SUCCESS_false in E. intuition.
    + apply negb_false_iff, Z.leb_le in E. intuition lia.
  - intros s data r h cb u cbOutput f update.
    destruct (Windows_OnFinal_cases bcrypt s data) as [Hbad Hgood].
    fold h in Hbad, Hgood. fold cb in Hbad, Hgood. fold u in Hbad, Hgood.
    fold cbOutput in Hgood. fold f in Hgood. fold update in Hbad, Hgood.
    destruct (Z.lt_ge_cases (fst u) 0) as [Hu|Hu].
    + specialize (Hbad Hu). subst r. rewrite Hbad. cbn. intuition lia.
    + specialize (Hgood Hu). subst r. rewrite Hgood.
      destruct (negb (BCRYPT_SUCCESS (fst (fst f)))) eqn:E; cbn.
      * apply BCRYPT_SUCCESS_false in E. intuition lia.
      * apply negb_false_iff, Z.leb_le in E. intuition lia.
Qed.

(** ** Construction on Windows, step by step *)

(** What a successful construction of [SHAWithBCrypt] consists of. *)
Lemma Windows_ctor_inr {W} (bcrypt : BCrypt_API W) alg (s s' : Windows.St) :
  Windows.SHAWithBCrypt_ctor bcrypt alg s = (inr tt, s') ->
  exists st1 h w1 st2 ol w2 st3 hl w3 st4 hh w4,
    BCryptOpenAlgorithmProvider bcrypt alg (world s) = ((st1, h), w1)
    /\ BCryptGetProperty bcrypt h BCRYPT_OBJECT_LENGTH w1 = ((st2, ol), w2)
    /\ BCryptGetProperty bcrypt h BCRYPT_HASH_LENGTH w2 = ((st3, hl), w3)
    /\ BCryptCreateHash bcrypt h (ULONG_cast (N.of_nat (length (repeat x00 (N.to_nat ol))))) w3
       = ((st4, hh), w4)
    /\ BCRYPT_SUCCESS st1 = true /\ BCRYPT_SUCCESS st2 = true
    /\ BCRYPT_SUCCESS st3 = true /\ BCRYPT_SUCCESS st4 = true
    /\ s' = Machine {| Windows.m_buffer := repeat x00 (N.to_nat ol);
                       Windows.m_hashHandle := hh;
                       Windows.m_hashLength := hl |}
              (BCryptCloseAlgorithmProvider bcrypt h w4)
              (calls s ++ [Call_BCryptOpenAlgorithmProvider alg h st1;
                           Call_BCryptGetProperty h BCRYPT_OBJECT_LENGTH ol st2;
                           Call_BCryptGetProperty h BCRYPT_HASH_LENGTH hl st3;
                           Call_BCryptCreateHash h
                             (ULONG_cast (N.of_nat (length (repeat x00 (N.to_nat ol))))) hh st4;
                           Call_BCryptCloseAlgorithmProvider h]).
Proof.
  unfold Windows.SHAWithBCrypt_ctor, local_object, Windows.AlgorithmProviderInstance_ctor,
    Windows.AlgorithmProviderInstance_dtor.
  unfold mbind, M_bind, bind, member, invoke, assign, throw, mret, M_ret, ret. cbn.
  destruct (BCryptOpenAlgorithmProvider bcrypt alg (world s)) as [[st1 h] w1] eqn:G1. cbn.
  destruct (BCRYPT_SUCCESS st1) eqn:E1; cbn; [|discriminate].
  destruct (BCryptGetProperty bcrypt h BCRYPT_OBJECT_LENGTH w1) as [[st2 ol] w2] eqn:G2. cbn.
  destruct (BCRYPT_SUCCESS st2) eqn:E2; cbn; [|discriminate].
  destruct (BCryptGetProperty bcrypt h BCRYPT_HASH_LENGTH w2) as [[st3 hl] w3] eqn:G3. cbn.
  destruct (BCRYPT_SUCCESS st3) eqn:E3; cbn; [|discriminate].
  destruct (BCryptCreateHash bcrypt h _ w3) as [[st4 hh] w4] eqn:E. cbn.
  destruct (BCRYPT_SUCCESS st4) eqn:E4; cbn; [|discriminate].
  intros H. injection H as <-.
  exists st1, h, w1, st2, ol, w2, st3, hl, w3, st4, hh, w4.
  rewrite <- !app_assoc. cbn. repeat split; auto.
Qed.

Lemma Windows_appends_this {W} (bcrypt : BCrypt_API W) chunks (s : Windows.St) :
  this (snd (Windows.appends bcrypt chunks s)) = this s.
Proof.
  revert s. induction chunks as [|d chunks IH]; intros s; [reflexivity|].
  cbn [Windows.appends]. unfold mbind, M_bind, bind.
  pose proof (Windows_OnAppend_this bcrypt s d) as Hd.
  destruct (Windows.OnAppend bcrypt d s) as [[e|[]] s1]; cbn in *; [assumption|].
  now rewrite IH.
Qed.

(** ** C10: the stored digest length *)

(** C10.  In the Windows implementation, a successful construction leaves in
    [m_hashLength] the value its query of the provider's hash-length property
    returned; no [OnAppend] call, and no run of them, changes a member of the
    object, whether it succeeds or throws; and an [OnFinal] call that returns
    a digest returns exactly [m_hashLength] bytes and leaves the members as
    they were. *)
Theorem C10_hash_length_fixed_at_construction {W} (bcrypt : BCrypt_API W) :
  (forall alg (s s' : Windows.St),
     Windows.SHAWithBCrypt_ctor bcrypt alg s = (inr tt, s') ->
     hash_length_query (drop (length (calls s)) (calls s'))
     = Some (Windows.m_hashLength (this s')))
  /\ (forall data (s : Windows.St),
        Windows.m_hashLength (this (snd (Windows.OnAppend bcrypt data s)))
        = Windows.m_hashLength (this s))
  /\ (forall chunks (s : Windows.St),
        Windows.m_hashLength (this (snd (Windows.appends bcrypt chunks s)))
        = Windows.m_hashLength (this s))
  /\ (forall data (s s' : Windows.St) d,
        Windows.OnFinal bcrypt data s = (inr d, s') ->
        length d = N.to_nat (Windows.m_hashLength (this s))
        /\ Windows.m_hashLength (this s') = Windows.m_hashLength (this s)).
Proof.
  split; [|split; [|split]].
  - intros alg s s' H.
    destruct (Windows_ctor_inr _ _ _ _ H)
      as (st1 & h & w1 & st2 & ol & w2 & st3 & hl & w3 & st4 & hh & w4
          & _ & _ & _ & _ & _ & _ & E3 & _ & ->).
    cbn [calls this Windows.m_hashLength]. rewrite drop_app_length.
    unfold hash_length_query. cbn [omap list_omap].
    destruct (decide (BCRYPT_OBJECT_LENGTH = BCRYPT_HASH_LENGTH)) as [D|_]; [discriminate D|].
    destruct (decide (BCRYPT_HASH_LENGTH = BCRYPT_HASH_LENGTH)) as [_|D]; [|contradiction].
    rewrite E3. reflexivity.
  - intros data s. now rewrite Windows_OnAppend_this.
  - intros chunks s. now rewrite Windows_appends_this.
  - intros data s s' d H.
    destruct (Windows_OnFinal_cases bcrypt s data) as [Hbad Hgood].
    destruct (Z.lt_ge_cases
                (fst (BCryptHashData bcrypt (Windows.m_hashHandle (this s)) data
                        (ULONG_cast (N.of_nat (length data))) (world s))) 0) as [Hu|Hu].
    + rewrite (Hbad Hu) in H. discriminate H.
    + rewrite (Hgood Hu) in H. clear Hbad Hgood.
      destruct (negb (BCRYPT_SUCCESS _)); [discriminate H|].
      injection H as <- <-. cbn [this]. split; [|reflexivity].
      now rewrite length_poke, repeat_length.
Qed.

(** ** The POSIX wrapper over a library that meets its contract *)

Section PosixContract.
Context {W : Type} (evp : EVP_API W).
Context (holds : W -> ptr -> EVP_view -> Prop) (digest : EVP_MD -> list byte -> list byte).
Context (indet : nat -> byte).
Hypothesis contract : EVP_contract evp holds digest.

Local Abbreviation digesting s md msg :=
  (holds (world s) (Posix.m_context (this s)) (Ctx_digesting md msg)).

Lemma Posix_construct_holds c (s : Posix.St) :
  exists s', Posix.construct evp c s = (inr tt, s') /\ digesting s' (md_of c) [].
Proof.
  destruct (evp_new _ _ _ contract (world s)) as (p & w1 & E1 & Hp & H1).
  destruct (evp_init _ _ _ contract w1 p (md_of c) H1) as (w2 & E2 & H2).
  destruct c;
    (eexists; split;
     [ unfold Posix.construct, Posix.SHA256, Posix.SHA384, Posix.SHA512,
         Posix.SHAWithOpenSSL_ctor, Posix.init_digest;
       unfold mbind, M_bind, bind, member, invoke, assign, throw, mret, M_ret, ret;
       rewrite E1; cbn; (destruct (decide (p = NULL)) as [D|_]; [contradiction|]);
       cbn in E2 |- *; rewrite E2; cbn; reflexivity
     | exact H2 ]).
Qed.

Lemma Posix_OnAppend_holds (s : Posix.St) md msg d :
  digesting s md msg ->
  exists s', Posix.OnAppend evp d s = (inr tt, s')
             /\ this s' = this s /\ digesting s' md (msg ++ d).
Proof.
  intros H. destruct (evp_update _ _ _ contract _ _ _ _ d H) as (w1 & E1 & H1).
  rewrite Posix_OnAppend_unfold, E1. cbn. eexists. split; [reflexivity|].
  split; [reflexivity|exact H1].
Qed.

Lemma Posix_appends_holds chunks (s : Posix.St) md msg :
  digesting s md msg ->
  exists s', Posix.appends evp chunks s = (inr tt, s')
             /\ this s' = this s /\ digesting s' md (msg ++ concat chunks).
Proof.
  revert s msg. induction chunks as [|d chunks IH]; intros s msg H.
  - exists s. cbn. rewrite app_nil_r. auto.
  - destruct (Posix_OnAppend_holds s md msg d H) as (s1 & E1 & T1 & H1).
    destruct (IH s1 (msg ++ d) H1) as (s2 & E2 & T2 & H2).
    exists s2. cbn [Posix.appends concat]. rewrite (bind_inr _ _ _ _ _ E1).
    rewrite app_assoc. split; [exact E2|]. split; [congruence|exact H2].
Qed.

Lemma Posix_OnFinal_digest (s : Posix.St) md msg d :
  digesting s md msg ->
  exists s', Posix.OnFinal evp indet d s = (inr (digest md (msg ++ d)), s')
             /\ this s' = this s.
Proof.
  intros H. destruct (Posix_OnAppend_holds s md msg d H) as (s1 & E1 & T1 & H1).
  destruct (evp_final _ _ _ contract _ _ _ _ H1) as (w2 & E2).
  rewrite (Posix_OnFinal_unfold _ _ _ _ _ E1), E2. cbn [fst snd].
  destruct (decide (1%Z ≠ 1%Z)) as [D|_]; [congruence|].
  rewrite Nat2N.id, <- (evp_digest_size _ _ _ contract md (msg ++ d)).
  rewrite poke_fits.
  - eexists. split; [reflexivity|exact T1].
  - rewrite length_map, length_seq, (evp_digest_size _ _ _ contract).
    unfold EVP_MAX_MD_SIZE. destruct md; cbn; lia.
Qed.

(** A complete use returns the digest of the chunks, one after the other. *)
Lemma Posix_compute_digest c chunks last (s : Posix.St) :
  fst (Posix.compute evp indet c chunks last s)
  = inr (digest (md_of c) (concat chunks ++ last)).
Proof.
  destruct (Posix_construct_holds c s) as (s1 & E1 & H1).
  destruct (Posix_appends_holds chunks s1 _ _ H1) as (s2 & E2 & T2 & H2).
  destruct (Posix_OnFinal_digest s2 _ _ last H2) as (s3 & E3 & T3).
  unfold Posix.compute, lifetime. rewrite E1.
  rewrite (bind_inr _ _ _ _ _ E2), E3. reflexivity.
Qed.

Lemma Posix_reachable_holds (s : Posix.St) :
  Posix.reachable evp s -> exists md msg, digesting s md msg.
Proof.
  intros (c & chunks & w & log & H).
  destruct (Posix_construct_holds c (Posix.boot w log)) as (s1 & E1 & H1).
  destruct (Posix_appends_holds chunks s1 _ _ H1) as (s2 & E2 & T2 & H2).
  rewrite (bind_inr _ _ _ _ _ E1), E2 in H. injection H as <-.
  eauto.
Qed.

End PosixContract.

(** ** The Windows wrapper over a library that meets its contract *)

Lemma ULONG_cast_small n : n < 2 ^ 32 -> ULONG_cast n = n.
Proof. intros H. unfold ULONG_cast. now apply N.mod_small. Qed.

Lemma ULONG_cast_le n : ULONG_cast n <= n.
Proof. unfold ULONG_cast. apply N.Div0.mod_le. Qed.

Lemma ULONG_cast_buffer n :
  n < 2 ^ 32 -> ULONG_cast (N.of_nat (length (repeat x00 (N.to_nat n)))) = n.
Proof. intros H. rewrite repeat_length, N2Nat.id. now apply ULONG_cast_small. Qed.

Lemma algorithm_sha2 c : Windows.algorithm c ∈ sha2_algorithms.
Proof. destruct c; unfold sha2_algorithms; cbn; set_solver. Qed.

Section WindowsContract.
Context {W : Type} (bcrypt : BCrypt_API W).
Context (holds : W -> ptr -> BCrypt_view -> Prop) (digest : LPCWSTR -> list byte -> list byte).
Context (object_length hash_length : LPCWSTR -> N).
Hypothesis contract : BCrypt_contract bcrypt holds digest object_length hash_length.

Local Abbreviation hashing s alg msg :=
  (holds (world s) (Windows.m_hashHandle (this s)) (Hash_hashing alg msg)
   /\ Windows.m_hashLength (this s) = hash_length alg).

Lemma Windows_ctor_holds alg (s : Windows.St) :
  alg ∈ sha2_algorithms ->
  exists s', Windows.SHAWithBCrypt_ctor bcrypt alg s = (inr tt, s') /\ hashing s' alg [].
Proof.
  intros Halg.
  destruct (bcrypt_open _ _ _ _ _ contract (world s) alg Halg) as (h & w1 & E1 & H1).
  pose proof (bcrypt_object_length _ _ _ _ _ contract w1 h alg H1) as E2.
  pose proof (bcrypt_hash_length _ _ _ _ _ contract w1 h alg H1) as E3.
  destruct (bcrypt_dword _ _ _ _ _ contract alg) as [Hol Hhl].
  destruct (bcrypt_create _ _ _ _ _ contract w1 h alg
              (ULONG_cast (N.of_nat (length (repeat x00 (N.to_nat (object_length alg))))))
              H1) as (hh & w4 & E4 & H4).
  { rewrite ULONG_cast_buffer by assumption. reflexivity. }
  pose proof (bcrypt_close _ _ _ _ _ contract w4 h hh alg [] H4) as H5.
  eexists. split.
  - unfold Windows.SHAWithBCrypt_ctor, local_object, Windows.AlgorithmProviderInstance_ctor,
      Windows.AlgorithmProviderInstance_dtor.
    unfold mbind, M_bind, bind, member, invoke, assign, throw, mret, M_ret, ret.
    cbn [this world calls]. rewrite E1. cbn [fst snd this world calls BCRYPT_SUCCESS Z.leb Z.compare negb].
    rewrite E2. cbn [fst snd this world calls BCRYPT_SUCCESS Z.leb Z.compare negb].
    rewrite E3. cbn [fst snd this world calls BCRYPT_SUCCESS Z.leb Z.compare negb
                     Windows.ContextSize Windows.HashLength Windows.Handle Windows.m_buffer].
    rewrite E4. cbn [fst snd this world calls BCRYPT_SUCCESS Z.leb Z.compare negb
                     Windows.ContextSize Windows.HashLength Windows.Handle].
    reflexivity.
  - cbn [this world Windows.m_hashHandle Windows.m_hashLength]. split; [exact H5|reflexivity].
Qed.

Lemma Windows_OnAppend_holds (s : Windows.St) alg msg d :
  hashing s alg msg ->
  exists s', Windows.OnAppend bcrypt d s = (inr tt, s')
             /\ this s' = this s /\ hashing s' alg (msg ++ ULONG_prefix d).
Proof.
  intros [H L].
  destruct (bcrypt_hash_data _ _ _ _ _ contract _ _ _ _ d
              (ULONG_cast (N.of_nat (length d))) H (ULONG_cast_le _)) as (w1 & E1 & H1).
  rewrite Windows_OnAppend_unfold, E1. cbn. eexists. split; [reflexivity|].
  split; [reflexivity|]. split; [exact H1|exact L].
Qed.

Lemma Windows_appends_holds chunks (s : Windows.St) alg msg :
  hashing s alg msg ->
  exists s', Windows.appends bcrypt chunks s = (inr tt, s')
             /\ this s' = this s
             /\ hashing s' alg (msg ++ concat (map ULONG_prefix chunks)).
Proof.
  revert s msg. induction chunks as [|d chunks IH]; intros s msg H.
  - exists s. cbn. rewrite app_nil_r. auto.
  - destruct (Windows_OnAppend_holds s alg msg d H) as (s1 & E1 & T1 & H1).
    destruct (IH s1 (msg ++ ULONG_prefix d) H1) as (s2 & E2 & T2 & H2).
    exists s2. cbn [Windows.appends concat map]. rewrite (bind_inr _ _ _ _ _ E1).
    rewrite app_assoc. split; [exact E2|]. split; [congruence|exact H2].
Qed.

Lemma Windows_OnFinal_digest (s : Windows.St) alg msg d :
  hashing s alg msg ->
  exists s', Windows.OnFinal bcrypt d s = (inr (digest alg (msg ++ ULONG_prefix d)), s')
             /\ this s' = this s.
Proof.
  intros H. destruct (Windows_OnAppend_holds s alg msg d H) as (s1 & E1 & T1 & H1 & L1).
  destruct (bcrypt_finish _ _ _ _ _ contract _ _ _ _ H1) as (w2 & E2).
  destruct (bcrypt_dword _ _ _ _ _ contract alg) as [_ Hhl].
  rewrite (Windows_OnFinal_unfold _ _ _ _ E1), L1.
  rewrite ULONG_cast_buffer by assumption. rewrite E2. cbn [fst snd BCRYPT_SUCCESS Z.leb Z.compare negb].
  rewrite poke_exact.
  - eexists. split; [reflexivity|exact T1].
  - now rewrite repeat_length, (bcrypt_digest_length _ _ _ _ _ contract).
Qed.

Lemma Windows_construct_holds c (s : Windows.St) :
  exists s', Windows.construct bcrypt c s = (inr tt, s')
             /\ hashing s' (Windows.algorithm c) [].
Proof.
  destruct (Windows_ctor_holds (Windows.algorithm c) s (algorithm_sha2 c)) as (s' & E & H).
  exists s'. split; [|exact H]. destruct c; exact E.
Qed.

(** A complete use returns the digest of what [BCryptHashData] was told to
    read of each chunk, one chunk after the other. *)
Lemma Windows_compute_digest c chunks last (s : Windows.St) :
  fst (Windows.compute bcrypt c chunks last s)
  = inr (digest (Windows.algorithm c) (concat (map ULONG_prefix chunks) ++ ULONG_prefix last)).
Proof.
  destruct (Windows_construct_holds c s) as (s1 & E1 & H1).
  destruct (Windows_appends_holds chunks s1 _ _ H1) as (s2 & E2 & T2 & H2).
  destruct (Windows_OnFinal_digest s2 _ _ last H2) as (s3 & E3 & T3).
  unfold Windows.compute, lifetime. rewrite E1.
  rewrite (bind_inr _ _ _ _ _ E2), E3. reflexivity.
Qed.

Lemma Windows_reachable_holds (s : Windows.St) :
  Windows.reachable bcrypt s -> exists alg msg, hashing s alg msg.
Proof.
  intros (c & chunks & w & log & H).
  destruct (Windows_construct_holds c (Windows.boot w log)) as (s1 & E1 & H1).
  destruct (Windows_appends_holds chunks s1 _ _ H1) as (s2 & E2 & T2 & H2).
  rewrite (bind_inr _ _ _ _ _ E1), E2 in H. injection H as <-.
  eauto.
Qed.

End WindowsContract.

Lemma ULONG_prefix_small d : N.of_nat (length d) < 2 ^ 32 -> ULONG_prefix d = d.
Proof.
  intros H. unfold ULONG_prefix. rewrite ULONG_cast_small by assumption.
  rewrite Nat2N.id. apply firstn_all.
Qed.

Lemma ULONG_prefix_nil : ULONG_prefix [] = [].
Proof. reflexivity. Qed.

(** ** The reference libraries meet the contracts *)

Lemma SHA2_absorb_app c x a b :
  SHA2.absorb c (SHA2.absorb c x a) b = SHA2.absorb c x (a ++ b).
Proof. unfold SHA2.absorb, SHA2.update. now rewrite fold_left_app. Qed.

Lemma SHA2_absorb_nil c x : SHA2.absorb c x [] = x.
Proof. reflexivity. Qed.

Lemma SHA2_be_bytes_length n x : length (SHA2.be_bytes n x) = n.
Proof. unfold SHA2.be_bytes. now rewrite length_map, length_seq. Qed.

Lemma SHA2_regs_bytes_length fam r :
  length (SHA2.regs_bytes fam r) = (8 * SHA2.wbytes fam)%nat.
Proof.
  destruct r. unfold SHA2.regs_bytes.
  rewrite !length_app, !SHA2_be_bytes_length. lia.
Qed.

(** Every digest has the length of its class. *)
Lemma SHA2_hash_length c msg : length (SHA2.hash c msg) = digest_length c.
Proof.
  unfold SHA2.hash, SHA2.output, SHA2.finish.
  rewrite length_take, SHA2_regs_bytes_length.
  destruct c; reflexivity.
Qed.

Lemma evp_fresh_spec (w : gmap N md_ctx) : evp_fresh w <> NULL /\ w !! evp_fresh w = None.
Proof.
  unfold evp_fresh.
  pose proof (is_fresh ({[NULL]} ∪ dom w)) as F.
  split.
  - intros E. apply F, elem_of_union_l, elem_of_singleton. exact E.
  - apply not_elem_of_dom. intros D. apply F, elem_of_union_r. exact D.
Qed.

Lemma evp_ref_contract : EVP_contract evp_ref evp_holds evp_digest.
Proof.
  split.
  - intros w. destruct (evp_fresh_spec w) as [Hp _].
    exists (evp_fresh w), (<[evp_fresh w := md_new]> w). cbn.
    split; [reflexivity|]. split; [exact Hp|]. apply lookup_insert_eq.
  - intros w p md H. cbn in H. cbn. rewrite H.
    eexists. split; [reflexivity|]. apply lookup_insert_eq.
  - intros w p md msg d H. cbn in H. cbn.
    destruct (decide (N.of_nat (length d) = 0)) as [Z|_].
    + destruct d; [|discriminate Z]. exists w. split; [reflexivity|].
      cbn. now rewrite app_nil_r.
    + rewrite H. eexists. split; [reflexivity|]. rewrite lookup_insert_eq.
      rewrite Nat2N.id, firstn_all, SHA2_absorb_app. reflexivity.
  - intros w p md msg H. cbn in H. cbn. rewrite H.
    eexists. unfold evp_digest, SHA2.hash. destruct md; reflexivity.
  - intros md msg. unfold evp_digest. rewrite SHA2_hash_length. now destruct md.
Qed.

Lemma class_of_algorithm c : class_of_alg (Windows.algorithm c) = Some c.
Proof. destruct c; reflexivity. Qed.

Lemma sha2_algorithms_class alg :
  alg ∈ sha2_algorithms -> exists c, alg = Windows.algorithm c.
Proof.
  unfold sha2_algorithms. rewrite !elem_of_cons, elem_of_nil.
  intros [->|[->|[->|[]]]];
    [exists SHA256_class|exists SHA384_class|exists SHA512_class]; reflexivity.
Qed.

Lemma bcrypt_fresh_spec w :
  bcrypt_fresh w <> NULL
  /\ providers w !! bcrypt_fresh w = None
  /\ hash_objects w !! bcrypt_fresh w = None.
Proof.
  unfold bcrypt_fresh.
  pose proof (is_fresh ({[NULL]} ∪ dom (providers w) ∪ dom (hash_objects w))) as F.
  split; [|split].
  - intros E. apply F, elem_of_union_l, elem_of_union_l, elem_of_singleton. exact E.
  - apply not_elem_of_dom. intros D. apply F, elem_of_union_l, elem_of_union_r. exact D.
  - apply not_elem_of_dom. intros D. apply F, elem_of_union_r. exact D.
Qed.

Lemma ref_object_length_dword c : ref_object_length c < 2 ^ 32.
Proof. destruct c; reflexivity. Qed.

Lemma bcrypt_ref_contract :
  BCrypt_contract bcrypt_ref bcrypt_holds bcrypt_digest
    bcrypt_object_length_of bcrypt_hash_length_of.
Proof.
  split.
  - intros w alg Halg. destruct (sha2_algorithms_class alg Halg) as [c ->].
    cbn. rewrite class_of_algorithm.
    eexists _, _. split; [reflexivity|]. cbn. exists c.
    split; [first [apply class_of_algorithm|reflexivity]|apply lookup_insert_eq].
  - intros w h alg (c & Hc & Hp). cbn.
    unfold BCRYPT_ALG_HANDLE, BCRYPT_HASH_HANDLE, ptr in *. rewrite Hp.
    destruct (decide (BCRYPT_OBJECT_LENGTH = BCRYPT_OBJECT_LENGTH)) as [_|D]; [|contradiction].
    unfold bcrypt_object_length_of. now rewrite Hc.
  - intros w h alg (c & Hc & Hp). cbn.
    unfold BCRYPT_ALG_HANDLE, BCRYPT_HASH_HANDLE, ptr in *. rewrite Hp.
    destruct (decide (BCRYPT_HASH_LENGTH = BCRYPT_OBJECT_LENGTH)) as [D|_]; [discriminate D|].
    destruct (decide (BCRYPT_HASH_LENGTH = BCRYPT_HASH_LENGTH)) as [_|D]; [|contradiction].
    unfold bcrypt_hash_length_of. now rewrite Hc.
  - intros w h alg cb (c & Hc & Hp) Hcb. cbn.
    unfold BCRYPT_ALG_HANDLE, BCRYPT_HASH_HANDLE, ptr in *. rewrite Hp.
    unfold bcrypt_object_length_of in Hcb. rewrite Hc in Hcb.
    apply N.leb_le in Hcb. rewrite Hcb.
    eexists _, _. split; [reflexivity|]. cbn. exists c.
    split; [exact Hc|apply lookup_insert_eq].
  - intros w h hh alg msg H. exact H.
  - intros w hh alg msg d cb (c & Hc & Hh) Hcb. cbn.
    unfold BCRYPT_ALG_HANDLE, BCRYPT_HASH_HANDLE, ptr in *. rewrite Hh.
    eexists. split; [reflexivity|]. cbn. exists c. split; [exact Hc|].
    rewrite lookup_insert_eq, SHA2_absorb_app. reflexivity.
  - intros w hh alg msg (c & Hc & Hh). cbn.
    unfold BCRYPT_ALG_HANDLE, BCRYPT_HASH_HANDLE, ptr in *. rewrite Hh.
    unfold bcrypt_hash_length_of, bcrypt_digest. rewrite Hc, N.eqb_refl.
    eexists. reflexivity.
  - intros alg msg. unfold bcrypt_digest, bcrypt_hash_length_of.
    destruct (class_of_alg alg) as [c|]; [|reflexivity].
    now rewrite SHA2_hash_length, Nat2N.id.
  - intros alg. unfold bcrypt_object_length_of, bcrypt_hash_length_of.
    destruct (class_of_alg alg) as [c|]; [|split; reflexivity].
    split; [apply ref_object_length_dword|destruct c; reflexivity].
  - intros c. unfold bcrypt_hash_length_of. now rewrite class_of_algorithm.
Qed.

Lemma posix_after_abc_reachable : Posix.reachable evp_ref posix_after_abc.
Proof.
  exists SHA256_class, [abc], evp_empty, []. vm_compute. reflexivity.
Qed.

Lemma windows_after_abc_reachable : Windows.reachable bcrypt_ref windows_after_abc.
Proof.
  exists SHA256_class, [abc], bcrypt_empty, []. vm_compute. reflexivity.
Qed.

(** ** C2: the final chunk *)

(** C2.  On every state an instance reaches by construction and appends, and
    for every chunk [D], [finalize(D)] returns a digest, and it is the digest
    that [append(D)] followed by [finalize()] with an empty chunk returns:
    the chunk given to finalize is taken in as one more append before the
    digest is completed.  Both implementations, over any library that meets
    its contract. *)
Theorem C2_final_chunk_is_one_more_append {W1 W2}
    (evp : EVP_API W1) (bcrypt : BCrypt_API W2)
    holds1 digest1 holds2 digest2 object_length hash_length :
  EVP_contract evp holds1 digest1 ->
  BCrypt_contract bcrypt holds2 digest2 object_length hash_length ->
  (forall indet (s : Posix.St) D, Posix.reachable evp s ->
     exists digest,
       fst (Posix.OnFinal evp indet D s) = inr digest
       /\ fst ((Posix.OnAppend evp D;; Posix.OnFinal evp indet []) s) = inr digest)
  /\ (forall (s : Windows.St) D, Windows.reachable bcrypt s ->
     exists digest,
       fst (Windows.OnFinal bcrypt D s) = inr digest
       /\ fst ((Windows.OnAppend bcrypt D;; Windows.OnFinal bcrypt []) s) = inr digest).
Proof.
  intros C1 C2. split.
  - intros indet s D R.
    destruct (Posix_reachable_holds _ _ _ C1 s R) as (md & msg & H).
    destruct (Posix_OnFinal_digest _ _ _ indet C1 s md msg D H) as (s1 & E1 & _).
    destruct (Posix_OnAppend_holds _ _ _ C1 s md msg D H) as (s2 & E2 & _ & H2).
    destruct (Posix_OnFinal_digest _ _ _ indet C1 s2 md _ [] H2) as (s3 & E3 & _).
    exists (digest1 md (msg ++ D)). rewrite E1, (bind_inr _ _ _ _ _ E2), E3.
    now rewrite app_nil_r.
  - intros s D R.
    destruct (Windows_reachable_holds _ _ _ _ _ C2 s R) as (alg & msg & H).
    destruct (Windows_OnFinal_digest _ _ _ _ _ C2 s alg msg D H) as (s1 & E1 & _).
    destruct (Windows_OnAppend_holds _ _ _ _ _ C2 s alg msg D H) as (s2 & E2 & _ & H2).
    destruct (Windows_OnFinal_digest _ _ _ _ _ C2 s2 alg _ [] H2) as (s3 & E3 & _).
    exists (digest2 alg (msg ++ ULONG_prefix D)). rewrite E1, (bind_inr _ _ _ _ _ E2), E3.
    now rewrite ULONG_prefix_nil, app_nil_r.
Qed.

Lemma C2_final_chunk_witness :
  (exists digest,
     fst (Posix.OnFinal evp_ref stack_aa abc posix_after_abc) = inr digest
     /\ fst ((Posix.OnAppend evp_ref abc;; Posix.OnFinal evp_ref stack_aa []) posix_after_abc)
        = inr digest)
  /\ (exists digest,
     fst (Windows.OnFinal bcrypt_ref abc windows_after_abc) = inr digest
     /\ fst ((Windows.OnAppend bcrypt_ref abc;; Windows.OnFinal bcrypt_ref []) windows_after_abc)
        = inr digest).
Proof.
  split.
  - apply (proj1 (C2_final_chunk_is_one_more_append evp_ref bcrypt_ref _ _ _ _ _ _
                    evp_ref_contract bcrypt_ref_contract)).
    exact posix_after_abc_reachable.
  - apply (proj2 (C2_final_chunk_is_one_more_append evp_ref bcrypt_ref _ _ _ _ _ _
                    evp_ref_contract bcrypt_ref_contract)).
    exact windows_after_abc_reachable.
Defined.

(** ** C3: the length of a digest *)

(** C3.  Whatever is appended (no chunk at all, empty chunks, chunks of any
    length) and whatever the last chunk is, a complete use returns a digest,
    and its length is the digest length of the class: 32 bytes for SHA-256,
    48 for SHA-384, 64 for SHA-512, so never 0.  On POSIX the result is the
    part of the 64-byte scratch buffer that [EVP_DigestFinal] reported, not
    the buffer; for SHA-512 the two lengths are the same number. *)
Theorem C3_digest_has_the_length_of_its_class {W1 W2}
    (evp : EVP_API W1) (bcrypt : BCrypt_API W2)
    holds1 digest1 holds2 digest2 object_length hash_length :
  EVP_contract evp holds1 digest1 ->
  BCrypt_contract bcrypt holds2 digest2 object_length hash_length ->
  (forall indet c chunks last (s : Posix.St),
     exists digest,
       fst (Posix.compute evp indet c chunks last s) = inr digest
       /\ length digest = digest_length c /\ length digest <> 0%nat
       /\ (c <> SHA512_class -> (length digest < EVP_MAX_MD_SIZE)%nat))
  /\ (forall c chunks last (s : Windows.St),
     exists digest,
       fst (Windows.compute bcrypt c chunks last s) = inr digest
       /\ length digest = digest_length c /\ length digest <> 0%nat)
  /\ digest_length SHA256_class = 32%nat
  /\ digest_length SHA384_class = 48%nat
  /\ digest_length SHA512_class = 64%nat.
Proof.
  intros C1 C2. split; [|split; [|repeat split]].
  - intros indet c chunks last s. eexists. split.
    + apply (Posix_compute_digest _ _ _ indet C1).
    + rewrite (evp_digest_size _ _ _ C1). unfold EVP_MAX_MD_SIZE.
      destruct c; cbn; repeat split; try lia; congruence.
  - intros c chunks last s. eexists. split.
    + apply (Windows_compute_digest _ _ _ _ _ C2).
    + rewrite (bcrypt_digest_length _ _ _ _ _ C2), (bcrypt_sha2_lengths _ _ _ _ _ C2), Nat2N.id.
      destruct c; cbn; lia.
Qed.

Lemma C3_digest_length_witness :
  (exists digest,
     fst (Posix.compute evp_ref stack_aa SHA384_class [abc; []; abc] abc (Posix.boot evp_empty []))
     = inr digest /\ length digest = 48%nat /\ length digest <> 0%nat
     /\ (SHA384_class <> SHA512_class -> (length digest < EVP_MAX_MD_SIZE)%nat))
  /\ (exists digest,
     fst (Windows.compute bcrypt_ref SHA256_class [] [] (Windows.boot bcrypt_empty []))
     = inr digest /\ length digest = 32%nat /\ length digest <> 0%nat).
Proof.
  split.
  - apply (proj1 (C3_digest_has_the_length_of_its_class evp_ref bcrypt_ref _ _ _ _ _ _
                    evp_ref_contract bcrypt_ref_contract)).
  - apply (proj1 (proj2 (C3_digest_has_the_length_of_its_class evp_ref bcrypt_ref _ _ _ _ _ _
                           evp_ref_contract bcrypt_ref_contract))).
Defined.

(** ** C8: determinism *)

(** C8.  Two computations over the same class, the same chunks and the same
    last chunk return the same digest, byte for byte, whatever the state of
    the library each instance is created in (so also when the second
    instance is created after the first was used) and whatever the stack
    held before: the digest depends on the input alone. *)
Theorem C8_same_input_same_digest {W1 W2}
    (evp : EVP_API W1) (bcrypt : BCrypt_API W2)
    holds1 digest1 holds2 digest2 object_length hash_length :
  EVP_contract evp holds1 digest1 ->
  BCrypt_contract bcrypt holds2 digest2 object_length hash_length ->
  (forall indet indet' c chunks last (s s' : Posix.St),
     exists digest,
       fst (Posix.compute evp indet c chunks last s) = inr digest
       /\ fst (Posix.compute evp indet' c chunks last s') = inr digest)
  /\ (forall c chunks last (s s' : Windows.St),
     exists digest,
       fst (Windows.compute bcrypt c chunks last s) = inr digest
       /\ fst (Windows.compute bcrypt c chunks last s') = inr digest).
Proof.
  intros C1 C2. split.
  - intros indet indet' c chunks last s s'. eexists. split.
    + apply (Posix_compute_digest _ _ _ indet C1).
    + apply (Posix_compute_digest _ _ _ indet' C1).
  - intros c chunks last s s'. eexists. split.
    + apply (Windows_compute_digest _ _ _ _ _ C2).
    + apply (Windows_compute_digest _ _ _ _ _ C2).
Qed.

Lemma C8_same_input_witness :
  (exists digest,
     fst (Posix.compute evp_ref stack_aa SHA512_class [abc] [] (Posix.boot evp_empty []))
     = inr digest
     /\ fst (Posix.compute evp_ref (fun _ => x00) SHA512_class [abc] [] posix_after_abc)
        = inr digest)
  /\ (exists digest,
     fst (Windows.compute bcrypt_ref SHA512_class [abc] [] (Windows.boot bcrypt_empty []))
     = inr digest
     /\ fst (Windows.compute bcrypt_ref SHA512_class [abc] [] windows_after_abc) = inr digest).
Proof.
  split.
  - apply (proj1 (C8_same_input_same_digest evp_ref bcrypt_ref _ _ _ _ _ _
                    evp_ref_contract bcrypt_ref_contract)).
  - apply (proj2 (C8_same_input_same_digest evp_ref bcrypt_ref _ _ _ _ _ _
                    evp_ref_contract bcrypt_ref_contract)).
Defined.

(** ** C9: empty chunks *)

(** C9.  An append of the empty chunk, put anywhere into the run of appends,
    leaves the digest as it is; and [finalize] with an empty last chunk,
    which appends that empty chunk before it completes the digest, returns
    the digest of exactly what was appended before. *)
Theorem C9_empty_append_changes_nothing {W1 W2}
    (evp : EVP_API W1) (bcrypt : BCrypt_API W2)
    holds1 digest1 holds2 digest2 object_length hash_length :
  EVP_contract evp holds1 digest1 ->
  BCrypt_contract bcrypt holds2 digest2 object_length hash_length ->
  (forall indet c before after last (s : Posix.St),
     exists digest,
       fst (Posix.compute evp indet c (before ++ [] :: after) last s) = inr digest
       /\ fst (Posix.compute evp indet c (before ++ after) last s) = inr digest)
  /\ (forall indet (s : Posix.St) md msg,
        holds1 (world s) (Posix.m_context (this s)) (Ctx_digesting md msg) ->
        fst (Posix.OnFinal evp indet [] s) = inr (digest1 md msg))
  /\ (forall c before after last (s : Windows.St),
     exists digest,
       fst (Windows.compute bcrypt c (before ++ [] :: after) last s) = inr digest
       /\ fst (Windows.compute bcrypt c (before ++ after) last s) = inr digest)
  /\ (forall (s : Windows.St) alg msg,
        holds2 (world s) (Windows.m_hashHandle (this s)) (Hash_hashing alg msg) ->
        Windows.m_hashLength (this s) = hash_length alg ->
        fst (Windows.OnFinal bcrypt [] s) = inr (digest2 alg msg)).
Proof.
  intros C1 C2. split; [|split; [|split]].
  - intros indet c before after last s. eexists. split.
    + apply (Posix_compute_digest _ _ _ indet C1).
    + rewrite (Posix_compute_digest _ _ _ indet C1).
      rewrite !concat_app. reflexivity.
  - intros indet s md msg H.
    destruct (Posix_OnFinal_digest _ _ _ indet C1 s md msg [] H) as (s1 & E1 & _).
    now rewrite E1, app_nil_r.
  - intros c before after last s. eexists. split.
    + apply (Windows_compute_digest _ _ _ _ _ C2).
    + rewrite (Windows_compute_digest _ _ _ _ _ C2).
      rewrite !map_app, !concat_app. reflexivity.
  - intros s alg msg H L.
    destruct (Windows_OnFinal_digest _ _ _ _ _ C2 s alg msg [] (conj H L)) as (s1 & E1 & _).
    now rewrite E1, ULONG_prefix_nil, app_nil_r.
Qed.

Lemma C9_empty_append_witness :
  (exists digest,
     fst (Posix.compute evp_ref stack_aa SHA256_class ([abc] ++ [] :: [abc]) []
            (Posix.boot evp_empty [])) = inr digest
     /\ fst (Posix.compute evp_ref stack_aa SHA256_class ([abc] ++ [abc]) []
               (Posix.boot evp_empty [])) = inr digest)
  /\ (exists digest,
     fst (Windows.compute bcrypt_ref SHA256_class ([abc] ++ [] :: [abc]) []
            (Windows.boot bcrypt_empty [])) = inr digest
     /\ fst (Windows.compute bcrypt_ref SHA256_class ([abc] ++ [abc]) []
               (Windows.boot bcrypt_empty [])) = inr digest).
Proof.
  split.
  - apply (proj1 (C9_empty_append_changes_nothing evp_ref bcrypt_ref _ _ _ _ _ _
                    evp_ref_contract bcrypt_ref_contract)).
  - apply (proj1 (proj2 (proj2 (C9_empty_append_changes_nothing evp_ref bcrypt_ref _ _ _ _ _ _
                                  evp_ref_contract bcrypt_ref_contract)))).
Defined.

(** ** C4: the digest of the empty input *)

Lemma SHA2_hash_empty c : SHA2.hash c [] = digest_of_empty c.
Proof. destruct c; vm_compute; reflexivity. Qed.

Lemma SHA2_hash_abc c : SHA2.hash c abc = digest_of_abc c.
Proof. destruct c; vm_compute; reflexivity. Qed.

(** C4.  With the reference libraries, an instance of each class that is
    finalized with an empty chunk right after its construction, with no
    append, returns the published digest of the empty input; for SHA-256
    this is e3b0c44298fc1c149afbf4c8996fb92427ae41e4649b934ca495991b7852b855.
    This holds in whatever state the library is when the instance is made. *)
Theorem C4_digest_of_the_empty_input indet (s : Posix.St) (s' : Windows.St) :
  fst (Posix.compute evp_ref indet SHA256_class [] [] s) = inr sha256_of_empty
  /\ fst (Posix.compute evp_ref indet SHA384_class [] [] s) = inr sha384_of_empty
  /\ fst (Posix.compute evp_ref indet SHA512_class [] [] s) = inr sha512_of_empty
  /\ fst (Windows.compute bcrypt_ref SHA256_class [] [] s') = inr sha256_of_empty
  /\ fst (Windows.compute bcrypt_ref SHA384_class [] [] s') = inr sha384_of_empty
  /\ fst (Windows.compute bcrypt_ref SHA512_class [] [] s') = inr sha512_of_empty.
Proof.
  rewrite !(Posix_compute_digest _ _ _ indet evp_ref_contract).
  rewrite !(Windows_compute_digest _ _ _ _ _ bcrypt_ref_contract).
  cbn [concat map app md_of]. rewrite ULONG_prefix_nil.
  unfold evp_digest, bcrypt_digest. cbn [class_of_md].
  rewrite !class_of_algorithm, !SHA2_hash_empty. repeat split.
Qed.

(** ** C7: a second finalize *)

Lemma Posix_OnAppend_raised {W} (evp : EVP_API W) (s : Posix.St) d :
  raised (fst (Posix.OnAppend evp d s))
  <-> fst (EVP_DigestUpdate evp (Posix.m_context (this s)) d (N.of_nat (length d)) (world s))
      <> 1%Z.
Proof.
  rewrite Posix_OnAppend_unfold. cbn [fst].
  destruct (decide (1%Z ≠ _)) as [n|n]; cbn; [|apply dec_stable in n]; intuition congruence.
Qed.

Lemma Posix_OnFinal_raised {W} (evp : EVP_API W) indet (s : Posix.St) d :
  let ctx := Posix.m_context (this s) in
  let u := EVP_DigestUpdate evp ctx d (N.of_nat (length d)) (world s) in
  raised (fst (Posix.OnFinal evp indet d s))
  <-> fst u <> 1%Z \/ fst (fst (fst (EVP_DigestFinal evp ctx (snd u)))) <> 1%Z.
Proof.
  intros ctx u. destruct (Posix_OnFinal_cases evp indet s d) as [Hbad Hgood].
  fold ctx in Hbad, Hgood. fold u in Hbad, Hgood.
  destruct (decide (fst u = 1%Z)) as [Hu|Hu].
  - rewrite (Hgood Hu).
    destruct (decide (1%Z ≠ _)) as [n|n]; cbn; [|apply dec_stable in n]; intuition congruence.
  - rewrite (Hbad Hu). cbn. intuition.
Qed.

Lemma Posix_OnFinal_this {W} (evp : EVP_API W) indet (s : Posix.St) d :
  this (snd (Posix.OnFinal evp indet d s)) = this s.
Proof.
  destruct (Posix_OnFinal_cases evp indet s d) as [Hbad Hgood].
  destruct (decide (fst (EVP_DigestUpdate evp (Posix.m_context (this s)) d
                           (N.of_nat (length d)) (world s)) = 1%Z)) as [Hu|Hu].
  - now rewrite (Hgood Hu).
  - now rewrite (Hbad Hu).
Qed.

Lemma Windows_OnAppend_raised {W} (bcrypt : BCrypt_API W) (s : Windows.St) d :
  raised (fst (Windows.OnAppend bcrypt d s))
  <-> (fst (BCryptHashData bcrypt (Windows.m_hashHandle (this s)) d
              (ULONG_cast (N.of_nat (length d))) (world s)) < 0)%Z.
Proof.
  rewrite Windows_OnAppend_unfold. cbn [fst].
  destruct (negb (BCRYPT_SUCCESS _)) eqn:E; cbn.
  - apply BCRYPT_SUCCESS_false in E. intuition.
  - apply negb_false_iff, Z.leb_le in E. intuition lia.
Qed.

Lemma Windows_OnFinal_raised {W} (bcrypt : BCrypt_API W) (s : Windows.St) d :
  let h := Windows.m_hashHandle (this s) in
  let u := BCryptHashData bcrypt h d (ULONG_cast (N.of_nat (length d))) (world s) in
  let cbOutput :=
    ULONG_cast (N.of_nat (length (repeat x00 (N.to_nat (Windows.m_hashLength (this s)))))) in
  raised (fst (Windows.OnFinal bcrypt d s))
  <-> (fst u < 0)%Z \/ (fst (fst (BCryptFinishHash bcrypt h cbOutput (snd u))) < 0)%Z.
Proof.
  intros h u cbOutput. destruct (Windows_OnFinal_cases bcrypt s d) as [Hbad Hgood].
  fold h in Hbad, Hgood. fold u in Hbad, Hgood. fold cbOutput in Hgood.
  destruct (Z.lt_ge_cases (fst u) 0) as [Hu|Hu].
  - rewrite (Hbad Hu). cbn. intuition.
  - rewrite (Hgood Hu).
    destruct (negb (BCRYPT_SUCCESS _)) eqn:E; cbn.
    + apply BCRYPT_SUCCESS_false in E. intuition.
    + apply negb_false_iff, Z.leb_le in E. intuition lia.
Qed.

Lemma Windows_OnFinal_this {W} (bcrypt : BCrypt_API W) (s : Windows.St) d :
  this (snd (Windows.OnFinal bcrypt d s)) = this s.
Proof.
  destruct (Windows_OnFinal_cases bcrypt s d) as [Hbad Hgood].
  destruct (Z.lt_ge_cases
              (fst (BCryptHashData bcrypt (Windows.m_hashHandle (this s)) d
                      (ULONG_cast (N.of_nat (length d))) (world s))) 0) as [Hu|Hu].
  - now rewrite (Hbad Hu).
  - now rewrite (Hgood Hu).
Qed.

Lemma evp_ref_spent : EVP_spent evp_ref evp_holds evp_spent.
Proof.
  split.
  - intros w p md msg H. cbn in H. unfold evp_spent. cbn. rewrite H. cbn.
    apply lookup_insert_eq.
  - intros w p d cnt H. unfold evp_spent in *. cbn.
    destruct (decide (cnt = 0)); [exact H|]. rewrite H. exact H.
  - intros w p H. unfold evp_spent in *. cbn. rewrite H. cbn. split; [discriminate|exact H].
Qed.

Lemma bcrypt_ref_spent : BCrypt_spent bcrypt_ref bcrypt_holds bcrypt_spent.
Proof.
  split.
  - intros w hh cb alg msg (c & _ & H) S. unfold bcrypt_spent. cbn in S |- *.
    unfold BCRYPT_ALG_HANDLE, BCRYPT_HASH_HANDLE, ptr in *. rewrite H in S |- *.
    destruct (cb =? _); cbn in S |- *; [apply lookup_insert_eq|].
    exfalso. vm_compute in S. now apply S.
  - intros w hh d cb H. unfold bcrypt_spent in *. cbn.
    unfold BCRYPT_ALG_HANDLE, BCRYPT_HASH_HANDLE, ptr in *. rewrite H. exact H.
  - intros w hh cb H. unfold bcrypt_spent in *. cbn.
    unfold BCRYPT_ALG_HANDLE, BCRYPT_HASH_HANDLE, ptr in *. rewrite H. cbn.
    split; [reflexivity|exact H].
Qed.

Section PosixSpent.
Context {W : Type} (evp : EVP_API W) (indet : nat -> byte).
Context (holds : W -> ptr -> EVP_view -> Prop) (spent : W -> ptr -> Prop).
Hypothesis terminal : EVP_spent evp holds spent.

Local Abbreviation is_spent s := (spent (world s) (Posix.m_context (this s))).

Lemma Posix_OnAppend_spent (s : Posix.St) d :
  is_spent s -> is_spent (snd (Posix.OnAppend evp d s)).
Proof.
  intros H. rewrite Posix_OnAppend_unfold. cbn [snd world this].
  now apply (spent_update _ _ _ terminal).
Qed.

Lemma Posix_OnFinal_spent (s : Posix.St) d :
  is_spent s ->
  raised (fst (Posix.OnFinal evp indet d s)) /\ is_spent (snd (Posix.OnFinal evp indet d s)).
Proof.
  intros H. split.
  - apply Posix_OnFinal_raised.
    destruct (decide (fst (EVP_DigestUpdate evp (Posix.m_context (this s)) d
                             (N.of_nat (length d)) (world s)) = 1%Z)) as [Hu|Hu];
      [right|left; exact Hu].
    apply (spent_final _ _ _ terminal), (spent_update _ _ _ terminal), H.
  - destruct (Posix_OnFinal_cases evp indet s d) as [Hbad Hgood].
    destruct (decide (fst (EVP_DigestUpdate evp (Posix.m_context (this s)) d
                             (N.of_nat (length d)) (world s)) = 1%Z)) as [Hu|Hu].
    + rewrite (Hgood Hu). cbn [snd world this].
      apply (spent_final _ _ _ terminal), (spent_update _ _ _ terminal), H.
    + rewrite (Hbad Hu). cbn [snd world this]. now apply (spent_update _ _ _ terminal).
Qed.

Lemma Posix_later_spent ms (s : Posix.St) :
  is_spent s ->
  is_spent (Posix_later evp indet ms s) /\ this (Posix_later evp indet ms s) = this s.
Proof.
  revert s. induction ms as [|m ms IH]; intros s H; [split; [exact H|reflexivity]|].
  destruct m as [d|d].
  - change (Posix_later evp indet (append d :: ms) s)
      with (Posix_later evp indet ms (snd (Posix.OnAppend evp d s))).
    destruct (IH _ (Posix_OnAppend_spent s d H)) as [H1 T1].
    split; [exact H1|]. now rewrite T1, Posix_OnAppend_this.
  - change (Posix_later evp indet (finalize d :: ms) s)
      with (Posix_later evp indet ms (snd (Posix.OnFinal evp indet d s))).
    destruct (IH _ (proj2 (Posix_OnFinal_spent s d H))) as [H1 T1].
    split; [exact H1|]. now rewrite T1, Posix_OnFinal_this.
Qed.

End PosixSpent.

Section WindowsSpent.
Context {W : Type} (bcrypt : BCrypt_API W).
Context (holds : W -> ptr -> BCrypt_view -> Prop) (spent : W -> ptr -> Prop).
Hypothesis terminal : BCrypt_spent bcrypt holds spent.

Local Abbreviation is_spent s := (spent (world s) (Windows.m_hashHandle (this s))).

Lemma Windows_OnAppend_spent (s : Windows.St) d :
  is_spent s -> is_spent (snd (Windows.OnAppend bcrypt d s)).
Proof.
  intros H. rewrite Windows_OnAppend_unfold. cbn [snd world this].
  now apply (spent_hash_data _ _ _ terminal).
Qed.

Lemma Windows_OnFinal_spent (s : Windows.St) d :
  is_spent s ->
  raised (fst (Windows.OnFinal bcrypt d s)) /\ is_spent (snd (Windows.OnFinal bcrypt d s)).
Proof.
  intros H. split.
  - apply Windows_OnFinal_raised. right.
    apply (spent_finish _ _ _ terminal), (spent_hash_data _ _ _ terminal), H.
  - destruct (Windows_OnFinal_cases bcrypt s d) as [Hbad Hgood].
    destruct (Z.lt_ge_cases
                (fst (BCryptHashData bcrypt (Windows.m_hashHandle (this s)) d
                        (ULONG_cast (N.of_nat (length d))) (world s))) 0) as [Hu|Hu].
    + rewrite (Hbad Hu). cbn [snd world this]. now apply (spent_hash_data _ _ _ terminal).
    + rewrite (Hgood Hu). cbn [snd world this].
      apply (spent_finish _ _ _ terminal), (spent_hash_data _ _ _ terminal), H.
Qed.

Lemma Windows_later_spent ms (s : Windows.St) :
  is_spent s ->
  is_spent (Windows_later bcrypt ms s) /\ this (Windows_later bcrypt ms s) = this s.
Proof.
  revert s. induction ms as [|m ms IH]; intros s H; [split; [exact H|reflexivity]|].
  destruct m as [d|d].
  - change (Windows_later bcrypt (append d :: ms) s)
      with (Windows_later bcrypt ms (snd (Windows.OnAppend bcrypt d s))).
    destruct (IH _ (Windows_OnAppend_spent s d H)) as [H1 T1].
    split; [exact H1|]. now rewrite T1, Windows_OnAppend_this.
  - change (Windows_later bcrypt (finalize d :: ms) s)
      with (Windows_later bcrypt ms (snd (Windows.OnFinal bcrypt d s))).
    destruct (IH _ (proj2 (Windows_OnFinal_spent s d H))) as [H1 T1].
    split; [exact H1|]. now rewrite T1, Windows_OnFinal_this.
Qed.

End WindowsSpent.



(** ** C1: chunking *)

Section WindowsChunks.
Context {W : Type} (bcrypt : BCrypt_API W).
Context (holds : W -> ptr -> BCrypt_view -> Prop) (digest : LPCWSTR -> list byte -> list byte).
Context (object_length hash_length : LPCWSTR -> N).
Hypothesis contract : BCrypt_contract bcrypt holds digest object_length hash_length.

(** A chunk whose length is a multiple of 2^32 is not hashed at all. *)
Lemma Windows_append_of_4GiB c S (s : Windows.St) :
  N.of_nat (length S) = 2 ^ 32 ->
  fst (Windows.compute bcrypt c [S] [] s) = inr (digest (Windows.algorithm c) []).
Proof.
  intros L. rewrite (Windows_compute_digest _ _ _ _ _ contract).
  cbn [map concat]. rewrite ULONG_prefix_nil, !app_nil_r.
  unfold ULONG_prefix, ULONG_cast. rewrite L, N.Div0.mod_same. reflexivity.
Qed.

(** Chunks shorter than 2^32 bytes are hashed as they are. *)
Lemma Windows_appends_below_4GiB c chunks (s : Windows.St) :
  Forall (fun d => N.of_nat (length d) < 2 ^ 32) chunks ->
  fst (Windows.compute bcrypt c chunks [] s)
  = inr (digest (Windows.algorithm c) (concat chunks)).
Proof.
  intros L. rewrite (Windows_compute_digest _ _ _ _ _ contract).
  rewrite ULONG_prefix_nil, app_nil_r. do 3 f_equal.
  induction L as [|d chunks Hd _ IH]; [reflexivity|].
  cbn [map]. now rewrite IH, ULONG_prefix_small.
Qed.

End WindowsChunks.

Lemma length_zeros n : N.of_nat (length (zeros n)) = n.
Proof. unfold zeros. now rewrite repeat_length, N2Nat.id. Qed.

Lemma length_four_GiB : N.of_nat (length (four_GiB_head ++ four_GiB_tail)) = 2 ^ 32.
Proof.
  rewrite length_app, Nat2N.inj_add. unfold four_GiB_head. rewrite length_zeros.
  reflexivity.
Qed.

(** C1 fails on Windows.  [OnAppend] hands [BCryptHashData] the low 32 bits
    of the chunk length.  With the reference library: a buffer of 2^32 zero
    bytes given to one append is not hashed, and finalize returns the digest
    of the empty input; given as 2^32 - 1 bytes and then one byte, all of it
    is hashed. *)
Theorem C1_one_append_of_4GiB_hashes_nothing (s : Windows.St) :
  fst (Windows.compute bcrypt_ref SHA256_class [four_GiB_head ++ four_GiB_tail] [] s)
  = inr sha256_of_empty
  /\ fst (Windows.compute bcrypt_ref SHA256_class [four_GiB_head; four_GiB_tail] [] s)
     = inr (SHA2.hash SHA256_class (four_GiB_head ++ four_GiB_tail)).
Proof.
  split.
  - rewrite (Windows_append_of_4GiB _ _ _ _ _ bcrypt_ref_contract _ _ _ length_four_GiB).
    unfold bcrypt_digest. now rewrite class_of_algorithm, SHA2_hash_empty.
  - rewrite (Windows_appends_below_4GiB _ _ _ _ _ bcrypt_ref_contract).
    + unfold bcrypt_digest. rewrite class_of_algorithm.
      cbn [concat]. now rewrite app_nil_r.
    + constructor; [|constructor; [reflexivity|constructor]].
      unfold four_GiB_head. rewrite length_zeros. reflexivity.
Qed.

(** ** C6: what is acquired and what is released *)

(** C6 fails on both builds.  When [EVP_DigestInit_ex] fails, the
    constructor of [SHAWithOpenSSL] throws after [EVP_MD_CTX_new] has
    returned a context; the destructor of an object whose constructor threw
    does not run, and nothing else frees the context.  The same happens to
    the provider handle when [BCryptGetProperty] fails in the constructor of
    [AlgorithmProviderInstance].  Seen here on the two libraries that fail
    at these points: the object is never made, the context (the provider)
    was acquired, was not released, and is still held by the library. *)
Theorem C6_failed_construction_releases_nothing :
  let r := Posix.compute evp_no_digest stack_aa SHA256_class [] [] (Posix.boot evp_empty []) in
  let r' := Windows.compute bcrypt_no_property SHA256_class [] [] (Windows.boot bcrypt_empty []) in
  (fst r = inl (runtime_error "Crypto error while init SHA256.")
   /\ calls (snd r) = [Call_EVP_MD_CTX_new 1; Call_EVP_DigestInit_ex 1 EVP_sha256 0%Z]
   /\ leaked EVP_effect (calls (snd r)) = [1]
   /\ times_released EVP_effect 1 (calls (snd r)) = 0%nat
   /\ world (snd r) !! 1 = Some md_new)
  /\ (fst r' = inl (runtime_error "BCryptGetProperty failed")
      /\ calls (snd r') = [Call_BCryptOpenAlgorithmProvider BCRYPT_SHA256_ALGORITHM 1 STATUS_SUCCESS;
                           Call_BCryptGetProperty 1 BCRYPT_OBJECT_LENGTH 0 STATUS_NOT_SUPPORTED]
      /\ leaked BCrypt_effect (calls (snd r')) = [Provider 1]
      /\ times_released BCrypt_effect (Provider 1) (calls (snd r')) = 0%nat
      /\ providers (world (snd r')) !! 1 = Some SHA256_class).
Proof.
  vm_compute. repeat split.
Qed.

Lemma C10_hash_length_witness :
  let made := Windows.SHAWithBCrypt_ctor bcrypt_ref BCRYPT_SHA384_ALGORITHM
                (Windows.boot bcrypt_empty []) in
  let final := Windows.OnFinal bcrypt_ref abc (snd made) in
  hash_length_query (calls (snd made)) = Some 48
  /\ Windows.m_hashLength (this (snd made)) = 48
  /\ Windows.m_hashLength (this (snd (Windows.OnAppend bcrypt_ref abc (snd made)))) = 48
  /\ fst final = inr sha384_of_abc
  /\ length sha384_of_abc = 48%nat.
Proof.
  pose proof (C10_hash_length_fixed_at_construction bcrypt_ref) as (Hmade & Happend & _ & Hfinal).
  assert (Windows.SHAWithBCrypt_ctor bcrypt_ref BCRYPT_SHA384_ALGORITHM
            (Windows.boot bcrypt_empty [])
          = (inr tt, snd (Windows.SHAWithBCrypt_ctor bcrypt_ref BCRYPT_SHA384_ALGORITHM
                            (Windows.boot bcrypt_empty [])))) as Emade.
  { vm_compute. reflexivity. }
  assert (Windows.OnFinal bcrypt_ref abc
            (snd (Windows.SHAWithBCrypt_ctor bcrypt_ref BCRYPT_SHA384_ALGORITHM
                    (Windows.boot bcrypt_empty [])))
          = (inr sha384_of_abc,
             snd (Windows.OnFinal bcrypt_ref abc
                    (snd (Windows.SHAWithBCrypt_ctor bcrypt_ref BCRYPT_SHA384_ALGORITHM
                            (Windows.boot bcrypt_empty [])))))) as Efinal.
  { vm_compute. reflexivity. }
  assert (Windows.m_hashLength
            (this (snd (Windows.SHAWithBCrypt_ctor bcrypt_ref BCRYPT_SHA384_ALGORITHM
                          (Windows.boot bcrypt_empty [])))) = 48) as E48.
  { vm_compute. reflexivity. }
  cbv zeta. specialize (Hmade _ _ _ Emade). specialize (Hfinal _ _ _ _ Efinal).
  rewrite E48 in Hmade, Hfinal. rewrite Happend, E48, Efinal.
  split; [exact Hmade|]. split; [reflexivity|]. split; [reflexivity|].
  split; [reflexivity|]. exact (proj1 Hfinal).
Defined.

(** ** Resources on the paths that do release them *)

Lemma acquired_app {R C} (eff : C -> effect R) l1 l2 :
  acquired eff (l1 ++ l2) = acquired eff l1 ++ acquired eff l2.
Proof. unfold acquired. apply omap_app. Qed.

Lemma released_app {R C} (eff : C -> effect R) l1 l2 :
  released eff (l1 ++ l2) = released eff l1 ++ released eff l2.
Proof. unfold released. apply omap_app. Qed.

Lemma quiet_bind {O W C R A B} (eff : C -> effect R)
    (m : M (machine O W C) A) (k : A -> M (machine O W C) B) :
  quiet eff m -> (forall a, quiet eff (k a)) -> quiet eff (m ≫= k).
Proof.
  intros Hm Hk s. destruct (Hm s) as (e1 & E1 & A1 & R1 & T1).
  unfold mbind, M_bind, bind. destruct (m s) as [[e|a] s1]; cbn in *.
  - exists e1. auto.
  - destruct (Hk a s1) as (e2 & E2 & A2 & R2 & T2).
    exists (e1 ++ e2). rewrite E2, E1, T2, T1, app_assoc, acquired_app, released_app, A1, A2, R1, R2.
    auto.
Qed.

Lemma quiet_ret {O W C R A} (eff : C -> effect R) (a : A) :
  quiet eff (mret a : M (machine O W C) A).
Proof. intros s. exists []. cbn. rewrite app_nil_r. auto. Qed.

Lemma Posix_OnAppend_quiet {W} (evp : EVP_API W) d : quiet EVP_effect (Posix.OnAppend evp d).
Proof.
  intros s. rewrite Posix_OnAppend_unfold. cbn [snd calls this]. eexists. split; [reflexivity|].
  auto.
Qed.

Lemma Posix_appends_quiet {W} (evp : EVP_API W) chunks :
  quiet EVP_effect (Posix.appends evp chunks).
Proof.
  induction chunks as [|d chunks IH]; cbn [Posix.appends].
  - apply quiet_ret.
  - apply quiet_bind; [apply Posix_OnAppend_quiet|intros _; exact IH].
Qed.

Lemma Posix_OnFinal_quiet {W} (evp : EVP_API W) indet d :
  quiet EVP_effect (Posix.OnFinal evp indet d).
Proof.
  intros s. destruct (Posix_OnFinal_cases evp indet s d) as [Hbad Hgood].
  destruct (decide (fst (EVP_DigestUpdate evp (Posix.m_context (this s)) d
                           (N.of_nat (length d)) (world s)) = 1%Z)) as [Hu|Hu].
  - rewrite (Hgood Hu). cbn [snd calls this]. eexists. split; [reflexivity|]. auto.
  - rewrite (Hbad Hu). cbn [snd calls this]. eexists. split; [reflexivity|]. auto.
Qed.

(** What a successful construction of [SHAWithOpenSSL] consists of. *)
Lemma Posix_construct_inr {W} (evp : EVP_API W) c (s s' : Posix.St) :
  Posix.construct evp c s = (inr tt, s') ->
  exists p w1 w2,
    EVP_MD_CTX_new evp (world s) = (p, w1) /\ p <> NULL
    /\ EVP_DigestInit_ex evp p (md_of c) w1 = (1%Z, w2)
    /\ s' = Machine {| Posix.m_context := p |} w2
              (calls s ++ [Call_EVP_MD_CTX_new p; Call_EVP_DigestInit_ex p (md_of c) 1%Z]).
Proof.
  destruct c;
    unfold Posix.construct, Posix.SHA256, Posix.SHA384, Posix.SHA512,
      Posix.SHAWithOpenSSL_ctor, Posix.init_digest;
    unfold mbind, M_bind, bind, member, invoke, assign, throw, mret, M_ret, ret;
    (destruct (EVP_MD_CTX_new evp (world s)) as [p w1] eqn:E1); cbn;
    (destruct (decide (p = NULL)) as [D|D]; [discriminate|]); cbn;
    (destruct (EVP_DigestInit_ex evp p _ w1) as [st w2] eqn:E2); cbn;
    (destruct (decide (1%Z ≠ st)) as [n|n]; [discriminate|]);
    apply dec_stable in n; subst st; intros H; injection H as <-;
    exists p, w1, w2; rewrite <- app_assoc; auto.
Qed.

Lemma lifetime_inr {S A} (ctor dtor : M S unit) (body : M S A) s s1 :
  ctor s = (inr tt, s1) ->
  lifetime ctor dtor body s = (fst (body s1), snd (dtor (snd (body s1)))).
Proof. intros H. unfold lifetime. rewrite H. now destruct (body s1). Qed.

Lemma lifetime_inl {S A} (ctor dtor : M S unit) (body : M S A) s e s1 :
  ctor s = (inl e, s1) -> lifetime ctor dtor body s = (inl e, s1).
Proof. intros H. unfold lifetime. now rewrite H. Qed.

Lemma Posix_dtor_unfold {W} (evp : EVP_API W) (s : Posix.St) :
  Posix.SHAWithOpenSSL_dtor evp s =
  (inr tt, Machine (this s) (EVP_MD_CTX_free evp (Posix.m_context (this s)) (world s))
             (calls s ++ [Call_EVP_MD_CTX_free (Posix.m_context (this s))])).
Proof. reflexivity. Qed.

(** X3.  Once an instance of [SHAWithOpenSSL] is constructed, its lifetime
    releases the one context it acquired exactly once, whatever the library
    does and whether or not an append or the finalize throws. *)
Theorem Posix_lifetime_releases_once {W} (evp : EVP_API W) indet c chunks last w :
  fst (Posix.construct evp c (Posix.boot w [])) = inr tt ->
  let log := calls (snd (Posix.compute evp indet c chunks last (Posix.boot w []))) in
  released_once EVP_effect log /\ leaked EVP_effect log = [].
Proof.
  intros H. destruct (Posix.construct evp c (Posix.boot w [])) as [r s1] eqn:E1.
  cbn in H. subst r.
  destruct (Posix_construct_inr _ _ _ _ E1) as (p & w1 & w2 & _ & Hp & _ & Es1).
  destruct (quiet_bind EVP_effect (Posix.appends evp chunks)
              (fun _ => Posix.OnFinal evp indet last)
              (Posix_appends_quiet evp chunks)
              (fun _ => Posix_OnFinal_quiet evp indet last) s1)
    as (ext & E2 & A2 & R2 & T2).
  unfold Posix.compute. rewrite (lifetime_inr _ _ _ _ _ E1), Posix_dtor_unfold.
  unfold Posix.St in *. cbn [snd calls]. rewrite T2, E2, Es1. cbn [Posix.m_context this calls Posix.boot app].
  assert (acquired EVP_effect
            (Call_EVP_MD_CTX_new p :: Call_EVP_DigestInit_ex p (md_of c) 1%Z
             :: ext ++ [Call_EVP_MD_CTX_free p]) = [p]) as HA.
  { change (acquired EVP_effect
              ([Call_EVP_MD_CTX_new p; Call_EVP_DigestInit_ex p (md_of c) 1%Z]
               ++ ext ++ [Call_EVP_MD_CTX_free p]) = [p]).
    rewrite !acquired_app, A2. unfold acquired. cbn.
    destruct (decide (p = NULL)); [contradiction|reflexivity]. }
  assert (released EVP_effect
            (Call_EVP_MD_CTX_new p :: Call_EVP_DigestInit_ex p (md_of c) 1%Z
             :: ext ++ [Call_EVP_MD_CTX_free p]) = [p]) as HR.
  { change (released EVP_effect
              ([Call_EVP_MD_CTX_new p; Call_EVP_DigestInit_ex p (md_of c) 1%Z]
               ++ ext ++ [Call_EVP_MD_CTX_free p]) = [p]).
    rewrite !released_app, R2. unfold released. cbn.
    destruct (decide (p = NULL)); [contradiction|reflexivity]. }
  cbv zeta. split.
  - intros r. unfold times_released. rewrite HA, HR. intros Hr%list_elem_of_singleton. subst r.
    cbn. destruct (decide (p = p)); [reflexivity|contradiction].
  - unfold leaked. rewrite HA, HR. cbn.
    destruct (decide_rel elem_of p [p]) as [_|n]; [reflexivity|].
    exfalso. apply n. constructor.
Qed.

Lemma Windows_OnAppend_quiet {W} (bcrypt : BCrypt_API W) d :
  quiet BCrypt_effect (Windows.OnAppend bcrypt d).
Proof.
  intros s. rewrite Windows_OnAppend_unfold. cbn [snd calls this]. eexists.
  split; [reflexivity|]. auto.
Qed.

Lemma Windows_appends_quiet {W} (bcrypt : BCrypt_API W) chunks :
  quiet BCrypt_effect (Windows.appends bcrypt chunks).
Proof.
  induction chunks as [|d chunks IH]; cbn [Windows.appends].
  - apply quiet_ret.
  - apply quiet_bind; [apply Windows_OnAppend_quiet|intros _; exact IH].
Qed.

Lemma Windows_OnFinal_quiet {W} (bcrypt : BCrypt_API W) d :
  quiet BCrypt_effect (Windows.OnFinal bcrypt d).
Proof.
  intros s. destruct (Windows_OnFinal_cases bcrypt s d) as [Hbad Hgood].
  destruct (Z.lt_ge_cases
              (fst (BCryptHashData bcrypt (Windows.m_hashHandle (this s)) d
                      (ULONG_cast (N.of_nat (length d))) (world s))) 0) as [Hu|Hu].
  - rewrite (Hbad Hu). cbn [snd calls this]. eexists. split; [reflexivity|]. auto.
  - rewrite (Hgood Hu). cbn [snd calls this]. eexists. split; [reflexivity|]. auto.
Qed.

Lemma Windows_dtor_unfold {W} (bcrypt : BCrypt_API W) (s : Windows.St) :
  Windows.SHAWithBCrypt_dtor bcrypt s =
  (inr tt, Machine (this s) (BCryptDestroyHash bcrypt (Windows.m_hashHandle (this s)) (world s))
             (calls s ++ [Call_BCryptDestroyHash (Windows.m_hashHandle (this s))])).
Proof. reflexivity. Qed.

Lemma Windows_construct_ctor {W} (bcrypt : BCrypt_API W) c :
  Windows.construct bcrypt c = Windows.SHAWithBCrypt_ctor bcrypt (Windows.algorithm c).
Proof. now destruct c. Qed.

(** X4.  Once an instance of [SHAWithBCrypt] is constructed, the provider its
    constructor opened and the hash object it created are each released
    exactly once by the end of its lifetime, whatever the library does and
    whether or not an append or the finalize throws. *)
Theorem Windows_lifetime_releases_once {W} (bcrypt : BCrypt_API W) c chunks last w :
  fst (Windows.construct bcrypt c (Windows.boot w [])) = inr tt ->
  let log := calls (snd (Windows.compute bcrypt c chunks last (Windows.boot w []))) in
  released_once BCrypt_effect log /\ leaked BCrypt_effect log = [].
Proof.
  intros H. destruct (Windows.construct bcrypt c (Windows.boot w [])) as [r s1] eqn:E1.
  cbn in H. subst r. pose proof E1 as E1'. rewrite Windows_construct_ctor in E1'.
  destruct (Windows_ctor_inr _ _ _ _ E1')
    as (st1 & h & w1 & st2 & ol & w2 & st3 & hl & w3 & st4 & hh & w4
        & _ & _ & _ & _ & S1 & _ & _ & S4 & Es1).
  destruct (quiet_bind BCrypt_effect (Windows.appends bcrypt chunks)
              (fun _ => Windows.OnFinal bcrypt last)
              (Windows_appends_quiet bcrypt chunks)
              (fun _ => Windows_OnFinal_quiet bcrypt last) s1)
    as (ext & E2 & A2 & R2 & T2).
  unfold Windows.compute. rewrite (lifetime_inr _ _ _ _ _ E1), Windows_dtor_unfold.
  unfold Windows.St in *. cbn [snd calls]. rewrite T2, E2, Es1.
  cbn [Windows.m_hashHandle this calls Windows.boot].
  rewrite app_nil_l.
  set (ctor_calls := [Call_BCryptOpenAlgorithmProvider (Windows.algorithm c) h st1;
                      Call_BCryptGetProperty h BCRYPT_OBJECT_LENGTH ol st2;
                      Call_BCryptGetProperty h BCRYPT_HASH_LENGTH hl st3;
                      Call_BCryptCreateHash h
                        (ULONG_cast (N.of_nat (length (repeat x00 (N.to_nat ol))))) hh st4;
                      Call_BCryptCloseAlgorithmProvider h]).
  assert (acquired BCrypt_effect ((ctor_calls ++ ext) ++ [Call_BCryptDestroyHash hh])
          = [Provider h; HashObject hh]) as HA.
  { rewrite !acquired_app, A2. unfold acquired, ctor_calls. cbn. rewrite S1, S4. reflexivity. }
  assert (released BCrypt_effect ((ctor_calls ++ ext) ++ [Call_BCryptDestroyHash hh])
          = [Provider h; HashObject hh]) as HR.
  { rewrite !released_app, R2. unfold released, ctor_calls. cbn. rewrite S1, S4. reflexivity. }
  cbv zeta. split.
  - intros r. unfold times_released. rewrite HA, HR.
    rewrite !elem_of_cons, elem_of_nil. intros [->|[->|[]]]; cbn.
    + destruct (decide (Provider h = Provider h)); [|contradiction].
      destruct (decide (HashObject hh = Provider h)); [discriminate|reflexivity].
    + destruct (decide (Provider h = HashObject hh)); [discriminate|].
      destruct (decide (HashObject hh = HashObject hh)); [reflexivity|contradiction].
  - unfold leaked. rewrite HA, HR. cbn.
    destruct (decide_rel elem_of (Provider h) [Provider h; HashObject hh]) as [_|n];
      [|exfalso; apply n; constructor].
    destruct (decide_rel elem_of (HashObject hh) [Provider h; HashObject hh]) as [_|n];
      [reflexivity|exfalso; apply n; do 2 constructor].
Qed.

(** X5.  For any library and any class: when the provider is open, both
    lengths were read and [BCryptCreateHash] then fails, the constructor of
    [SHAWithBCrypt] throws, and on the way out the destructor of the local
    [AlgorithmProviderInstance] closes the provider: the close call is the
    last of five, and nothing stays acquired. *)
Theorem Windows_failed_CreateHash_closes_provider {W} (bcrypt : BCrypt_API W)
    c chunks last w st1 h w1 st2 ol w2 st3 hl w3 st4 hh w4 :
  BCryptOpenAlgorithmProvider bcrypt (Windows.algorithm c) w = ((st1, h), w1) ->
  (0 <= st1)%Z ->
  BCryptGetProperty bcrypt h BCRYPT_OBJECT_LENGTH w1 = ((st2, ol), w2) ->
  (0 <= st2)%Z ->
  BCryptGetProperty bcrypt h BCRYPT_HASH_LENGTH w2 = ((st3, hl), w3) ->
  (0 <= st3)%Z ->
  BCryptCreateHash bcrypt h (ULONG_cast ol) w3 = ((st4, hh), w4) ->
  (st4 < 0)%Z ->
  let r := Windows.compute bcrypt c chunks last (Windows.boot w []) in
  fst r = inl (runtime_error "BCryptCreateHash failed")
  /\ calls (snd r) = [Call_BCryptOpenAlgorithmProvider (Windows.algorithm c) h st1;
                      Call_BCryptGetProperty h BCRYPT_OBJECT_LENGTH ol st2;
                      Call_BCryptGetProperty h BCRYPT_HASH_LENGTH hl st3;
                      Call_BCryptCreateHash h (ULONG_cast ol) hh st4;
                      Call_BCryptCloseAlgorithmProvider h]
  /\ acquired BCrypt_effect (calls (snd r)) = [Provider h]
  /\ released BCrypt_effect (calls (snd r)) = [Provider h]
  /\ leaked BCrypt_effect (calls (snd r)) = []
  /\ world (snd r) = BCryptCloseAlgorithmProvider bcrypt h w4.
Proof.
  intros E1 H1 E2 H2 E3 H3 E4 H4.
  assert (BCRYPT_SUCCESS st1 = true) as S1 by now apply Z.leb_le.
  assert (BCRYPT_SUCCESS st2 = true) as S2 by now apply Z.leb_le.
  assert (BCRYPT_SUCCESS st3 = true) as S3 by now apply Z.leb_le.
  assert (BCRYPT_SUCCESS st4 = false) as S4 by now apply Z.leb_gt.
  assert (Windows.construct bcrypt c (Windows.boot w [])
          = (inl (runtime_error "BCryptCreateHash failed"),
             Machine {| Windows.m_buffer := repeat x00 (N.to_nat ol);
                        Windows.m_hashHandle := hh;
                        Windows.m_hashLength := hl |}
               (BCryptCloseAlgorithmProvider bcrypt h w4)
               [Call_BCryptOpenAlgorithmProvider (Windows.algorithm c) h st1;
                Call_BCryptGetProperty h BCRYPT_OBJECT_LENGTH ol st2;
                Call_BCryptGetProperty h BCRYPT_HASH_LENGTH hl st3;
                Call_BCryptCreateHash h (ULONG_cast ol) hh st4;
                Call_BCryptCloseAlgorithmProvider h])) as E.
  { rewrite Windows_construct_ctor.
    unfold Windows.SHAWithBCrypt_ctor, local_object, Windows.AlgorithmProviderInstance_ctor,
      Windows.AlgorithmProviderInstance_dtor.
    unfold mbind, M_bind, bind, member, invoke, assign, throw, mret, M_ret, ret.
    cbn [Windows.boot world this calls]. rewrite E1. cbn [fst snd this world calls].
    rewrite S1. cbn [fst snd this world calls negb]. rewrite E2.
    cbn [fst snd this world calls]. rewrite S2. cbn [fst snd this world calls negb].
    rewrite E3. cbn [fst snd this world calls]. rewrite S3.
    cbn [fst snd this world calls negb Windows.ContextSize Windows.HashLength Windows.Handle
         Windows.m_buffer].
    rewrite repeat_length, N2Nat.id, E4.
    cbn [fst snd this world calls Windows.ContextSize Windows.HashLength Windows.Handle
         Windows.m_buffer Windows.m_hashHandle Windows.m_hashLength].
    rewrite S4. cbn [negb fst snd this world calls Windows.Handle app].
    reflexivity. }
  cbv zeta. unfold Windows.compute. rewrite (lifetime_inl _ _ _ _ _ _ E).
  cbn [fst snd calls world].
  assert (acquired BCrypt_effect
            [Call_BCryptOpenAlgorithmProvider (Windows.algorithm c) h st1;
             Call_BCryptGetProperty h BCRYPT_OBJECT_LENGTH ol st2;
             Call_BCryptGetProperty h BCRYPT_HASH_LENGTH hl st3;
             Call_BCryptCreateHash h (ULONG_cast ol) hh st4;
             Call_BCryptCloseAlgorithmProvider h] = [Provider h]) as HA.
  { unfold acquired. cbn. rewrite S1, S4. reflexivity. }
  assert (released BCrypt_effect
            [Call_BCryptOpenAlgorithmProvider (Windows.algorithm c) h st1;
             Call_BCryptGetProperty h BCRYPT_OBJECT_LENGTH ol st2;
             Call_BCryptGetProperty h BCRYPT_HASH_LENGTH hl st3;
             Call_BCryptCreateHash h (ULONG_cast ol) hh st4;
             Call_BCryptCloseAlgorithmProvider h] = [Provider h]) as HR.
  { unfold released. cbn. rewrite S1, S4. reflexivity. }
  split; [reflexivity|]. split; [reflexivity|]. split; [exact HA|]. split; [exact HR|].
  split; [|reflexivity].
  unfold leaked. rewrite HA, HR. cbn.
  destruct (decide_rel elem_of (Provider h) [Provider h]) as [_|n]; [reflexivity|].
  exfalso. apply n. constructor.
Qed.

Lemma Windows_failed_CreateHash_witness :
  let r := Windows.compute bcrypt_no_hash_object SHA384_class [abc] []
             (Windows.boot bcrypt_empty []) in
  fst r = inl (runtime_error "BCryptCreateHash failed")
  /\ calls (snd r) = [Call_BCryptOpenAlgorithmProvider (Windows.algorithm SHA384_class) 1
                        STATUS_SUCCESS;
                      Call_BCryptGetProperty 1 BCRYPT_OBJECT_LENGTH 208 STATUS_SUCCESS;
                      Call_BCryptGetProperty 1 BCRYPT_HASH_LENGTH 48 STATUS_SUCCESS;
                      Call_BCryptCreateHash 1 (ULONG_cast 208) NULL STATUS_INVALID_PARAMETER;
                      Call_BCryptCloseAlgorithmProvider 1]
  /\ acquired BCrypt_effect (calls (snd r)) = [Provider 1]
  /\ released BCrypt_effect (calls (snd r)) = [Provider 1]
  /\ leaked BCrypt_effect (calls (snd r)) = []
  /\ world (snd r)
     = BCryptCloseAlgorithmProvider bcrypt_no_hash_object 1
         {| providers := <[1 := SHA384_class]> ∅; hash_objects := ∅ |}.
Proof.
  apply (Windows_failed_CreateHash_closes_provider bcrypt_no_hash_object SHA384_class [abc] []
           bcrypt_empty STATUS_SUCCESS 1
           {| providers := <[1 := SHA384_class]> ∅; hash_objects := ∅ |}
           STATUS_SUCCESS 208
           {| providers := <[1 := SHA384_class]> ∅; hash_objects := ∅ |}
           STATUS_SUCCESS 48
           {| providers := <[1 := SHA384_class]> ∅; hash_objects := ∅ |}
           STATUS_INVALID_PARAMETER NULL
           {| providers := <[1 := SHA384_class]> ∅; hash_objects := ∅ |}).
  - vm_compute. reflexivity.
  - vm_compute. discriminate.
  - vm_compute. reflexivity.
  - vm_compute. discriminate.
  - vm_compute. reflexivity.
  - vm_compute. discriminate.
  - reflexivity.
  - reflexivity.
Defined.

(** ** Chunking where it is transparent *)

(** X1.  On POSIX the digest depends on the chunks only through their
    concatenation: however the input is cut into appends and a last chunk,
    the digest is the same.  In particular [append(S1 ++ S2)] and
    [append(S1); append(S2)] give the same digest. *)
Theorem Posix_chunking_is_transparent {W} (evp : EVP_API W) holds digest :
  EVP_contract evp holds digest ->
  (forall indet c chunks last chunks' last' (s s' : Posix.St),
     concat chunks ++ last = concat chunks' ++ last' ->
     exists d,
       fst (Posix.compute evp indet c chunks last s) = inr d
       /\ fst (Posix.compute evp indet c chunks' last' s') = inr d)
  /\ (forall indet c S1 S2 (s : Posix.St),
     exists d,
       fst (Posix.compute evp indet c [S1 ++ S2] [] s) = inr d
       /\ fst (Posix.compute evp indet c [S1; S2] [] s) = inr d).
Proof.
  intros C. split.
  - intros indet c chunks last chunks' last' s s' E. eexists. split.
    + apply (Posix_compute_digest _ _ _ indet C).
    + rewrite (Posix_compute_digest _ _ _ indet C). now rewrite E.
  - intros indet c S1 S2 s. eexists. split.
    + apply (Posix_compute_digest _ _ _ indet C).
    + rewrite (Posix_compute_digest _ _ _ indet C). cbn [concat].
      now rewrite !app_nil_r.
Qed.

Lemma Posix_chunking_witness :
  exists d,
    fst (Posix.compute evp_ref stack_aa SHA256_class [abc ++ abc] [] (Posix.boot evp_empty []))
    = inr d
    /\ fst (Posix.compute evp_ref stack_aa SHA256_class [abc; abc] [] (Posix.boot evp_empty []))
       = inr d.
Proof.
  apply (proj2 (Posix_chunking_is_transparent evp_ref _ _ evp_ref_contract)).
Defined.

(** X2.  On Windows the same holds as long as every chunk is shorter than 2^32
    bytes. *)
Theorem Windows_chunking_below_4GiB {W} (bcrypt : BCrypt_API W)
    holds digest object_length hash_length :
  BCrypt_contract bcrypt holds digest object_length hash_length ->
  forall c S1 S2 (s : Windows.St),
    N.of_nat (length (S1 ++ S2)) < 2 ^ 32 ->
    exists d,
      fst (Windows.compute bcrypt c [S1 ++ S2] [] s) = inr d
      /\ fst (Windows.compute bcrypt c [S1; S2] [] s) = inr d.
Proof.
  intros C c S1 S2 s L. rewrite length_app, Nat2N.inj_add in L.
  eexists. split.
  - apply (Windows_appends_below_4GiB _ _ _ _ _ C).
    constructor; [|constructor]. rewrite length_app, Nat2N.inj_add. exact L.
  - rewrite (Windows_appends_below_4GiB _ _ _ _ _ C).
    + cbn [concat]. now rewrite !app_nil_r.
    + constructor; [lia|]. constructor; [lia|constructor].
Qed.

Lemma Windows_chunking_witness :
  exists d,
    fst (Windows.compute bcrypt_ref SHA256_class [abc ++ abc] [] (Windows.boot bcrypt_empty []))
    = inr d
    /\ fst (Windows.compute bcrypt_ref SHA256_class [abc; abc] [] (Windows.boot bcrypt_empty []))
       = inr d.
Proof.
  apply (Windows_chunking_below_4GiB bcrypt_ref _ _ _ _ bcrypt_ref_contract).
  reflexivity.
Defined.

(** ** The published vectors for "abc" *)

(** X6.  With the reference libraries, every class returns the published digest
    of "abc", whether "abc" is appended or given to finalize. *)
Theorem abc_test_vectors indet c (s : Posix.St) (s' : Windows.St) :
  fst (Posix.compute evp_ref indet c [abc] [] s) = inr (digest_of_abc c)
  /\ fst (Posix.compute evp_ref indet c [] abc s) = inr (digest_of_abc c)
  /\ fst (Windows.compute bcrypt_ref c [abc] [] s') = inr (digest_of_abc c)
  /\ fst (Windows.compute bcrypt_ref c [] abc s') = inr (digest_of_abc c).
Proof.
  rewrite !(Posix_compute_digest _ _ _ indet evp_ref_contract).
  rewrite !(Windows_compute_digest _ _ _ _ _ bcrypt_ref_contract).
  cbn [concat map app]. rewrite ULONG_prefix_nil, !app_nil_r.
  rewrite (ULONG_prefix_small abc) by reflexivity.
  unfold evp_digest, bcrypt_digest. rewrite class_of_algorithm.
  replace (class_of_md (md_of c)) with c by now destruct c.
  rewrite SHA2_hash_abc. repeat split.
Qed.

Lemma SHA2_hash_two_blocks :
  SHA2.hash SHA256_class message_448 = sha256_of_message_448
  /\ SHA2.hash SHA384_class message_896 = sha384_of_message_896
  /\ SHA2.hash SHA512_class message_896 = sha512_of_message_896.
Proof. vm_compute. repeat split. Qed.

(** X7.  The published two-block examples: messages whose padding runs over
    into a second block, appended in two parts that do not fall on a block
    boundary, give the published digests. *)
Theorem two_block_test_vectors indet (s : Posix.St) (s' : Windows.St) :
  fst (Posix.compute evp_ref indet SHA256_class
         [take 13 message_448] (drop 13 message_448) s) = inr sha256_of_message_448
  /\ fst (Posix.compute evp_ref indet SHA384_class
            [take 100 message_896; drop 100 message_896] [] s) = inr sha384_of_message_896
  /\ fst (Windows.compute bcrypt_ref SHA512_class
            [take 1 message_896] (drop 1 message_896) s') = inr sha512_of_message_896.
Proof.
  destruct SHA2_hash_two_blocks as (H256 & H384 & H512).
  rewrite !(Posix_compute_digest _ _ _ indet evp_ref_contract).
  rewrite !(Windows_compute_digest _ _ _ _ _ bcrypt_ref_contract).
  unfold evp_digest, bcrypt_digest. rewrite class_of_algorithm. cbn [class_of_md md_of].
  cbn [concat map]. rewrite !ULONG_prefix_small by (vm_compute; reflexivity).
  rewrite !app_nil_r, !take_drop.
  rewrite H256, H384, H512. repeat split.
Qed.

Lemma Posix_lifetime_witness :
  let log := calls (snd (Posix.compute evp_ref stack_aa SHA256_class [abc] []
                           (Posix.boot evp_empty []))) in
  released_once EVP_effect log /\ leaked EVP_effect log = [].
Proof.
  apply (Posix_lifetime_releases_once evp_ref stack_aa SHA256_class [abc] [] evp_empty).
  vm_compute. reflexivity.
Defined.

Lemma Windows_lifetime_witness :
  let log := calls (snd (Windows.compute bcrypt_ref SHA256_class [abc] []
                           (Windows.boot bcrypt_empty []))) in
  released_once BCrypt_effect log /\ leaked BCrypt_effect log = [].
Proof.
  apply (Windows_lifetime_releases_once bcrypt_ref SHA256_class [abc] [] bcrypt_empty).
  vm_compute. reflexivity.
Defined.

(** ** Failed constructions, for any library *)

(** X8.  For any library: when [EVP_MD_CTX_new] returns a context and
    [EVP_DigestInit_ex] then fails, no instance is made, the two calls are
    all that happens, and the context stays acquired. *)
Theorem Posix_failed_init_leaks_context {W} (evp : EVP_API W) indet c chunks last w p w1 st w2 :
  EVP_MD_CTX_new evp w = (p, w1) -> p <> NULL ->
  EVP_DigestInit_ex evp p (md_of c) w1 = (st, w2) -> st <> 1%Z ->
  let r := Posix.compute evp indet c chunks last (Posix.boot w []) in
  raised (fst r)
  /\ calls (snd r) = [Call_EVP_MD_CTX_new p; Call_EVP_DigestInit_ex p (md_of c) st]
  /\ leaked EVP_effect (calls (snd r)) = [p]
  /\ world (snd r) = w2.
Proof.
  intros E1 Hp E2 Hst.
  assert (exists e, Posix.construct evp c (Posix.boot w [])
                    = (inl e, Machine {| Posix.m_context := p |} w2
                                [Call_EVP_MD_CTX_new p; Call_EVP_DigestInit_ex p (md_of c) st]))
    as [e E].
  { destruct c;
      unfold Posix.construct, Posix.SHA256, Posix.SHA384, Posix.SHA512,
        Posix.SHAWithOpenSSL_ctor, Posix.init_digest;
      unfold mbind, M_bind, bind, member, invoke, assign, throw, mret, M_ret, ret;
      cbn [Posix.boot world this calls]; rewrite E1; cbn;
      (destruct (decide (p = NULL)) as [D|_]; [contradiction|]);
      cbn in E2 |- *; rewrite E2; cbn;
      (destruct (decide (1%Z ≠ st)) as [_|n]; [|exfalso; apply n; congruence]);
      eexists; reflexivity. }
  cbv zeta. unfold Posix.compute. rewrite (lifetime_inl _ _ _ _ _ _ E).
  cbn [fst snd calls world raised]. repeat split.
  unfold leaked, acquired, released. cbn.
  destruct (decide (p = NULL)); [contradiction|reflexivity].
Qed.

Lemma Posix_failed_init_witness :
  let r := Posix.compute evp_no_digest stack_aa SHA512_class [abc] [] (Posix.boot evp_empty []) in
  raised (fst r)
  /\ calls (snd r) = [Call_EVP_MD_CTX_new 1; Call_EVP_DigestInit_ex 1 (md_of SHA512_class) 0%Z]
  /\ leaked EVP_effect (calls (snd r)) = [1]
  /\ world (snd r) = <[1 := md_new]> evp_empty.
Proof.
  apply (Posix_failed_init_leaks_context evp_no_digest stack_aa SHA512_class [abc] []
           evp_empty 1 (<[1 := md_new]> evp_empty) 0%Z (<[1 := md_new]> evp_empty)).
  - vm_compute. reflexivity.
  - discriminate.
  - reflexivity.
  - discriminate.
Defined.

(** X9.  For any library: when [BCryptOpenAlgorithmProvider] succeeds and the
    query of the object length then fails, no instance is made and the
    provider stays acquired. *)
Theorem Windows_failed_GetProperty_leaks_provider {W} (bcrypt : BCrypt_API W)
    c chunks last w st1 h w1 st2 ol w2 :
  BCryptOpenAlgorithmProvider bcrypt (Windows.algorithm c) w = ((st1, h), w1) ->
  (0 <= st1)%Z ->
  BCryptGetProperty bcrypt h BCRYPT_OBJECT_LENGTH w1 = ((st2, ol), w2) ->
  (st2 < 0)%Z ->
  let r := Windows.compute bcrypt c chunks last (Windows.boot w []) in
  fst r = inl (runtime_error "BCryptGetProperty failed")
  /\ calls (snd r) = [Call_BCryptOpenAlgorithmProvider (Windows.algorithm c) h st1;
                      Call_BCryptGetProperty h BCRYPT_OBJECT_LENGTH ol st2]
  /\ leaked BCrypt_effect (calls (snd r)) = [Provider h]
  /\ world (snd r) = w2.
Proof.
  intros E1 H1 E2 H2.
  assert (BCRYPT_SUCCESS st1 = true) as S1 by now apply Z.leb_le.
  assert (BCRYPT_SUCCESS st2 = false) as S2 by now apply Z.leb_gt.
  assert (Windows.construct bcrypt c (Windows.boot w [])
          = (inl (runtime_error "BCryptGetProperty failed"),
             Machine Windows.SHAWithBCrypt_members w2
               [Call_BCryptOpenAlgorithmProvider (Windows.algorithm c) h st1;
                Call_BCryptGetProperty h BCRYPT_OBJECT_LENGTH ol st2])) as E.
  { rewrite Windows_construct_ctor.
    unfold Windows.SHAWithBCrypt_ctor, local_object, Windows.AlgorithmProviderInstance_ctor.
    unfold mbind, M_bind, bind, member, invoke, assign, throw, mret, M_ret, ret.
    cbn [Windows.boot world this calls]. rewrite E1. cbn [fst snd this world calls].
    rewrite S1. cbn [fst snd this world calls negb]. rewrite E2.
    cbn [fst snd this world calls]. rewrite S2. reflexivity. }
  cbv zeta. unfold Windows.compute. rewrite (lifetime_inl _ _ _ _ _ _ E).
  cbn [fst snd calls world]. repeat split.
  unfold leaked, acquired, released. cbn. rewrite S1. reflexivity.
Qed.

Lemma Windows_failed_GetProperty_witness :
  let r := Windows.compute bcrypt_no_property SHA384_class [] abc (Windows.boot bcrypt_empty []) in
  fst r = inl (runtime_error "BCryptGetProperty failed")
  /\ calls (snd r) = [Call_BCryptOpenAlgorithmProvider (Windows.algorithm SHA384_class) 1
                        STATUS_SUCCESS;
                      Call_BCryptGetProperty 1 BCRYPT_OBJECT_LENGTH 0 STATUS_NOT_SUPPORTED]
  /\ leaked BCrypt_effect (calls (snd r)) = [Provider 1]
  /\ world (snd r) = {| providers := <[1 := SHA384_class]> ∅; hash_objects := ∅ |}.
Proof.
  apply (Windows_failed_GetProperty_leaks_provider bcrypt_no_property SHA384_class [] abc
           bcrypt_empty STATUS_SUCCESS 1
           {| providers := <[1 := SHA384_class]> ∅; hash_objects := ∅ |}
           STATUS_NOT_SUPPORTED 0
           {| providers := <[1 := SHA384_class]> ∅; hash_objects := ∅ |}).
  - vm_compute. reflexivity.
  - vm_compute. discriminate.
  - reflexivity.
  - reflexivity.
Defined.

(** ** Further failed constructions, for any library *)

(** X10.  For any library: when [EVP_MD_CTX_new] returns [NULL], no instance
    is made; the constructor throws its own error, this one call is all that
    happens ([EVP_DigestInit_ex] and [EVP_MD_CTX_free] are not called on the
    null context), and nothing was acquired. *)
Theorem Posix_no_context_no_instance {W} (evp : EVP_API W) indet c chunks last w w1 :
  EVP_MD_CTX_new evp w = (NULL, w1) ->
  let r := Posix.compute evp indet c chunks last (Posix.boot w []) in
  fst r = inl (runtime_error "Crypto error while creating EVP context.")
  /\ calls (snd r) = [Call_EVP_MD_CTX_new NULL]
  /\ acquired EVP_effect (calls (snd r)) = []
  /\ released EVP_effect (calls (snd r)) = []
  /\ world (snd r) = w1.
Proof.
  intros E1.
  assert (Posix.construct evp c (Posix.boot w [])
          = (inl (runtime_error "Crypto error while creating EVP context."),
             Machine {| Posix.m_context := NULL |} w1 [Call_EVP_MD_CTX_new NULL])) as E.
  { destruct c;
      unfold Posix.construct, Posix.SHA256, Posix.SHA384, Posix.SHA512,
        Posix.SHAWithOpenSSL_ctor;
      unfold mbind, M_bind, bind, member, invoke, assign, throw, mret, M_ret, ret;
      cbn [Posix.boot world this calls]; rewrite E1; cbn;
      (destruct (decide (NULL = NULL)) as [_|D]; [|contradiction]); reflexivity. }
  cbv zeta. unfold Posix.compute. rewrite (lifetime_inl _ _ _ _ _ _ E).
  cbn [fst snd calls world]. repeat split.
Qed.

Lemma Posix_no_context_witness :
  let r := Posix.compute evp_no_memory stack_aa SHA384_class [abc] abc (Posix.boot evp_empty []) in
  fst r = inl (runtime_error "Crypto error while creating EVP context.")
  /\ calls (snd r) = [Call_EVP_MD_CTX_new NULL]
  /\ acquired EVP_effect (calls (snd r)) = []
  /\ released EVP_effect (calls (snd r)) = []
  /\ world (snd r) = evp_empty.
Proof.
  apply (Posix_no_context_no_instance evp_no_memory stack_aa SHA384_class [abc] abc
           evp_empty evp_empty).
  reflexivity.
Defined.

(** X11.  For any library: when [BCryptOpenAlgorithmProvider] fails, no
    instance is made, the failed call is the only one (no property is
    queried on the handle it left, and the handle is not closed), and nothing
    was acquired. *)
Theorem Windows_failed_open_acquires_nothing {W} (bcrypt : BCrypt_API W)
    c chunks last w st1 h w1 :
  BCryptOpenAlgorithmProvider bcrypt (Windows.algorithm c) w = ((st1, h), w1) ->
  (st1 < 0)%Z ->
  let r := Windows.compute bcrypt c chunks last (Windows.boot w []) in
  fst r = inl (runtime_error "BCryptOpenAlgorithmProvider failed")
  /\ calls (snd r) = [Call_BCryptOpenAlgorithmProvider (Windows.algorithm c) h st1]
  /\ acquired BCrypt_effect (calls (snd r)) = []
  /\ released BCrypt_effect (calls (snd r)) = []
  /\ world (snd r) = w1.
Proof.
  intros E1 H1.
  assert (BCRYPT_SUCCESS st1 = false) as S1 by now apply Z.leb_gt.
  assert (Windows.construct bcrypt c (Windows.boot w [])
          = (inl (runtime_error "BCryptOpenAlgorithmProvider failed"),
             Machine Windows.SHAWithBCrypt_members w1
               [Call_BCryptOpenAlgorithmProvider (Windows.algorithm c) h st1])) as E.
  { rewrite Windows_construct_ctor.
    unfold Windows.SHAWithBCrypt_ctor, local_object, Windows.AlgorithmProviderInstance_ctor.
    unfold mbind, M_bind, bind, member, invoke, assign, throw, mret, M_ret, ret.
    cbn [Windows.boot world this calls]. rewrite E1. cbn [fst snd this world calls].
    rewrite S1. reflexivity. }
  cbv zeta. unfold Windows.compute. rewrite (lifetime_inl _ _ _ _ _ _ E).
  cbn [fst snd calls world]. repeat split.
  - unfold acquired. cbn. rewrite S1. reflexivity.
  - unfold released. cbn. rewrite S1. reflexivity.
Qed.

Lemma Windows_failed_open_witness :
  let r := Windows.compute bcrypt_no_provider SHA512_class [abc] [] (Windows.boot bcrypt_empty []) in
  fst r = inl (runtime_error "BCryptOpenAlgorithmProvider failed")
  /\ calls (snd r) = [Call_BCryptOpenAlgorithmProvider (Windows.algorithm SHA512_class) NULL
                        STATUS_NOT_FOUND]
  /\ acquired BCrypt_effect (calls (snd r)) = []
  /\ released BCrypt_effect (calls (snd r)) = []
  /\ world (snd r) = bcrypt_empty.
Proof.
  apply (Windows_failed_open_acquires_nothing bcrypt_no_provider SHA512_class [abc] []
           bcrypt_empty STATUS_NOT_FOUND NULL bcrypt_empty).
  - reflexivity.
  - reflexivity.
Defined.

(** X12.  For any library: when the provider is open, the object length was
    read and the query of the hash length then fails, no instance is made,
    the error text is that of the first query, no hash object is created, and
    the provider stays acquired. *)
Theorem Windows_failed_hash_length_leaks_provider {W} (bcrypt : BCrypt_API W)
    c chunks last w st1 h w1 st2 ol w2 st3 hl w3 :
  BCryptOpenAlgorithmProvider bcrypt (Windows.algorithm c) w = ((st1, h), w1) ->
  (0 <= st1)%Z ->
  BCryptGetProperty bcrypt h BCRYPT_OBJECT_LENGTH w1 = ((st2, ol), w2) ->
  (0 <= st2)%Z ->
  BCryptGetProperty bcrypt h BCRYPT_HASH_LENGTH w2 = ((st3, hl), w3) ->
  (st3 < 0)%Z ->
  let r := Windows.compute bcrypt c chunks last (Windows.boot w []) in
  fst r = inl (runtime_error "BCryptGetProperty failed")
  /\ calls (snd r) = [Call_BCryptOpenAlgorithmProvider (Windows.algorithm c) h st1;
                      Call_BCryptGetProperty h BCRYPT_OBJECT_LENGTH ol st2;
                      Call_BCryptGetProperty h BCRYPT_HASH_LENGTH hl st3]
  /\ leaked BCrypt_effect (calls (snd r)) = [Provider h]
  /\ world (snd r) = w3.
Proof.
  intros E1 H1 E2 H2 E3 H3.
  assert (BCRYPT_SUCCESS st1 = true) as S1 by now apply Z.leb_le.
  assert (BCRYPT_SUCCESS st2 = true) as S2 by now apply Z.leb_le.
  assert (BCRYPT_SUCCESS st3 = false) as S3 by now apply Z.leb_gt.
  assert (Windows.construct bcrypt c (Windows.boot w [])
          = (inl (runtime_error "BCryptGetProperty failed"),
             Machine Windows.SHAWithBCrypt_members w3
               [Call_BCryptOpenAlgorithmProvider (Windows.algorithm c) h st1;
                Call_BCryptGetProperty h BCRYPT_OBJECT_LENGTH ol st2;
                Call_BCryptGetProperty h BCRYPT_HASH_LENGTH hl st3])) as E.
  { rewrite Windows_construct_ctor.
    unfold Windows.SHAWithBCrypt_ctor, local_object, Windows.AlgorithmProviderInstance_ctor.
    unfold mbind, M_bind, bind, member, invoke, assign, throw, mret, M_ret, ret.
    cbn [Windows.boot world this calls]. rewrite E1. cbn [fst snd this world calls].
    rewrite S1. cbn [fst snd this world calls negb]. rewrite E2.
    cbn [fst snd this world calls]. rewrite S2. cbn [fst snd this world calls negb].
    rewrite E3. cbn [fst snd this world calls]. rewrite S3. cbn [negb].
    rewrite <- !app_assoc. reflexivity. }
  cbv zeta. unfold Windows.compute. rewrite (lifetime_inl _ _ _ _ _ _ E).
  cbn [fst snd calls world]. repeat split.
  unfold leaked, acquired, released. cbn. rewrite S1. reflexivity.
Qed.

Lemma Windows_failed_hash_length_witness :
  let r := Windows.compute bcrypt_no_hash_length SHA256_class [] abc (Windows.boot bcrypt_empty []) in
  fst r = inl (runtime_error "BCryptGetProperty failed")
  /\ calls (snd r) = [Call_BCryptOpenAlgorithmProvider (Windows.algorithm SHA256_class) 1
                        STATUS_SUCCESS;
                      Call_BCryptGetProperty 1 BCRYPT_OBJECT_LENGTH 104 STATUS_SUCCESS;
                      Call_BCryptGetProperty 1 BCRYPT_HASH_LENGTH 0 STATUS_NOT_SUPPORTED]
  /\ leaked BCrypt_effect (calls (snd r)) = [Provider 1]
  /\ world (snd r) = {| providers := <[1 := SHA256_class]> ∅; hash_objects := ∅ |}.
Proof.
  apply (Windows_failed_hash_length_leaks_provider bcrypt_no_hash_length SHA256_class [] abc
           bcrypt_empty STATUS_SUCCESS 1
           {| providers := <[1 := SHA256_class]> ∅; hash_objects := ∅ |}
           STATUS_SUCCESS 104
           {| providers := <[1 := SHA256_class]> ∅; hash_objects := ∅ |}
           STATUS_NOT_SUPPORTED 0
           {| providers := <[1 := SHA256_class]> ∅; hash_objects := ∅ |}).
  - vm_compute. reflexivity.
  - vm_compute. discriminate.
  - vm_compute. reflexivity.
  - vm_compute. discriminate.
  - vm_compute. reflexivity.
  - reflexivity.
Defined.

(** ** The calls of a complete use *)

(** A run of appends forwards the chunks one by one, in order, to the context
    of the instance, and stops at the first update that fails. *)
Lemma Posix_appends_trace {W} (evp : EVP_API W) chunks (s : Posix.St) :
  let p := Posix.m_context (this s) in
  let r := Posix.appends evp chunks s in
  this (snd r) = this s
  /\ ((fst r = inr tt
       /\ calls (snd r) = calls s ++ map (fun d => update_call p d 1%Z) chunks)
      \/ (exists done d rest st,
            chunks = done ++ d :: rest /\ st <> 1%Z
            /\ fst r = inl (runtime_error "Crypto error while updating SHA256.")
            /\ calls (snd r)
               = calls s ++ map (fun d => update_call p d 1%Z) done ++ [update_call p d st])).
Proof.
  revert s. induction chunks as [|d chunks IH]; intros s; cbv zeta.
  - split; [reflexivity|]. left. cbn. now rewrite app_nil_r.
  - cbn [Posix.appends]. pose proof (Posix_OnAppend_unfold evp s d) as HA.
    destruct (decide (1%Z ≠ _)) as [n|n] in HA.
    + rewrite (bind_inl _ _ _ _ _ HA). cbn [fst snd this calls]. split; [reflexivity|].
      right. exists [], d, chunks. eexists. split; [reflexivity|].
      split; [intros E; apply n; symmetry; exact E|]. split; reflexivity.
    + apply dec_stable in n. rewrite <- n in HA.
      rewrite (bind_inr _ _ _ _ _ HA).
      match type of HA with _ = (_, ?s1) => specialize (IH s1) end.
      cbv zeta in IH. cbn [this calls] in IH. destruct IH as [T [[E C]|(done & d' & rest & st & -> & Hst & E & C)]].
      * split; [exact T|]. left. split; [exact E|]. rewrite C, <- app_assoc. reflexivity.
      * split; [exact T|]. right. exists (d :: done), d', rest, st.
        split; [reflexivity|]. split; [exact Hst|]. split; [exact E|].
        rewrite C, <- app_assoc. reflexivity.
Qed.

(** X13.  What a complete use of a constructed [SHAWithOpenSSL] says to the
    library, for any library: one context [p], which is not null; the digest
    of the class set up on it; then each chunk, in the order given and with
    its full length, as one [EVP_DigestUpdate] on [p], the last chunk being
    one more; then [EVP_DigestFinal] on [p]; then [EVP_MD_CTX_free] of [p].
    The first update that fails ends the sequence: the chunks after it are not
    passed on, no digest is asked for, and [p] is freed. *)
Theorem Posix_complete_use_call_sequence {W} (evp : EVP_API W) indet c chunks last w :
  fst (Posix.construct evp c (Posix.boot w [])) = inr tt ->
  let r := Posix.compute evp indet c chunks last (Posix.boot w []) in
  exists p,
    p <> NULL
    /\ ((exists st,
           calls (snd r)
           = [Call_EVP_MD_CTX_new p; Call_EVP_DigestInit_ex p (md_of c) 1%Z]
             ++ map (fun d => update_call p d 1%Z) (chunks ++ [last])
             ++ [Call_EVP_DigestFinal p st; Call_EVP_MD_CTX_free p]
           /\ (raised (fst r) <-> st <> 1%Z))
        \/ (exists done d rest st,
              chunks ++ [last] = done ++ d :: rest /\ st <> 1%Z
              /\ fst r = inl (runtime_error "Crypto error while updating SHA256.")
              /\ calls (snd r)
                 = [Call_EVP_MD_CTX_new p; Call_EVP_DigestInit_ex p (md_of c) 1%Z]
                   ++ map (fun d => update_call p d 1%Z) done
                   ++ [update_call p d st; Call_EVP_MD_CTX_free p])).
Proof.
  intros H. destruct (Posix.construct evp c (Posix.boot w [])) as [r1 s1] eqn:E1.
  cbn in H. subst r1.
  destruct (Posix_construct_inr _ _ _ _ E1) as (p & w1 & w2 & _ & Hp & _ & Es1).
  cbv zeta. exists p. split; [exact Hp|].
  unfold Posix.compute. rewrite (lifetime_inr _ _ _ _ _ E1), Posix_dtor_unfold.
  cbn [fst snd calls].
  destruct (Posix_appends_trace evp chunks s1) as [T2 H2].
  assert (Posix.m_context (this s1) = p) as P1 by now rewrite Es1.
  assert (calls s1 = [Call_EVP_MD_CTX_new p; Call_EVP_DigestInit_ex p (md_of c) 1%Z]) as C1
    by now rewrite Es1.
  rewrite P1, C1 in H2. clear Es1 E1.
  destruct (Posix.appends evp chunks s1) as [r2 s2] eqn:E2. cbn [fst snd] in T2, H2.
  destruct H2 as [[-> C2]|(done & d & rest & st & -> & Hst & -> & C2)].
  - rewrite (bind_inr _ _ _ _ _ E2).
    destruct (Posix_OnFinal_cases evp indet s2 last) as [Hbad Hgood].
    unfold Posix.St in *. rewrite T2, P1 in Hbad, Hgood.
    destruct (decide (fst (EVP_DigestUpdate evp p last (N.of_nat (length last)) (world s2)) = 1%Z))
      as [Hu|Hu].
    + left. rewrite (Hgood Hu). cbn [fst snd this calls]. rewrite C2, Hu, P1.
      eexists. split.
      * rewrite map_app. cbn [map]. unfold update_call. rewrite <- !app_assoc. reflexivity.
      * destruct (decide (1%Z ≠ _)) as [n|n]; cbn; [|apply dec_stable in n]; intuition congruence.
    + right. rewrite (Hbad Hu). cbn [fst snd this calls]. rewrite C2, P1.
      exists chunks, last, []. eexists. split; [reflexivity|]. split; [exact Hu|].
      split; [reflexivity|]. unfold update_call. rewrite <- !app_assoc. reflexivity.
  - rewrite (bind_inl _ _ _ _ _ E2). cbn [fst snd]. unfold Posix.St in *. rewrite T2, P1, C2.
    right. exists done, d, (rest ++ [last]), st. split; [now rewrite <- app_assoc|].
    split; [exact Hst|]. split; [reflexivity|]. rewrite <- !app_assoc. reflexivity.
Qed.

Lemma Posix_complete_use_witness :
  let r := Posix.compute evp_ref stack_aa SHA256_class [abc; []] abc (Posix.boot evp_empty []) in
  exists p,
    p <> NULL
    /\ ((exists st,
           calls (snd r)
           = [Call_EVP_MD_CTX_new p; Call_EVP_DigestInit_ex p (md_of SHA256_class) 1%Z]
             ++ map (fun d => update_call p d 1%Z) ([abc; []] ++ [abc])
             ++ [Call_EVP_DigestFinal p st; Call_EVP_MD_CTX_free p]
           /\ (raised (fst r) <-> st <> 1%Z))
        \/ (exists done d rest st,
              [abc; []] ++ [abc] = done ++ d :: rest /\ st <> 1%Z
              /\ fst r = inl (runtime_error "Crypto error while updating SHA256.")
              /\ calls (snd r)
                 = [Call_EVP_MD_CTX_new p; Call_EVP_DigestInit_ex p (md_of SHA256_class) 1%Z]
                   ++ map (fun d => update_call p d 1%Z) done
                   ++ [update_call p d st; Call_EVP_MD_CTX_free p])).
Proof.
  apply (Posix_complete_use_call_sequence evp_ref stack_aa SHA256_class [abc; []] abc evp_empty).
  vm_compute. reflexivity.
Defined.

Lemma Windows_appends_trace {W} (bcrypt : BCrypt_API W) chunks (s : Windows.St) :
  let h := Windows.m_hashHandle (this s) in
  let r := Windows.appends bcrypt chunks s in
  this (snd r) = this s
  /\ ((fst r = inr tt
       /\ exists mid, calls (snd r) = calls s ++ mid /\ Forall2 (accepted h) chunks mid)
      \/ (exists done d rest st mid,
            chunks = done ++ d :: rest /\ (st < 0)%Z
            /\ fst r = inl (runtime_error "BCryptHashData failed")
            /\ calls (snd r) = calls s ++ mid ++ [hash_data_call h d st]
            /\ Forall2 (accepted h) done mid)).
Proof.
  revert s. induction chunks as [|d chunks IH]; intros s; cbv zeta.
  - split; [reflexivity|]. left. split; [reflexivity|]. exists []. cbn.
    rewrite app_nil_r. split; [reflexivity|constructor].
  - cbn [Windows.appends]. pose proof (Windows_OnAppend_unfold bcrypt s d) as HA.
    destruct (negb (BCRYPT_SUCCESS _)) eqn:S in HA.
    + apply BCRYPT_SUCCESS_false in S.
      rewrite (bind_inl _ _ _ _ _ HA). cbn [fst snd this calls]. split; [reflexivity|].
      right. exists [], d, chunks. eexists. exists []. split; [reflexivity|].
      split; [exact S|]. split; [reflexivity|]. split; [reflexivity|constructor].
    + apply negb_false_iff, Z.leb_le in S.
      rewrite (bind_inr _ _ _ _ _ HA).
      match type of HA with _ = (_, ?s1) => specialize (IH s1) end.
      cbv zeta in IH. cbn [this calls] in IH.
      destruct IH as [T [[E (mid & C & F)]|(done & d' & rest & st & mid & -> & Hst & E & C & F)]].
      * split; [exact T|]. left. split; [exact E|]. eexists (_ :: mid).
        split; [rewrite C, <- app_assoc; reflexivity|].
        constructor; [|exact F]. eexists. split; [exact S|reflexivity].
      * split; [exact T|]. right. exists (d :: done), d', rest, st. eexists (_ :: mid).
        split; [reflexivity|]. split; [exact Hst|]. split; [exact E|].
        split; [rewrite C, <- app_assoc; reflexivity|].
        constructor; [|exact F]. eexists. split; [exact S|reflexivity].
Qed.

(** X14.  What a complete use of a constructed [SHAWithBCrypt] says to the
    library, for any library: the provider of the class is opened, its two
    lengths are read, a hash object is created with a buffer of the object
    length, and the provider is closed before any data is hashed; then each
    chunk, in order, is one [BCryptHashData] on the hash object with the low
    32 bits of its length; then [BCryptFinishHash] with the hash length that
    was read; then [BCryptDestroyHash].  The first failing
    [BCryptHashData] ends the sequence, and the hash object is destroyed. *)
Theorem Windows_complete_use_call_sequence {W} (bcrypt : BCrypt_API W) c chunks last w :
  fst (Windows.construct bcrypt c (Windows.boot w [])) = inr tt ->
  let r := Windows.compute bcrypt c chunks last (Windows.boot w []) in
  exists h hh ol hl st1 st2 st3 st4 mid,
    ((0 <= st1)%Z /\ (0 <= st2)%Z /\ (0 <= st3)%Z /\ (0 <= st4)%Z)
    /\ let opening :=
         [Call_BCryptOpenAlgorithmProvider (Windows.algorithm c) h st1;
          Call_BCryptGetProperty h BCRYPT_OBJECT_LENGTH ol st2;
          Call_BCryptGetProperty h BCRYPT_HASH_LENGTH hl st3;
          Call_BCryptCreateHash h (ULONG_cast ol) hh st4;
          Call_BCryptCloseAlgorithmProvider h] in
       (exists st,
          calls (snd r)
          = opening ++ mid ++ [Call_BCryptFinishHash hh (ULONG_cast hl) st;
                               Call_BCryptDestroyHash hh]
          /\ Forall2 (accepted hh) (chunks ++ [last]) mid
          /\ (raised (fst r) <-> (st < 0)%Z))
       \/ (exists done d rest st,
             chunks ++ [last] = done ++ d :: rest /\ (st < 0)%Z
             /\ fst r = inl (runtime_error "BCryptHashData failed")
             /\ calls (snd r)
                = opening ++ mid ++ [hash_data_call hh d st; Call_BCryptDestroyHash hh]
             /\ Forall2 (accepted hh) done mid).
Proof.
  intros H. destruct (Windows.construct bcrypt c (Windows.boot w [])) as [r1 s1] eqn:E1.
  cbn in H. subst r1. pose proof E1 as E1'. rewrite Windows_construct_ctor in E1'.
  destruct (Windows_ctor_inr _ _ _ _ E1')
    as (st1 & h & w1 & st2 & ol & w2 & st3 & hl & w3 & st4 & hh & w4
        & _ & _ & _ & _ & S1 & S2 & S3 & S4 & Es1).
  rewrite repeat_length, N2Nat.id in Es1. cbn [Windows.boot calls app] in Es1.
  apply Z.leb_le in S1, S2, S3, S4.
  assert (Windows.m_hashHandle (this s1) = hh) as P1 by now rewrite Es1.
  assert (Windows.m_hashLength (this s1) = hl) as L1 by now rewrite Es1.
  assert (calls s1 = [Call_BCryptOpenAlgorithmProvider (Windows.algorithm c) h st1;
                      Call_BCryptGetProperty h BCRYPT_OBJECT_LENGTH ol st2;
                      Call_BCryptGetProperty h BCRYPT_HASH_LENGTH hl st3;
                      Call_BCryptCreateHash h (ULONG_cast ol) hh st4;
                      Call_BCryptCloseAlgorithmProvider h]) as C1 by now rewrite Es1.
  clear Es1 E1'.
  cbv zeta. unfold Windows.compute. rewrite (lifetime_inr _ _ _ _ _ E1), Windows_dtor_unfold.
  cbn [fst snd calls].
  destruct (Windows_appends_trace bcrypt chunks s1) as [T2 H2]. rewrite P1, C1 in H2.
  destruct (Windows.appends bcrypt chunks s1) as [r2 s2] eqn:E2. cbn [fst snd] in T2, H2.
  exists h, hh, ol, hl, st1, st2, st3, st4.
  destruct H2 as [[-> (mid & C2 & F2)]|(done & d & rest & st & mid & -> & Hst & -> & C2 & F2)].
  - rewrite (bind_inr _ _ _ _ _ E2).
    destruct (Windows_OnFinal_cases bcrypt s2 last) as [Hbad Hgood].
    unfold Windows.St in *. rewrite T2, P1 in Hbad, Hgood. rewrite L1, repeat_length, N2Nat.id in Hgood.
    destruct (Z.lt_ge_cases
                (fst (BCryptHashData bcrypt hh last (ULONG_cast (N.of_nat (length last)))
                        (world s2))) 0) as [Hu|Hu].
    + exists mid. split; [auto|]. right. rewrite (Hbad Hu). cbn [fst snd this calls].
      rewrite C2, P1. exists chunks, last, []. eexists. split; [reflexivity|].
      split; [exact Hu|]. split; [reflexivity|]. split; [|exact F2].
      unfold hash_data_call. rewrite <- !app_assoc. reflexivity.
    + eexists (mid ++ [_]). split; [auto|]. left. rewrite (Hgood Hu).
      cbn [fst snd this calls]. rewrite C2, P1. eexists. split; [|split].
      * rewrite <- !app_assoc. reflexivity.
      * apply Forall2_app; [exact F2|]. constructor; [|constructor].
        eexists. split; [exact Hu|reflexivity].
      * destruct (negb (BCRYPT_SUCCESS _)) eqn:E; cbn.
        -- apply BCRYPT_SUCCESS_false in E. intuition.
        -- apply negb_false_iff, Z.leb_le in E. intuition lia.
  - rewrite (bind_inl _ _ _ _ _ E2). cbn [fst snd]. unfold Windows.St in *. rewrite T2, P1, C2.
    exists mid. split; [auto|]. right. exists done, d, (rest ++ [last]), st.
    split; [now rewrite <- app_assoc|]. split; [exact Hst|]. split; [reflexivity|].
    split; [|exact F2]. rewrite <- !app_assoc. reflexivity.
Qed.

Lemma Windows_complete_use_witness :
  let r := Windows.compute bcrypt_ref SHA256_class [abc; []] abc (Windows.boot bcrypt_empty []) in
  exists h hh ol hl st1 st2 st3 st4 mid,
    ((0 <= st1)%Z /\ (0 <= st2)%Z /\ (0 <= st3)%Z /\ (0 <= st4)%Z)
    /\ let opening :=
         [Call_BCryptOpenAlgorithmProvider (Windows.algorithm SHA256_class) h st1;
          Call_BCryptGetProperty h BCRYPT_OBJECT_LENGTH ol st2;
          Call_BCryptGetProperty h BCRYPT_HASH_LENGTH hl st3;
          Call_BCryptCreateHash h (ULONG_cast ol) hh st4;
          Call_BCryptCloseAlgorithmProvider h] in
       (exists st,
          calls (snd r)
          = opening ++ mid ++ [Call_BCryptFinishHash hh (ULONG_cast hl) st;
                               Call_BCryptDestroyHash hh]
          /\ Forall2 (accepted hh) ([abc; []] ++ [abc]) mid
          /\ (raised (fst r) <-> (st < 0)%Z))
       \/ (exists done d rest st,
             [abc; []] ++ [abc] = done ++ d :: rest /\ (st < 0)%Z
             /\ fst r = inl (runtime_error "BCryptHashData failed")
             /\ calls (snd r)
                = opening ++ mid ++ [hash_data_call hh d st; Call_BCryptDestroyHash hh]
             /\ Forall2 (accepted hh) done mid).
Proof.
  apply (Windows_complete_use_call_sequence bcrypt_ref SHA256_class [abc; []] abc bcrypt_empty).
  vm_compute. reflexivity.
Defined.

(** ** What finalize returns, for any library *)

Lemma drop_repeat {A} (x : A) k n : drop k (repeat x n) = repeat x (n - k).
Proof.
  revert k. induction n as [|n IH]; intros [|k]; cbn; try reflexivity. apply IH.
Qed.

Lemma poke_short written buf :
  (length written <= length buf)%nat ->
  poke written buf = written ++ drop (length written) buf.
Proof. intros H. unfold poke. now rewrite take_ge by lia. Qed.

(** X15.  The digest a successful [OnFinal] of [SHAWithOpenSSL] returns is
    the first [size] bytes of the stack buffer, where [size] is what
    [EVP_DigestFinal] stored: as long as this is within the buffer, the
    result has exactly that length; it is what the library wrote when the
    library wrote that much; and when the library wrote less than it
    reports, the rest of the result is what the stack held before. *)
Theorem Posix_OnFinal_returns_the_reported_size {W} (evp : EVP_API W) indet
    (s s' : Posix.St) data d :
  Posix.OnFinal evp indet data s = (inr d, s') ->
  let ctx := Posix.m_context (this s) in
  let u := EVP_DigestUpdate evp ctx data (N.of_nat (length data)) (world s) in
  let f := fst (EVP_DigestFinal evp ctx (snd u)) in
  let md := snd (fst f) in
  let size := N.to_nat (snd f) in
  ((size <= EVP_MAX_MD_SIZE)%nat -> length d = size)
  /\ ((size <= length md <= EVP_MAX_MD_SIZE)%nat -> d = take size md)
  /\ ((length md <= size <= EVP_MAX_MD_SIZE)%nat ->
      d = md ++ map indet (seq (length md) (size - length md))).
Proof.
  intros H ctx u f md size.
  destruct (Posix_OnFinal_cases evp indet s data) as [Hbad Hgood].
  fold ctx in Hbad, Hgood. fold u in Hbad, Hgood.
  destruct (decide (fst u = 1%Z)) as [Hu|Hu]; [|rewrite (Hbad Hu) in H; discriminate H].
  rewrite (Hgood Hu) in H. clear Hbad Hgood.
  fold f in H. fold md in H. fold size in H.
  remember (map indet (seq 0 EVP_MAX_MD_SIZE)) as finalHash eqn:Ebuf.
  assert (length finalHash = EVP_MAX_MD_SIZE) as L
    by now rewrite Ebuf, length_map, length_seq.
  destruct (decide (1%Z ≠ _)) in H; [discriminate H|].
  injection H as <- _.
  split; [|split].
  - intros Hs. rewrite length_take, length_poke, L. lia.
  - intros [Hs Hm]. rewrite poke_short by lia. rewrite take_app_le by lia. reflexivity.
  - intros [Hm Hs]. rewrite poke_short by lia. rewrite take_app_ge by lia.
    f_equal. rewrite Ebuf. unfold EVP_MAX_MD_SIZE in *.
    change (take (size - length md) (drop (length md) (indet <$> seq 0 64))
            = indet <$> seq (length md) (size - length md)).
    rewrite <- fmap_drop, <- fmap_take, drop_seq, take_seq.
    cbn [Nat.add]. f_equal. f_equal. lia.
Qed.

Lemma Posix_OnFinal_reported_size_witness :
  let md : list byte := [] in
  let size := 8%nat in
  let d := repeat xaa 8 in
  ((size <= EVP_MAX_MD_SIZE)%nat -> length d = size)
  /\ ((size <= length md <= EVP_MAX_MD_SIZE)%nat -> d = take size md)
  /\ ((length md <= size <= EVP_MAX_MD_SIZE)%nat ->
      d = md ++ map stack_aa (seq (length md) (size - length md))).
Proof.
  apply (Posix_OnFinal_returns_the_reported_size evp_writes_nothing stack_aa
           (snd (Posix.construct evp_writes_nothing SHA256_class (Posix.boot evp_empty [])))
           (snd (Posix.OnFinal evp_writes_nothing stack_aa abc
                   (snd (Posix.construct evp_writes_nothing SHA256_class
                           (Posix.boot evp_empty [])))))
           abc (repeat xaa 8)).
  vm_compute. reflexivity.
Defined.

(** X16.  The digest a successful [OnFinal] of [SHAWithBCrypt] returns is
    what [BCryptFinishHash] wrote, followed by zero bytes up to
    [m_hashLength]: the vector is zero-filled before the call, so no byte of
    the result is indeterminate. *)
Theorem Windows_OnFinal_pads_with_zeros {W} (bcrypt : BCrypt_API W)
    (s s' : Windows.St) data d :
  Windows.OnFinal bcrypt data s = (inr d, s') ->
  let h := Windows.m_hashHandle (this s) in
  let n := Windows.m_hashLength (this s) in
  let u := BCryptHashData bcrypt h data (ULONG_cast (N.of_nat (length data))) (world s) in
  let out := snd (fst (BCryptFinishHash bcrypt h (ULONG_cast n) (snd u))) in
  (length out <= N.to_nat n)%nat ->
  d = out ++ repeat x00 (N.to_nat n - length out).
Proof.
  intros H h n u out Hout.
  destruct (Windows_OnFinal_cases bcrypt s data) as [Hbad Hgood].
  fold h in Hbad, Hgood. fold u in Hbad, Hgood. fold n in Hgood.
  rewrite repeat_length, N2Nat.id in Hgood.
  destruct (Z.lt_ge_cases (fst u) 0) as [Hu|Hu]; [rewrite (Hbad Hu) in H; discriminate H|].
  rewrite (Hgood Hu) in H. clear Hbad Hgood.
  destruct (negb (BCRYPT_SUCCESS _)) in H; [discriminate H|].
  injection H as <- _. fold out.
  rewrite poke_short by now rewrite repeat_length. now rewrite drop_repeat.
Qed.

Lemma Windows_OnFinal_pads_witness :
  let s := snd (Windows.construct bcrypt_short_write SHA256_class (Windows.boot bcrypt_empty [])) in
  let written := [xba; x78; x16; xbf] in
  fst (Windows.OnFinal bcrypt_short_write abc s) = inr (written ++ repeat x00 28)
  /\ (length written <= N.to_nat (Windows.m_hashLength (this s)))%nat
  /\ written ++ repeat x00 28
     = written ++ repeat x00 (N.to_nat (Windows.m_hashLength (this s)) - length written).
Proof.
  split; [vm_compute; reflexivity|]. split; [vm_compute; lia|].
  apply (Windows_OnFinal_pads_with_zeros bcrypt_short_write
           (snd (Windows.construct bcrypt_short_write SHA256_class (Windows.boot bcrypt_empty [])))
           (snd (Windows.OnFinal bcrypt_short_write abc
                   (snd (Windows.construct bcrypt_short_write SHA256_class
                           (Windows.boot bcrypt_empty [])))))
           abc ([xba; x78; x16; xbf] ++ repeat x00 28)).
  - vm_compute. reflexivity.
  - vm_compute. lia.
Defined.

(** ** Instances side by side *)

Section PosixFrame.
Context {W : Type} (evp : EVP_API W).
Context (holds : W -> ptr -> EVP_view -> Prop).
Context (indet : nat -> byte).
Hypothesis frame : EVP_frame evp holds.

(** What another instance does leaves the context [q] as it is. *)
Local Abbreviation kept q v s := (holds (world s) q v).

Lemma Posix_OnAppend_frame (s : Posix.St) d q v :
  q <> Posix.m_context (this s) -> kept q v s -> kept q v (snd (Posix.OnAppend evp d s)).
Proof.
  intros Hq H. rewrite Posix_OnAppend_unfold. cbn [snd world].
  now apply (frame_update _ _ frame).
Qed.

Lemma Posix_appends_frame chunks (s : Posix.St) q v :
  q <> Posix.m_context (this s) -> kept q v s ->
  kept q v (snd (Posix.appends evp chunks s))
  /\ this (snd (Posix.appends evp chunks s)) = this s.
Proof.
  revert s. induction chunks as [|d chunks IH]; intros s Hq H; [split; [exact H|reflexivity]|].
  cbn [Posix.appends]. unfold mbind, M_bind, bind.
  pose proof (Posix_OnAppend_frame s d q v Hq H) as H1.
  pose proof (Posix_OnAppend_this evp s d) as T1.
  destruct (Posix.OnAppend evp d s) as [[e|[]] s1]; cbn [snd] in *; [split; assumption|].
  destruct (IH s1) as [H2 T2]; [now rewrite T1|exact H1|].
  split; [exact H2|congruence].
Qed.

Lemma Posix_OnFinal_frame (s : Posix.St) d q v :
  q <> Posix.m_context (this s) -> kept q v s ->
  kept q v (snd (Posix.OnFinal evp indet d s)).
Proof.
  intros Hq H. destruct (Posix_OnFinal_cases evp indet s d) as [Hbad Hgood].
  destruct (decide (fst (EVP_DigestUpdate evp (Posix.m_context (this s)) d
                           (N.of_nat (length d)) (world s)) = 1%Z)) as [Hu|Hu].
  - rewrite (Hgood Hu). cbn [snd world].
    apply (frame_final _ _ frame); [exact Hq|]. now apply (frame_update _ _ frame).
  - rewrite (Hbad Hu). cbn [snd world]. now apply (frame_update _ _ frame).
Qed.

Lemma Posix_construct_frame c (s : Posix.St) q v :
  kept q v s ->
  kept q v (snd (Posix.construct evp c s))
  /\ (fst (Posix.construct evp c s) = inr tt ->
      q <> Posix.m_context (this (snd (Posix.construct evp c s)))).
Proof.
  intros H.
  destruct (EVP_MD_CTX_new evp (world s)) as [p w1] eqn:E1.
  destruct (frame_new _ _ frame _ _ _ _ _ E1 H) as [Hq H1].
  pose proof (frame_init _ _ frame w1 p (md_of c) q v Hq H1) as H2.
  destruct c;
    unfold Posix.construct, Posix.SHA256, Posix.SHA384, Posix.SHA512,
      Posix.SHAWithOpenSSL_ctor, Posix.init_digest;
    unfold mbind, M_bind, bind, member, invoke, assign, throw, mret, M_ret, ret;
    rewrite E1; cbn;
    (destruct (decide (p = NULL)) as [D|D]; cbn; [split; [exact H1|discriminate]|]);
    cbn in H2;
    (destruct (EVP_DigestInit_ex evp p _ w1) as [st w2] eqn:E2); cbn in H2 |- *;
    (destruct (decide (1%Z ≠ st)) as [n|n]; cbn; (split; [exact H2|]); [discriminate|]);
    intros _; exact Hq.
Qed.

(** The whole lifetime of another instance leaves the context [q] as it is. *)
Lemma Posix_compute_frame c chunks last (s : Posix.St) q v :
  kept q v s -> kept q v (snd (Posix.compute evp indet c chunks last s)).
Proof.
  intros H. destruct (Posix_construct_frame c s q v H) as [H1 Hq].
  unfold Posix.compute, lifetime.
  destruct (Posix.construct evp c s) as [[e|[]] s1]; cbn [fst snd] in *; [exact H1|].
  specialize (Hq eq_refl).
  destruct (Posix_appends_frame chunks s1 q v Hq H1) as [H2 T2].
  unfold mbind, M_bind, bind.
  assert (forall s3 : Posix.St, this s3 = this s1 -> kept q v s3 ->
            kept q v (snd (Posix.SHAWithOpenSSL_dtor evp s3))) as Hdtor.
  { intros s3 T3 H3. rewrite Posix_dtor_unfold. cbn [snd world].
    apply (frame_free _ _ frame); [now rewrite T3|exact H3]. }
  destruct (Posix.appends evp chunks s1) as [[e|[]] s2]; cbn [snd] in *.
  - now apply Hdtor.
  - pose proof (Posix_OnFinal_frame s2 last q v) as H3.
    pose proof (Posix_OnFinal_this evp indet s2 last) as T3.
    destruct (Posix.OnFinal evp indet last s2) as [r3 s3]; cbn [snd] in *.
    apply Hdtor; [congruence|]. apply H3; [now rewrite T2|exact H2].
Qed.

End PosixFrame.

Lemma evp_ref_frame : EVP_frame evp_ref evp_holds.
Proof.
  assert (forall (w w' : gmap N md_ctx) q v,
            w' !! q = w !! q -> evp_holds w q v -> evp_holds w' q v) as K.
  { intros w w' q v E. destruct v; cbn; now rewrite E. }
  split.
  - intros w p w' q v E H. cbn in E. injection E as <- <-.
    destruct (evp_fresh_spec w) as [_ F].
    assert (q <> evp_fresh w) as Hq.
    { intros ->. destruct v; cbn in H; unfold ptr in *; congruence. }
    split; [exact Hq|]. apply (K w); [|exact H]. now apply lookup_insert_ne.
  - intros w p md q v Hq H. cbn. destruct (w !! p); cbn; [|exact H].
    apply (K w); [|exact H]. now apply lookup_insert_ne.
  - intros w p d cnt q v Hq H. cbn. destruct (decide (cnt = 0)); [exact H|].
    destruct (w !! p) as [[|c x]|]; cbn; try exact H.
    apply (K w); [|exact H]. now apply lookup_insert_ne.
  - intros w p q v Hq H. cbn. destruct (w !! p) as [[|c x]|]; cbn; try exact H.
    apply (K w); [|exact H]. now apply lookup_insert_ne.
  - intros w p q v Hq H. cbn. apply (K w); [|exact H]. now apply lookup_delete_ne.
Qed.

(** X17.  Two instances of [SHAWithOpenSSL] do not disturb each other: while
    one instance is digesting, another may be created, fed, finalized and
    destroyed; that one returns the digest of its own input, and the first
    then returns the digest of exactly what it was given.  Over any library
    that meets the contract and leaves the contexts alone that a call is not
    made on. *)
Theorem Posix_instances_do_not_interfere {W} (evp : EVP_API W) holds digest :
  EVP_contract evp holds digest -> EVP_frame evp holds ->
  forall indet indet' (a : Posix.St) md msg c chunks last x o,
    holds (world a) (Posix.m_context (this a)) (Ctx_digesting md msg) ->
    let b := Posix.compute evp indet' c chunks last (Machine o (world a) (calls a)) in
    fst b = inr (digest (md_of c) (concat chunks ++ last))
    /\ fst (Posix.OnFinal evp indet x (Machine (this a) (world (snd b)) (calls (snd b))))
       = inr (digest md (msg ++ x)).
Proof.
  intros C F indet indet' a md msg c chunks last x o H b. split.
  - apply (Posix_compute_digest _ _ _ indet' C).
  - pose proof (Posix_compute_frame evp holds indet' F c chunks last
                  (Machine o (world a) (calls a)) _ _ H) as H1.
    fold b in H1.
    destruct (Posix_OnFinal_digest evp holds digest indet C
                (Machine (this a) (world (snd b)) (calls (snd b))) md msg x H1) as (s' & E & _).
    now rewrite E.
Qed.

Lemma Posix_instances_witness :
  let b := Posix.compute evp_ref stack_aa SHA512_class [abc] abc
             (Machine {| Posix.m_context := NULL |} (world posix_after_abc)
                (calls posix_after_abc)) in
  fst b = inr (evp_digest (md_of SHA512_class) (concat [abc] ++ abc))
  /\ fst (Posix.OnFinal evp_ref stack_aa []
            (Machine (this posix_after_abc) (world (snd b)) (calls (snd b))))
     = inr (evp_digest EVP_sha256 (abc ++ [])).
Proof.
  apply (Posix_instances_do_not_interfere evp_ref evp_holds evp_digest
           evp_ref_contract evp_ref_frame stack_aa stack_aa posix_after_abc
           EVP_sha256 abc SHA512_class [abc] abc [] {| Posix.m_context := NULL |}).
  vm_compute. reflexivity.
Defined.

Section WindowsFrame.
Context {W : Type} (bcrypt : BCrypt_API W).
Context (holds : W -> ptr -> BCrypt_view -> Prop).
Hypothesis frame : BCrypt_frame bcrypt holds.
Context (q : ptr) (alg : LPCWSTR) (msg : list byte).

Local Abbreviation kept s := (holds (world s) q (Hash_hashing alg msg)).

Lemma Windows_OnAppend_frame (s : Windows.St) d :
  q <> Windows.m_hashHandle (this s) -> kept s -> kept (snd (Windows.OnAppend bcrypt d s)).
Proof.
  intros Hq H. rewrite Windows_OnAppend_unfold. cbn [snd world].
  now apply (frame_hash_data _ _ frame).
Qed.

Lemma Windows_appends_frame chunks (s : Windows.St) :
  q <> Windows.m_hashHandle (this s) -> kept s ->
  kept (snd (Windows.appends bcrypt chunks s)).
Proof.
  revert s. induction chunks as [|d chunks IH]; intros s Hq H; [exact H|].
  cbn [Windows.appends]. unfold mbind, M_bind, bind.
  pose proof (Windows_OnAppend_frame s d Hq H) as H1.
  pose proof (Windows_OnAppend_this bcrypt s d) as T1.
  destruct (Windows.OnAppend bcrypt d s) as [[e|[]] s1]; cbn [snd] in *; [assumption|].
  apply IH; [now rewrite T1|exact H1].
Qed.

Lemma Windows_OnFinal_frame (s : Windows.St) d :
  q <> Windows.m_hashHandle (this s) -> kept s ->
  kept (snd (Windows.OnFinal bcrypt d s)).
Proof.
  intros Hq H. destruct (Windows_OnFinal_cases bcrypt s d) as [Hbad Hgood].
  destruct (Z.lt_ge_cases
              (fst (BCryptHashData bcrypt (Windows.m_hashHandle (this s)) d
                      (ULONG_cast (N.of_nat (length d))) (world s))) 0) as [Hu|Hu].
  - rewrite (Hbad Hu). cbn [snd world]. now apply (frame_hash_data _ _ frame).
  - rewrite (Hgood Hu). cbn [snd world].
    apply (frame_finish _ _ frame); [exact Hq|]. now apply (frame_hash_data _ _ frame).
Qed.

Lemma Windows_ctor_frame alg' (s : Windows.St) :
  kept s ->
  kept (snd (Windows.SHAWithBCrypt_ctor bcrypt alg' s))
  /\ (fst (Windows.SHAWithBCrypt_ctor bcrypt alg' s) = inr tt ->
      q <> Windows.m_hashHandle (this (snd (Windows.SHAWithBCrypt_ctor bcrypt alg' s)))).
Proof.
  intros H.
  pose proof (frame_open _ _ frame (world s) alg' q alg msg H) as H1.
  unfold Windows.SHAWithBCrypt_ctor, local_object, Windows.AlgorithmProviderInstance_ctor,
    Windows.AlgorithmProviderInstance_dtor.
  unfold mbind, M_bind, bind, member, invoke, assign, throw, mret, M_ret, ret. cbn.
  destruct (BCryptOpenAlgorithmProvider bcrypt alg' (world s)) as [[st1 h] w1]. cbn in H1 |- *.
  destruct (BCRYPT_SUCCESS st1); cbn; [|split; [exact H1|discriminate]].
  pose proof (frame_property _ _ frame w1 h BCRYPT_OBJECT_LENGTH q alg msg H1) as H2.
  destruct (BCryptGetProperty bcrypt h BCRYPT_OBJECT_LENGTH w1) as [[st2 ol] w2]. cbn in H2 |- *.
  destruct (BCRYPT_SUCCESS st2); cbn; [|split; [exact H2|discriminate]].
  pose proof (frame_property _ _ frame w2 h BCRYPT_HASH_LENGTH q alg msg H2) as H3.
  destruct (BCryptGetProperty bcrypt h BCRYPT_HASH_LENGTH w2) as [[st3 hl] w3]. cbn in H3 |- *.
  destruct (BCRYPT_SUCCESS st3); cbn; [|split; [exact H3|discriminate]].
  destruct (BCryptCreateHash bcrypt h _ w3) as [[st4 hh] w4] eqn:G4. cbn.
  destruct (frame_create _ _ frame _ _ _ _ _ _ _ _ _ G4 H3) as [H4 Hq].
  pose proof (frame_close _ _ frame w4 h q alg msg H4) as H5.
  destruct (BCRYPT_SUCCESS st4) eqn:S4; cbn; (split; [exact H5|]); [|discriminate].
  intros _. apply Hq. now apply Z.leb_le.
Qed.

(** The whole lifetime of another instance leaves the hash object [q] as it
    is. *)
Lemma Windows_compute_frame c chunks last (s : Windows.St) :
  kept s -> kept (snd (Windows.compute bcrypt c chunks last s)).
Proof.
  intros H. unfold Windows.compute, lifetime. rewrite Windows_construct_ctor.
  destruct (Windows_ctor_frame (Windows.algorithm c) s H) as [H1 Hq].
  destruct (Windows.SHAWithBCrypt_ctor bcrypt _ s) as [[e|[]] s1]; cbn [fst snd] in *;
    [exact H1|].
  specialize (Hq eq_refl).
  pose proof (Windows_appends_frame chunks s1 Hq H1) as H2.
  pose proof (Windows_appends_this bcrypt chunks s1) as T2.
  unfold mbind, M_bind, bind.
  assert (forall s3 : Windows.St, this s3 = this s1 -> kept s3 ->
            kept (snd (Windows.SHAWithBCrypt_dtor bcrypt s3))) as Hdtor.
  { intros s3 T3 H3. rewrite Windows_dtor_unfold. cbn [snd world].
    apply (frame_destroy _ _ frame); [now rewrite T3|exact H3]. }
  destruct (Windows.appends bcrypt chunks s1) as [[e|[]] s2]; cbn [snd] in *.
  - now apply Hdtor.
  - pose proof (Windows_OnFinal_frame s2 last) as H3.
    pose proof (Windows_OnFinal_this bcrypt s2 last) as T3.
    destruct (Windows.OnFinal bcrypt last s2) as [r3 s3]; cbn [snd] in *.
    apply Hdtor; [congruence|]. apply H3; [now rewrite T2|exact H2].
Qed.

End WindowsFrame.

Local Ltac red_ref :=
  cbn [bcrypt_ref BCryptOpenAlgorithmProvider BCryptGetProperty BCryptCreateHash BCryptHashData BCryptFinishHash BCryptDestroyHash BCryptCloseAlgorithmProvider snd providers hash_objects].

Lemma bcrypt_ref_frame : BCrypt_frame bcrypt_ref bcrypt_holds.
Proof.
  assert (forall p p' (m m' : gmap N hash_object) q alg msg,
            m' !! q = m !! q ->
            bcrypt_holds {| providers := p; hash_objects := m |} q (Hash_hashing alg msg) ->
            bcrypt_holds {| providers := p'; hash_objects := m' |} q (Hash_hashing alg msg))
    as K.
  { intros p p' m m' q alg msg E (c & Hc & Hq). exists c. split; [exact Hc|].
    cbn in *. now rewrite E. }
  split.
  - intros [p m] alg' q alg msg H. red_ref. destruct (class_of_alg alg'); cbn [snd]; [|exact H].
    now apply (K p _ m).
  - intros [p m] h prop q alg msg H. red_ref.
    unfold BCRYPT_ALG_HANDLE, BCRYPT_HASH_HANDLE, ptr in *. destruct (p !! h); cbn [snd]; [|exact H].
    destruct (decide (prop = BCRYPT_OBJECT_LENGTH)); [exact H|].
    destruct (decide (prop = BCRYPT_HASH_LENGTH)); exact H.
  - intros [p m] h cb st hh w' q alg msg E H. cbn in E.
    unfold BCRYPT_ALG_HANDLE, BCRYPT_HASH_HANDLE, ptr in *.
    destruct (p !! h) as [c|].
    + destruct (ref_object_length c <=? cb).
      * injection E as <- <- <-.
        destruct (bcrypt_fresh_spec {| providers := p; hash_objects := m |}) as (_ & _ & F).
        cbn in F.
        assert (q <> bcrypt_fresh {| providers := p; hash_objects := m |}) as Hq.
        { intros ->. destruct H as (c' & _ & Hq). cbn in Hq.
          unfold BCRYPT_ALG_HANDLE, BCRYPT_HASH_HANDLE, ptr in *. congruence. }
        split; [|intros _; exact Hq]. apply (K p _ m); [|exact H].
        now apply lookup_insert_ne.
      * injection E as <- <- <-. split; [exact H|]. intros L. vm_compute in L. now destruct L.
    + injection E as <- <- <-. split; [exact H|]. intros L. vm_compute in L. now destruct L.
  - intros [p m] hh d cb q alg msg Hq H. red_ref.
    unfold BCRYPT_ALG_HANDLE, BCRYPT_HASH_HANDLE, ptr in *.
    destruct (m !! hh) as [[c x|]|]; cbn [snd]; try exact H.
    apply (K p _ m); [|exact H]. now apply lookup_insert_ne.
  - intros [p m] hh cb q alg msg Hq H. red_ref.
    unfold BCRYPT_ALG_HANDLE, BCRYPT_HASH_HANDLE, ptr in *.
    destruct (m !! hh) as [[c x|]|]; cbn [snd]; try exact H.
    destruct (cb =? _); cbn [snd]; [|exact H].
    apply (K p _ m); [|exact H]. now apply lookup_insert_ne.
  - intros [p m] hh q alg msg Hq H. red_ref.
    apply (K p _ m); [|exact H]. now apply lookup_delete_ne.
  - intros [p m] h q alg msg H. red_ref. now apply (K p _ m).
Qed.

(** X22.  Two instances of [SHAWithBCrypt] do not disturb each other: while
    one instance is hashing, another may be created (which opens and closes a
    provider), fed, finalized and destroyed; that one returns the digest of
    its own input, and the first then returns the digest of what it was
    given.  Over any library that meets the contract and leaves the hash
    objects alone that a call is not made on. *)
Theorem Windows_instances_do_not_interfere {W} (bcrypt : BCrypt_API W)
    holds digest object_length hash_length :
  BCrypt_contract bcrypt holds digest object_length hash_length ->
  BCrypt_frame bcrypt holds ->
  forall (a : Windows.St) alg msg c chunks last x o,
    holds (world a) (Windows.m_hashHandle (this a)) (Hash_hashing alg msg) ->
    Windows.m_hashLength (this a) = hash_length alg ->
    let b := Windows.compute bcrypt c chunks last (Machine o (world a) (calls a)) in
    fst b = inr (digest (Windows.algorithm c)
                   (concat (map ULONG_prefix chunks) ++ ULONG_prefix last))
    /\ fst (Windows.OnFinal bcrypt x (Machine (this a) (world (snd b)) (calls (snd b))))
       = inr (digest alg (msg ++ ULONG_prefix x)).
Proof.
  intros C F a alg msg c chunks last x o H L b. split.
  - apply (Windows_compute_digest _ _ _ _ _ C).
  - pose proof (Windows_compute_frame bcrypt holds F _ _ _ c chunks last
                  (Machine o (world a) (calls a)) H) as H1.
    fold b in H1.
    destruct (Windows_OnFinal_digest bcrypt holds digest object_length hash_length C
                (Machine (this a) (world (snd b)) (calls (snd b))) alg msg x (conj H1 L))
      as (s' & E & _).
    now rewrite E.
Qed.

Lemma Windows_instances_witness :
  let b := Windows.compute bcrypt_ref SHA512_class [abc] abc
             (Machine Windows.SHAWithBCrypt_members (world windows_after_abc)
                (calls windows_after_abc)) in
  fst b = inr (bcrypt_digest (Windows.algorithm SHA512_class)
                 (concat (map ULONG_prefix [abc]) ++ ULONG_prefix abc))
  /\ fst (Windows.OnFinal bcrypt_ref []
            (Machine (this windows_after_abc) (world (snd b)) (calls (snd b))))
     = inr (bcrypt_digest BCRYPT_SHA256_ALGORITHM (abc ++ ULONG_prefix [])).
Proof.
  apply (Windows_instances_do_not_interfere bcrypt_ref bcrypt_holds bcrypt_digest
           bcrypt_object_length_of bcrypt_hash_length_of
           bcrypt_ref_contract bcrypt_ref_frame windows_after_abc
           BCRYPT_SHA256_ALGORITHM abc SHA512_class [abc] abc [] Windows.SHAWithBCrypt_members).
  - exists SHA256_class. split; [reflexivity|]. vm_compute. reflexivity.
  - vm_compute. reflexivity.
Defined.

(** ** The exceptions of a complete use *)

Lemma Posix_construct_inl {W} (evp : EVP_API W) c (s s' : Posix.St) e :
  Posix.construct evp c s = (inl e, s') ->
  e = runtime_error "Crypto error while creating EVP context." \/ e = init_error c.
Proof.
  destruct c;
    unfold Posix.construct, Posix.SHA256, Posix.SHA384, Posix.SHA512,
      Posix.SHAWithOpenSSL_ctor, Posix.init_digest;
    unfold mbind, M_bind, bind, member, invoke, assign, throw, mret, M_ret, ret;
    (destruct (EVP_MD_CTX_new evp (world s)) as [p w1]); cbn;
    (destruct (decide (p = NULL)) as [D|D]; [intros H; injection H as <- _; now left|]); cbn;
    (destruct (EVP_DigestInit_ex evp p _ w1) as [st w2]); cbn;
    (destruct (decide (1%Z ≠ st)) as [n|n]; [|discriminate]);
    intros H; injection H as <- _; now right.
Qed.

Lemma Posix_appends_inl {W} (evp : EVP_API W) chunks (s s' : Posix.St) e :
  Posix.appends evp chunks s = (inl e, s') ->
  e = runtime_error "Crypto error while updating SHA256.".
Proof.
  revert s. induction chunks as [|d chunks IH]; intros s; [discriminate|].
  cbn [Posix.appends]. pose proof (Posix_OnAppend_unfold evp s d) as HA.
  destruct (decide (1%Z ≠ _)) as [n|n] in HA.
  - rewrite (bind_inl _ _ _ _ _ HA). congruence.
  - rewrite (bind_inr _ _ _ _ _ HA). apply IH.
Qed.

Lemma Posix_OnFinal_inl_text {W} (evp : EVP_API W) indet d (s s' : Posix.St) e :
  Posix.OnFinal evp indet d s = (inl e, s') ->
  e = runtime_error "Crypto error while updating SHA256."
  \/ e = runtime_error "Crypto error while computing SHA256.".
Proof.
  destruct (Posix_OnFinal_cases evp indet s d) as [Hbad Hgood].
  destruct (decide (fst (EVP_DigestUpdate evp (Posix.m_context (this s)) d
                           (N.of_nat (length d)) (world s)) = 1%Z)) as [Hu|Hu].
  - rewrite (Hgood Hu). destruct (decide (1%Z ≠ _)); [|discriminate].
    intros H. right. congruence.
  - rewrite (Hbad Hu). intros H. left. congruence.
Qed.

(** X18.  The exceptions a complete use of [SHAWithOpenSSL] can end in, for
    any library: the error of the context creation, the initialisation error
    of the class, and the errors of update and finalize, whose texts name
    SHA256 whatever the class is. *)
Theorem Posix_exceptions_of_a_complete_use {W} (evp : EVP_API W) indet c chunks last
    (s : Posix.St) e :
  fst (Posix.compute evp indet c chunks last s) = inl e ->
  e ∈ [runtime_error "Crypto error while creating EVP context.";
       init_error c;
       runtime_error "Crypto error while updating SHA256.";
       runtime_error "Crypto error while computing SHA256."].
Proof.
  unfold Posix.compute, lifetime.
  destruct (Posix.construct evp c s) as [[e1|[]] s1] eqn:E1; cbn [fst].
  - intros H. injection H as <-.
    destruct (Posix_construct_inl _ _ _ _ _ E1) as [->| ->]; set_solver.
  - unfold mbind, M_bind, bind.
    destruct (Posix.appends evp chunks s1) as [[e2|[]] s2] eqn:E2; cbn [fst].
    + intros H. injection H as <-. rewrite (Posix_appends_inl _ _ _ _ _ E2). set_solver.
    + destruct (Posix.OnFinal evp indet last s2) as [[e3|d] s3] eqn:E3; cbn [fst];
        [|discriminate].
      intros H. injection H as <-.
      destruct (Posix_OnFinal_inl_text _ _ _ _ _ _ E3) as [->| ->]; set_solver.
Qed.

Lemma Posix_exceptions_witness :
  runtime_error "Crypto error while init SHA384."
  ∈ [runtime_error "Crypto error while creating EVP context.";
     init_error SHA384_class;
     runtime_error "Crypto error while updating SHA256.";
     runtime_error "Crypto error while computing SHA256."].
Proof.
  apply (Posix_exceptions_of_a_complete_use evp_no_digest stack_aa SHA384_class [abc] []
           (Posix.boot evp_empty [])).
  vm_compute. reflexivity.
Defined.

Lemma Windows_ctor_inl {W} (bcrypt : BCrypt_API W) alg (s s' : Windows.St) e :
  Windows.SHAWithBCrypt_ctor bcrypt alg s = (inl e, s') ->
  e = runtime_error "BCryptOpenAlgorithmProvider failed"
  \/ e = runtime_error "BCryptGetProperty failed"
  \/ e = runtime_error "BCryptCreateHash failed".
Proof.
  unfold Windows.SHAWithBCrypt_ctor, local_object, Windows.AlgorithmProviderInstance_ctor,
    Windows.AlgorithmProviderInstance_dtor.
  unfold mbind, M_bind, bind, member, invoke, assign, throw, mret, M_ret, ret. cbn.
  destruct (BCryptOpenAlgorithmProvider bcrypt alg (world s)) as [[st1 h] w1]. cbn.
  destruct (BCRYPT_SUCCESS st1); cbn; [|intros H; injection H as <- _; tauto].
  destruct (BCryptGetProperty bcrypt h BCRYPT_OBJECT_LENGTH w1) as [[st2 ol] w2]. cbn.
  destruct (BCRYPT_SUCCESS st2); cbn; [|intros H; injection H as <- _; tauto].
  destruct (BCryptGetProperty bcrypt h BCRYPT_HASH_LENGTH w2) as [[st3 hl] w3]. cbn.
  destruct (BCRYPT_SUCCESS st3); cbn; [|intros H; injection H as <- _; tauto].
  destruct (BCryptCreateHash bcrypt h _ w3) as [[st4 hh] w4]. cbn.
  destruct (BCRYPT_SUCCESS st4); cbn; [discriminate|].
  intros H; injection H as <- _; tauto.
Qed.

Lemma Windows_appends_inl {W} (bcrypt : BCrypt_API W) chunks (s s' : Windows.St) e :
  Windows.appends bcrypt chunks s = (inl e, s') ->
  e = runtime_error "BCryptHashData failed".
Proof.
  revert s. induction chunks as [|d chunks IH]; intros s; [discriminate|].
  cbn [Windows.appends]. pose proof (Windows_OnAppend_unfold bcrypt s d) as HA.
  destruct (negb (BCRYPT_SUCCESS _)) in HA.
  - rewrite (bind_inl _ _ _ _ _ HA). congruence.
  - rewrite (bind_inr _ _ _ _ _ HA). apply IH.
Qed.

Lemma Windows_OnFinal_inl_text {W} (bcrypt : BCrypt_API W) d (s s' : Windows.St) e :
  Windows.OnFinal bcrypt d s = (inl e, s') ->
  e = runtime_error "BCryptHashData failed" \/ e = runtime_error "BCryptFinishHash failed".
Proof.
  destruct (Windows_OnFinal_cases bcrypt s d) as [Hbad Hgood].
  destruct (Z.lt_ge_cases
              (fst (BCryptHashData bcrypt (Windows.m_hashHandle (this s)) d
                      (ULONG_cast (N.of_nat (length d))) (world s))) 0) as [Hu|Hu].
  - rewrite (Hbad Hu). intros H. left. congruence.
  - rewrite (Hgood Hu). destruct (negb (BCRYPT_SUCCESS _)); [|discriminate].
    intros H. right. congruence.
Qed.

(** X19.  The exceptions a complete use of [SHAWithBCrypt] can end in, for
    any library: one text per failing primitive, the same for every class. *)
Theorem Windows_exceptions_of_a_complete_use {W} (bcrypt : BCrypt_API W) c chunks last
    (s : Windows.St) e :
  fst (Windows.compute bcrypt c chunks last s) = inl e ->
  e ∈ [runtime_error "BCryptOpenAlgorithmProvider failed";
       runtime_error "BCryptGetProperty failed";
       runtime_error "BCryptCreateHash failed";
       runtime_error "BCryptHashData failed";
       runtime_error "BCryptFinishHash failed"].
Proof.
  unfold Windows.compute, lifetime. rewrite Windows_construct_ctor.
  destruct (Windows.SHAWithBCrypt_ctor bcrypt _ s) as [[e1|[]] s1] eqn:E1; cbn [fst].
  - intros H. injection H as <-.
    destruct (Windows_ctor_inl _ _ _ _ _ E1) as [->|[->| ->]]; set_solver.
  - unfold mbind, M_bind, bind.
    destruct (Windows.appends bcrypt chunks s1) as [[e2|[]] s2] eqn:E2; cbn [fst].
    + intros H. injection H as <-. rewrite (Windows_appends_inl _ _ _ _ _ E2). set_solver.
    + destruct (Windows.OnFinal bcrypt last s2) as [[e3|d] s3] eqn:E3; cbn [fst];
        [|discriminate].
      intros H. injection H as <-.
      destruct (Windows_OnFinal_inl_text _ _ _ _ _ E3) as [->| ->]; set_solver.
Qed.

Lemma Windows_exceptions_witness :
  runtime_error "BCryptCreateHash failed"
  ∈ [runtime_error "BCryptOpenAlgorithmProvider failed";
     runtime_error "BCryptGetProperty failed";
     runtime_error "BCryptCreateHash failed";
     runtime_error "BCryptHashData failed";
     runtime_error "BCryptFinishHash failed"].
Proof.
  apply (Windows_exceptions_of_a_complete_use bcrypt_no_hash_object SHA256_class [abc] []
           (Windows.boot bcrypt_empty [])).
  vm_compute. reflexivity.
Defined.

(** ** What a complete use computes *)

(** X20.  What a complete use computes, over libraries that meet their
    contracts: on POSIX the digest, by the algorithm of the class, of the
    chunks and the last chunk put together; on Windows the digest of what the
    32-bit length lets through of each chunk, which is all of it when every
    chunk is shorter than 2^32 bytes. *)
Theorem Complete_use_returns_the_digest_of_the_input {W1 W2}
    (evp : EVP_API W1) (bcrypt : BCrypt_API W2)
    holds1 digest1 holds2 digest2 object_length hash_length :
  EVP_contract evp holds1 digest1 ->
  BCrypt_contract bcrypt holds2 digest2 object_length hash_length ->
  (forall indet c chunks last (s : Posix.St),
     fst (Posix.compute evp indet c chunks last s)
     = inr (digest1 (md_of c) (concat chunks ++ last)))
  /\ (forall c chunks last (s : Windows.St),
        fst (Windows.compute bcrypt c chunks last s)
        = inr (digest2 (Windows.algorithm c)
                 (concat (map ULONG_prefix chunks) ++ ULONG_prefix last)))
  /\ (forall c chunks last (s : Windows.St),
        Forall (fun d => N.of_nat (length d) < 2 ^ 32) (chunks ++ [last]) ->
        fst (Windows.compute bcrypt c chunks last s)
        = inr (digest2 (Windows.algorithm c) (concat chunks ++ last))).
Proof.
  intros C1 C2. split; [|split].
  - intros indet c chunks last s. apply (Posix_compute_digest _ _ _ indet C1).
  - intros c chunks last s. apply (Windows_compute_digest _ _ _ _ _ C2).
  - intros c chunks last s L. rewrite (Windows_compute_digest _ _ _ _ _ C2).
    apply Forall_app in L as [L1 L2]. apply Forall_cons in L2 as [L2 _].
    rewrite (ULONG_prefix_small last L2). do 4 f_equal.
    induction L1 as [|d chunks Hd _ IH]; [reflexivity|].
    cbn [map]. now rewrite IH, ULONG_prefix_small.
Qed.

Lemma Complete_use_witness :
  fst (Posix.compute evp_ref stack_aa SHA384_class [abc; abc] abc (Posix.boot evp_empty []))
  = inr (evp_digest (md_of SHA384_class) (concat [abc; abc] ++ abc))
  /\ fst (Windows.compute bcrypt_ref SHA384_class [abc; abc] abc (Windows.boot bcrypt_empty []))
     = inr (bcrypt_digest (Windows.algorithm SHA384_class) (concat [abc; abc] ++ abc)).
Proof.
  pose proof (Complete_use_returns_the_digest_of_the_input evp_ref bcrypt_ref _ _ _ _ _ _
                evp_ref_contract bcrypt_ref_contract) as (HP & _ & HW).
  split; [apply HP|]. apply HW. repeat constructor.
Defined.

(** X21.  The two builds agree: where the two libraries compute the same
    digest function, a complete use of a class over the same chunks returns
    the same on POSIX as on Windows, provided every chunk is shorter than
    2^32 bytes. *)
Theorem Builds_agree_below_4GiB {W1 W2}
    (evp : EVP_API W1) (bcrypt : BCrypt_API W2)
    holds1 digest1 holds2 digest2 object_length hash_length :
  EVP_contract evp holds1 digest1 ->
  BCrypt_contract bcrypt holds2 digest2 object_length hash_length ->
  (forall c msg, digest1 (md_of c) msg = digest2 (Windows.algorithm c) msg) ->
  forall indet c chunks last (s : Posix.St) (s' : Windows.St),
    Forall (fun d => N.of_nat (length d) < 2 ^ 32) (chunks ++ [last]) ->
    fst (Posix.compute evp indet c chunks last s)
    = fst (Windows.compute bcrypt c chunks last s').
Proof.
  intros C1 C2 D indet c chunks last s s' L.
  rewrite (Posix_compute_digest _ _ _ indet C1), (Windows_compute_digest _ _ _ _ _ C2), D.
  apply Forall_app in L as [L1 L2]. apply Forall_cons in L2 as [L2 _].
  rewrite (ULONG_prefix_small last L2). symmetry. do 4 f_equal.
  induction L1 as [|d chunks Hd _ IH]; [reflexivity|].
  cbn [map]. now rewrite IH, ULONG_prefix_small.
Qed.

Lemma Builds_agree_witness :
  fst (Posix.compute evp_ref stack_aa SHA512_class [abc; []] abc (Posix.boot evp_empty []))
  = fst (Windows.compute bcrypt_ref SHA512_class [abc; []] abc (Windows.boot bcrypt_empty [])).
Proof.
  apply (Builds_agree_below_4GiB evp_ref bcrypt_ref _ _ _ _ _ _
           evp_ref_contract bcrypt_ref_contract).
  - intros c msg. unfold evp_digest, bcrypt_digest. rewrite class_of_algorithm.
    now destruct c.
  - repeat constructor.
Defined.

(** ** The buffer of the hash object *)

(** X23.  The hash object buffer: a successful construction of
    [SHAWithBCrypt] makes one [BCryptCreateHash] call, and the size it
    announces is the 32-bit length of [m_buffer], never more than the buffer
    holds; appends and finalize, whether they succeed or throw, leave the
    buffer and the hash handle as the constructor set them. *)
Theorem Windows_hash_object_buffer_is_kept {W} (bcrypt : BCrypt_API W)
    c chunks last w (s1 : Windows.St) :
  Windows.construct bcrypt c (Windows.boot w []) = (inr tt, s1) ->
  let s2 := snd ((Windows.appends bcrypt chunks;; Windows.OnFinal bcrypt last) s1) in
  exists cb,
    hash_object_sizes (calls s1) = [cb]
    /\ cb = ULONG_cast (N.of_nat (length (Windows.m_buffer (this s1))))
    /\ cb <= N.of_nat (length (Windows.m_buffer (this s1)))
    /\ Windows.m_buffer (this s2) = Windows.m_buffer (this s1)
    /\ Windows.m_hashHandle (this s2) = Windows.m_hashHandle (this s1).
Proof.
  intros E1. rewrite Windows_construct_ctor in E1.
  destruct (Windows_ctor_inr _ _ _ _ E1)
    as (st1 & h & w1 & st2 & ol & w2 & st3 & hl & w3 & st4 & hh & w4
        & _ & _ & _ & _ & _ & _ & _ & _ & ->).
  cbv zeta. cbn [this calls Windows.boot app Windows.m_buffer Windows.m_hashHandle].
  eexists. split; [reflexivity|]. split; [reflexivity|].
  split; [apply ULONG_cast_le|].
  unfold mbind, M_bind, bind.
  match goal with |- context [Windows.appends bcrypt chunks ?s] =>
    pose proof (Windows_appends_this bcrypt chunks s) as T2;
    destruct (Windows.appends bcrypt chunks s) as [[e|[]] s2]
  end; cbn [snd] in *; [now rewrite T2|].
  now rewrite Windows_OnFinal_this, T2.
Qed.

Lemma Windows_hash_object_buffer_witness :
  let s1 := snd (Windows.construct bcrypt_ref SHA256_class (Windows.boot bcrypt_empty [])) in
  let s2 := snd ((Windows.appends bcrypt_ref [abc];; Windows.OnFinal bcrypt_ref abc) s1) in
  exists cb,
    hash_object_sizes (calls s1) = [cb]
    /\ cb = ULONG_cast (N.of_nat (length (Windows.m_buffer (this s1))))
    /\ cb <= N.of_nat (length (Windows.m_buffer (this s1)))
    /\ Windows.m_buffer (this s2) = Windows.m_buffer (this s1)
    /\ Windows.m_hashHandle (this s2) = Windows.m_hashHandle (this s1).
Proof.
  apply (Windows_hash_object_buffer_is_kept bcrypt_ref SHA256_class [abc] abc bcrypt_empty).
  vm_compute. reflexivity.
Defined.

(** ** What a chunk of 2^32 bytes or more loses on Windows *)

Lemma zeros_add a b : zeros (a + b) = zeros a ++ zeros b.
Proof. unfold zeros. now rewrite N2Nat.inj_add, repeat_app. Qed.

(** X24.  On Windows a chunk that is 2^32 bytes followed by a shorter tail is
    not hashed as what it is: from [append(S1 ++ S2)] with [S1] of 2^32
    bytes, the library is given the low 32 bits of the length, which is the
    length of [S2], and hashes that many bytes from the start of [S1];
    [append(S1); append(S2)] hashes nothing of [S1] and all of [S2].  Neither
    is the digest of [S1 ++ S2], and the two differ wherever the digests of
    the start of [S1] and of [S2] do. *)
Theorem Windows_4GiB_chunk_is_cut {W} (bcrypt : BCrypt_API W)
    holds digest object_length hash_length :
  BCrypt_contract bcrypt holds digest object_length hash_length ->
  forall c S1 S2 (s : Windows.St),
    N.of_nat (length S1) = 2 ^ 32 ->
    N.of_nat (length S2) < 2 ^ 32 ->
    fst (Windows.compute bcrypt c [S1 ++ S2] [] s)
    = inr (digest (Windows.algorithm c) (take (length S2) S1))
    /\ fst (Windows.compute bcrypt c [S1; S2] [] s)
       = inr (digest (Windows.algorithm c) S2).
Proof.
  intros C c S1 S2 s L1 L2.
  rewrite !(Windows_compute_digest _ _ _ _ _ C). cbn [map concat].
  rewrite ULONG_prefix_nil, !app_nil_r, (ULONG_prefix_small S2 L2).
  assert (ULONG_prefix (S1 ++ S2) = take (length S2) S1) as ->.
  { unfold ULONG_prefix, ULONG_cast. rewrite length_app, Nat2N.inj_add, L1.
    rewrite <- N.Div0.add_mod_idemp_l, N.Div0.mod_same, N.add_0_l.
    rewrite N.mod_small by exact L2. rewrite Nat2N.id. apply take_app_le. lia. }
  assert (ULONG_prefix S1 = []) as ->.
  { unfold ULONG_prefix, ULONG_cast. rewrite L1, N.Div0.mod_same. reflexivity. }
  split; reflexivity.
Qed.

Lemma Windows_4GiB_chunk_witness :
  (fst (Windows.compute bcrypt_ref SHA256_class [zeros (2 ^ 32) ++ abc] []
          (Windows.boot bcrypt_empty []))
   = inr (bcrypt_digest BCRYPT_SHA256_ALGORITHM [x00; x00; x00])
   /\ fst (Windows.compute bcrypt_ref SHA256_class [zeros (2 ^ 32); abc] []
             (Windows.boot bcrypt_empty []))
      = inr (bcrypt_digest BCRYPT_SHA256_ALGORITHM abc))
  /\ bcrypt_digest BCRYPT_SHA256_ALGORITHM [x00; x00; x00]
     <> bcrypt_digest BCRYPT_SHA256_ALGORITHM abc.
Proof.
  split; [|vm_compute; discriminate].
  assert (take (length abc) (zeros (2 ^ 32)) = [x00; x00; x00]) as E.
  { change (2 ^ 32) with (3 + (2 ^ 32 - 3)). now rewrite zeros_add. }
  rewrite <- E.
  apply (Windows_4GiB_chunk_is_cut bcrypt_ref _ _ _ _ bcrypt_ref_contract SHA256_class
           (zeros (2 ^ 32)) abc (Windows.boot bcrypt_empty [])).
  - apply length_zeros.
  - reflexivity.
Defined.
